(** * DV360 bulk management samples: a model of the sync core

    Shallow embedding of the Apps Script sources
    [src/02_dv360_entities.gs] (entities and resources),
    [src/01_dv360.js] ([Util], [ApiUtil], [SheetUtil]) and
    [src/06_dv360_sheet.gs] ([DV360Sheet]).

    JavaScript objects live in a heap and are addressed by reference, so
    that instance identity ([==] on objects) and in-place mutation are
    visible.  Effects (requests through [UrlFetchApp], writes to the
    spreadsheet) are recorded in a trace. *)

From Stdlib Require Import ZArith String Ascii List Bool Lia Sorting.Sorted.
From stdpp Require Import base option list sorting strings pretty.

Local Open Scope string_scope.
Local Open Scope Z_scope.
Local Open Scope list_scope.

(** ** JavaScript values *)
Module JS.

Abbreviation loc := nat (only parsing).

(** Numbers are the integers; fractions, NaN and the infinities are not
    part of the model.  A number holds an integer exactly up to the
    magnitude 2^53 ([safe_integer] below); reading and printing are exact
    there, and statements that depend on them say so. *)
Inductive value :=
| VUndefined
| VNull
| VBool (b : bool)
| VNum (n : Z)
| VStr (s : string)
| VRef (l : loc).

Global Instance value_eq_dec : EqDecision value.
Proof. solve_decision. Defined.

(** The class an object was constructed with; [CObject] is a plain object
    (an object literal, or the result of [JSON.parse]). *)
Inductive jsclass :=
| CObject
| CAdvertiser
| CCampaign
| CInsertionOrder
| CLineItem
| CCreative
| CAssignedTargetingOption
| CTargetingOption.

Global Instance jsclass_eq_dec : EqDecision jsclass.
Proof. solve_decision. Defined.

(** Own properties are kept in insertion order, which is the order
    [Object.getOwnPropertyNames], [Object.entries] and [JSON.stringify]
    use for names that are not array indices. *)
Inductive object :=
| Obj (cls : jsclass) (props : list (string * value))
| Arr (elems : list value).

Abbreviation heap := (list object) (only parsing).

(** *** Property tables *)

Fixpoint assoc_get {A} (name : string) (props : list (string * A)) : option A :=
  match props with
  | [] => None
  | (k, v) :: rest => if String.eqb k name then Some v else assoc_get name rest
  end.

(** [ob[name] = v] on a property table: an existing name keeps its place. *)
Fixpoint set_prop {A} (name : string) (v : A) (props : list (string * A))
  : list (string * A) :=
  match props with
  | [] => [(name, v)]
  | (k, x) :: rest =>
      if String.eqb k name then (k, v) :: rest
      else (k, x) :: set_prop name v rest
  end.

(** [delete ob[name]] on a property table. *)
Fixpoint delete_prop {A} (name : string) (props : list (string * A))
  : list (string * A) :=
  match props with
  | [] => []
  | (k, x) :: rest =>
      if String.eqb k name then delete_prop name rest
      else (k, x) :: delete_prop name rest
  end.

Definition keys {A} (props : list (string * A)) : list string := map fst props.

(** Array index names are the canonical decimal numerals. *)
Definition index_name (i : nat) : string := pretty (N.of_nat i).

Fixpoint indexed_from {A} (i : nat) (l : list A) : list (string * A) :=
  match l with
  | [] => []
  | x :: rest => (index_name i, x) :: indexed_from (S i) rest
  end.

Definition indexed {A} (l : list A) : list (string * A) := indexed_from 0 l.

Definition chars (s : string) : list value :=
  map (fun c => VStr (String c EmptyString)) (list_ascii_of_string s).

(** Own enumerable string-keyed properties ([Object.entries],
    the source side of [Object.assign]). *)
Definition own_entries (h : heap) (v : value) : list (string * value) :=
  match v with
  | VRef l =>
      match h !! l with
      | Some (Obj _ props) => props
      | Some (Arr elems) => indexed elems
      | None => []
      end
  | VStr s => indexed (chars s)
  | _ => []
  end.

(** [Object.getOwnPropertyNames]: [None] is the TypeError raised on
    [null] and [undefined]; arrays and strings also own [length]. *)
Definition getOwnPropertyNames (h : heap) (v : value) : option (list string) :=
  match v with
  | VUndefined | VNull => None
  | VRef l =>
      match h !! l with
      | Some (Arr elems) => Some (keys (indexed elems) ++ ["length"])
      | _ => Some (keys (own_entries h v))
      end
  | VStr s => Some (keys (indexed (chars s)) ++ ["length"])
  | _ => Some []
  end.

(** Property read [v[name]]: [None] is the TypeError raised on [null] and
    [undefined].  Function-valued properties inherited from prototypes are
    not modelled and read as [undefined]. *)
Definition get_prop (h : heap) (v : value) (name : string) : option value :=
  match v with
  | VUndefined | VNull => None
  | VRef l =>
      match h !! l with
      | Some (Obj _ props) => Some (default VUndefined (assoc_get name props))
      | Some (Arr elems) =>
          if String.eqb name "length" then Some (VNum (Z.of_nat (length elems)))
          else Some (default VUndefined (assoc_get name (indexed elems)))
      | None => Some VUndefined
      end
  | VStr s =>
      if String.eqb name "length" then Some (VNum (Z.of_nat (String.length s)))
      else Some (default VUndefined (assoc_get name (indexed (chars s))))
  | _ => Some VUndefined
  end.

(** Property keys: a key that is [undefined] is the name ["undefined"]. *)
Definition prop_key (k : option string) : string := default "undefined" k.

(** *** Conversion to string *)

Definition join (sep : string) (l : list string) : string := String.concat sep l.

(** [ToString]: plain objects and class instances print as
    ["[object Object]"], arrays as their elements joined by commas.  The
    fuel bounds the nesting of arrays.  Numbers print in full, as the
    script prints the safe integers; an array that holds itself is not
    told apart from a deep one.  Statements that depend on the printed
    form of a value take a [plain_value]. *)
Fixpoint toStr (fuel : nat) (h : heap) (v : value) {struct fuel} : string :=
  match v with
  | VUndefined => "undefined"
  | VNull => "null"
  | VBool true => "true"
  | VBool false => "false"
  | VNum n => pretty n
  | VStr s => s
  | VRef l =>
      match h !! l with
      | Some (Arr elems) =>
          match fuel with
          | O => ""
          | S n =>
              join ","
                (map (fun e =>
                        match e with
                        | VUndefined | VNull => ""
                        | _ => toStr n h e
                        end) elems)
          end
      | _ => "[object Object]"
      end
  end.

Definition ToString (h : heap) (v : value) : string := toStr (S (length h)) h v.

(** *** Equality *)

(** Strict equality [===]: same type and same value, references by
    identity. *)
Definition strict_eq (a b : value) : bool := bool_decide (a = b).

(** *** JSON texts

    A JSON text is represented by its syntax tree: [JSON.stringify]
    produces one and [JSON.parse] consumes one.  Two serialisations are the
    same string exactly when their trees are equal (member order
    included). *)
#[local] Unset Elimination Schemes.
Inductive json :=
| JNull
| JBool (b : bool)
| JNum (n : Z)
| JStr (s : string)
| JArr (items : list json)
| JObj (members : list (string * json)).
#[local] Set Elimination Schemes.

Fixpoint json_eqb (a b : json) {struct a} : bool :=
  match a, b with
  | JNull, JNull => true
  | JBool x, JBool y => Bool.eqb x y
  | JNum x, JNum y => Z.eqb x y
  | JStr x, JStr y => String.eqb x y
  | JArr xs, JArr ys =>
      (fix go (xs ys : list json) {struct xs} : bool :=
         match xs, ys with
         | [], [] => true
         | x :: xs', y :: ys' => json_eqb x y && go xs' ys'
         | _, _ => false
         end) xs ys
  | JObj xs, JObj ys =>
      (fix go (xs ys : list (string * json)) {struct xs} : bool :=
         match xs, ys with
         | [], [] => true
         | (k, x) :: xs', (k', y) :: ys' =>
             String.eqb k k' && json_eqb x y && go xs' ys'
         | _, _ => false
         end) xs ys
  | _, _ => false
  end.

Definition serial_eqb (a b : option json) : bool :=
  match a, b with
  | None, None => true
  | Some x, Some y => json_eqb x y
  | _, _ => false
  end.

(** [JSON.stringify] below the top level: [undefined] array elements
    print as [null]; [undefined] members are left out by the caller.
    [None] is the TypeError raised on a circular structure: a chain of
    references longer than the heap has objects revisits one of them. *)
Fixpoint toJSON (fuel : nat) (h : heap) (v : value) {struct fuel} : option json :=
  match v with
  | VUndefined | VNull => Some JNull
  | VBool b => Some (JBool b)
  | VNum n => Some (JNum n)
  | VStr s => Some (JStr s)
  | VRef l =>
      match fuel with
      | O => None
      | S n =>
          match h !! l with
          | Some (Obj _ props) =>
              JObj <$>
                mapM (fun kv : string * value =>
                        pair kv.1 <$> toJSON n h kv.2)
                     (filter (fun kv : string * value => kv.2 <> VUndefined) props)
          | Some (Arr elems) => JArr <$> mapM (toJSON n h) elems
          | None => None
          end
      end
  end.

(** [JSON.stringify(v)]: the outer [None] is the TypeError, the inner
    [None] is the result [undefined] (for [v] undefined). *)
Definition JSON_stringify (h : heap) (v : value) : option (option json) :=
  match v with
  | VUndefined => Some None
  | _ => Some <$> toJSON (S (length h)) h v
  end.

(** [JSON.parse]: the value is built from fresh plain objects and arrays.
    A repeated member name keeps its first place and its last value.
    Numbers are taken as they are written, which is what the script reads
    for safe integers ([safe_numbers]); beyond them it rounds. *)
Fixpoint alloc_items {A} (f : A -> heap -> value * heap) (items : list A) (h : heap)
  : list value * heap :=
  match items with
  | [] => ([], h)
  | x :: rest =>
      let '(v, h1) := f x h in
      let '(vs, h2) := alloc_items f rest h1 in
      (v :: vs, h2)
  end.

Fixpoint alloc_members {A} (f : A -> heap -> value * heap)
    (members : list (string * A)) (acc : list (string * value)) (h : heap)
  : list (string * value) * heap :=
  match members with
  | [] => (acc, h)
  | (k, x) :: rest =>
      let '(v, h1) := f x h in
      alloc_members f rest (set_prop k v acc) h1
  end.

Fixpoint alloc_json (j : json) (h : heap) {struct j} : value * heap :=
  match j with
  | JNull => (VNull, h)
  | JBool b => (VBool b, h)
  | JNum n => (VNum n, h)
  | JStr s => (VStr s, h)
  | JArr items =>
      let '(vs, h') := alloc_items alloc_json items h in
      (VRef (length h'), h' ++ [Arr vs])
  | JObj members =>
      let '(props, h') := alloc_members alloc_json members [] h in
      (VRef (length h'), h' ++ [Obj CObject props])
  end.

(** The integers that a number holds exactly, that [JSON.parse] reads
    without rounding and that print in full. *)
Definition safe_integer (n : Z) : bool := Z.abs n <=? 2 ^ 53.

(** All numbers of a JSON text are safe integers. *)
Fixpoint safe_numbers (j : json) : bool :=
  match j with
  | JNum n => safe_integer n
  | JArr items => forallb safe_numbers items
  | JObj members => forallb (fun kv : string * json => safe_numbers kv.2) members
  | _ => true
  end.

(** A value that is no object and that [ToString] prints as the script
    does: a string, a boolean, [null], [undefined] or a safe integer. *)
Definition plain_value (v : value) : Prop :=
  match v with
  | VNum n => safe_integer n = true
  | VRef _ => False
  | _ => True
  end.

End JS.

Import JS.

(** ** The Apps Script host: requests, the spreadsheet, script outcomes *)
Module Script.

Inductive http_method := GET | POST | PATCH | DELETE.

Global Instance http_method_eq_dec : EqDecision http_method.
Proof. solve_decision. Defined.

(** The request handed to [UrlFetchApp.fetch]: the method and the payload
    of [requestParams] and the url.  The content type, the bearer token
    and [muteHttpExceptions] of [ApiUtil.buildApiParams_] are the same for
    every request and are left out. *)
Record request := {
  req_method : http_method;
  req_url : string;
  req_payload : option json;
}.

(** A response text: empty, a JSON text, or a text [JSON.parse] rejects. *)
Inductive text :=
| EmptyText
| JsonText (j : json)
| PlainText (s : string).

Record response := {
  getResponseCode : Z;
  getContentText : text;
}.

Inductive js_error :=
| Error (message : text)
| TypeError
| SyntaxError.

(** What a script run does to the outside: requests sent, ranges written
    ([SheetUtil.outputInRange]) and rows removed ([sheet.deleteRow]). *)
Inductive event :=
| Fetch (r : request)
| OutputInRange (sheetName : string) (row col : Z) (output : list (list text))
| DeleteRow (sheetName : string) (row : Z).

(** The collaborators the sources call but do not define.
    - [UrlFetchApp_fetch] answers a request, knowing what happened before;
      requests are sent with [muteHttpExceptions], so an HTTP error is a
      response like any other and not an exception;
    - [coerce_eq] is the abstract equality comparison [==] on operands of
      different types neither of which is [null] or [undefined] (the
      ToNumber and ToPrimitive steps of the language);
    - [modifyUrlQueryString] stands for [Util.modifyUrlQueryString], the
      regular-expression rewriting of a query string;
    - [page_limit] is how many pages one request loop can fetch before
      the runtime stops the script. *)
Class Host := {
  UrlFetchApp_fetch : list event -> request -> response;
  coerce_eq : heap -> value -> value -> bool;
  modifyUrlQueryString : string -> string -> string -> string;
  page_limit : nat;
}.

Record world := {
  store : heap;
  trace : list event;
}.

Inductive outcome (A : Type) :=
| Returned (a : A)
| Thrown (e : js_error)
| Aborted.
Arguments Returned {A} a.
Arguments Thrown {A} e.
Arguments Aborted {A}.

(** A script fragment: it runs in a world and leaves a world, also when
    it throws. *)
Definition M (A : Type) : Type := world -> outcome A * world.

Definition ret {A} (a : A) : M A := fun w => (Returned a, w).

Definition bind {A B} (m : M A) (k : A -> M B) : M B :=
  fun w =>
    match m w with
    | (Returned a, w') => k a w'
    | (Thrown e, w') => (Thrown e, w')
    | (Aborted, w') => (Aborted, w')
    end.

Definition throw {A} (e : js_error) : M A := fun w => (Thrown e, w).

Definition abort {A} : M A := fun w => (Aborted, w).

(** [try { m } catch (error) { handler(error) }] *)
Definition try_catch {A} (m : M A) (handler : js_error -> M A) : M A :=
  fun w =>
    match m w with
    | (Thrown e, w') => handler e w'
    | r => r
    end.

Definition emit (ev : event) : M unit :=
  fun w => (Returned tt, {| store := store w; trace := trace w ++ [ev] |}).

Definition get_heap : M heap := fun w => (Returned (store w), w).

Definition get_trace : M (list event) := fun w => (Returned (trace w), w).

Definition put_heap (h : heap) : M unit :=
  fun w => (Returned tt, {| store := h; trace := trace w |}).

(** A heap-reading step that raises TypeError when it has no value. *)
Definition lift {A} (o : option A) : M A :=
  match o with
  | Some a => ret a
  | None => throw TypeError
  end.

(** [new] of an object or array literal. *)
Definition alloc (o : object) : M value :=
  fun w => (Returned (VRef (length (store w))),
            {| store := store w ++ [o]; trace := trace w |}).

(** In-place update of the properties of the object at a reference.
    Class bodies are strict code: a property write on a primitive, on
    [null] or on [undefined] raises TypeError.  Arrays carry no named
    properties in this model. *)
Definition modify_props (f : list (string * value) -> list (string * value))
    (v : value) : M unit :=
  fun w =>
    match v with
    | VRef l =>
        match store w !! l with
        | Some (Obj c props) =>
            (Returned tt,
             {| store := <[l := Obj c (f props)]> (store w); trace := trace w |})
        | _ => (Returned tt, w)
        end
    | _ => (Thrown TypeError, w)
    end.

Definition JSON_parse (j : json) : M value :=
  fun w =>
    let '(v, h) := alloc_json j (store w) in
    (Returned v, {| store := h; trace := trace w |}).

Declare Scope script_scope.
Delimit Scope script_scope with script.
Notation "x <- m ;; k" := (bind m (fun x => k))
  (at level 100, m at next level, right associativity) : script_scope.
Notation "m ;;; k" := (bind m (fun _ => k))
  (at level 100, right associativity) : script_scope.

(** [forEach] with a callback that has effects. *)
Fixpoint forEach {A} (f : A -> M unit) (l : list A) : M unit :=
  match l with
  | [] => ret tt
  | x :: rest => bind (f x) (fun _ => forEach f rest)
  end.

(** [map] with a callback that has effects. *)
Fixpoint mapFx {A B} (f : A -> M B) (l : list A) : M (list B) :=
  match l with
  | [] => ret []
  | x :: rest => bind (f x) (fun y => bind (mapFx f rest) (fun ys => ret (y :: ys)))
  end.

End Script.

Import Script.
Local Open Scope script_scope.

(** ** [Util] (src/01_dv360.js) *)
Module Util.
Section WithHost.
Context `{Host}.

Definition is_nullish (v : value) : bool :=
  match v with
  | VUndefined | VNull => true
  | _ => false
  end.

(** Abstract equality [a == b]: decided here for [null], [undefined] and
    operands of one type; operands of different types are coerced by the
    language ([coerce_eq]). *)
Definition loose_eq (h : heap) (a b : value) : bool :=
  match a, b with
  | (VUndefined | VNull), (VUndefined | VNull) => true
  | (VUndefined | VNull), _ => false
  | _, (VUndefined | VNull) => false
  | VBool x, VBool y => Bool.eqb x y
  | VNum x, VNum y => Z.eqb x y
  | VStr x, VStr y => String.eqb x y
  | VRef x, VRef y => Nat.eqb x y
  | _, _ => coerce_eq h a b
  end.

Definition loose_neq (h : heap) (a b : value) : bool := negb (loose_eq h a b).

(** [ob[fieldName]] where the caller has excluded [null] and [undefined]. *)
Definition field (h : heap) (ob : value) (fieldName : string) : value :=
  default VUndefined (get_prop h ob fieldName).

(** [fieldName.substring(start)] *)
Definition substring_from (start : nat) (s : string) : string :=
  String.substring start (String.length s - start) s.

(** [Util.getValueByDottedFieldName]; every call strips at least one
    character of [fieldName], which bounds the recursion. *)
Fixpoint getValueByDottedFieldName_rec (fuel : nat) (h : heap) (ob : value)
    (fieldName : string) {struct fuel} : value :=
  if is_nullish ob then VUndefined
  else
    match String.index 0 "." fieldName with
    | None => field h ob fieldName
    | Some firstDotIndex =>
        match fuel with
        | O => VUndefined
        | S fuel' =>
            let subObject := field h ob (String.substring 0 firstDotIndex fieldName) in
            let subFieldPath := substring_from (firstDotIndex + 1) fieldName in
            getValueByDottedFieldName_rec fuel' h subObject subFieldPath
        end
    end.

Definition getValueByDottedFieldName (h : heap) (ob : value) (fieldName : string)
  : value :=
  getValueByDottedFieldName_rec (String.length fieldName) h ob fieldName.

(** [array.filter] with a callback that may raise TypeError. *)
Fixpoint filter_opt {A} (p : A -> option bool) (l : list A) : option (list A) :=
  match l with
  | [] => Some []
  | x :: rest =>
      match p x with
      | None => None
      | Some b =>
          match filter_opt p rest with
          | None => None
          | Some rest' => Some (if b then x :: rest' else rest')
          end
      end
  end.

(** [Util.isIn]: membership by equality of the serialised forms. *)
Definition isIn (h : heap) (object : value) (array : list value) : option bool :=
  match
    filter_opt
      (fun member =>
         match JSON_stringify h member, JSON_stringify h object with
         | Some a, Some b => Some (serial_eqb a b)
         | _, _ => None
         end) array
  with
  | Some filtered => Some (0 <? length filtered)%nat
  | None => None
  end.

(** [Util.difference]: the elements of [left] that are not in [right]. *)
Definition difference (h : heap) (left right : list value) : option (list value) :=
  filter_opt (fun object => negb <$> isIn h object right) left.

End WithHost.
End Util.

(** ** [ApiUtil] (src/01_dv360.js) *)
Module ApiUtil.
Section WithHost.
Context `{Host}.

(** The replacement text of [String.prototype.replace] for a string
    pattern: [$$], [$&], [$`] and [$'] are expanded, any other [$] is
    literal (a string pattern has no capture groups). *)
Fixpoint GetSubstitution (matched before after replacement : string) : string :=
  match replacement with
  | EmptyString => EmptyString
  | String c rest =>
      if Ascii.eqb c "$" then
        match rest with
        | String d rest' =>
            if Ascii.eqb d "$" then
              String "$" (GetSubstitution matched before after rest')
            else if Ascii.eqb d "&" then
              matched +:+ GetSubstitution matched before after rest'
            else if Ascii.eqb d "`" then
              before +:+ GetSubstitution matched before after rest'
            else if Ascii.eqb d "'" then
              after +:+ GetSubstitution matched before after rest'
            else String c (GetSubstitution matched before after rest)
        | EmptyString => String c EmptyString
        end
      else String c (GetSubstitution matched before after rest)
  end.

(** [s.replace(pattern, replacement)] for a string pattern: the first
    occurrence only. *)
Definition replace (s pattern replacement : string) : string :=
  match String.index 0 pattern s with
  | None => s
  | Some position =>
      let before := String.substring 0 position s in
      let after := Util.substring_from (position + String.length pattern) s in
      before +:+ GetSubstitution pattern before after replacement +:+ after
  end.

(** [ApiUtil.replaceInputValues] *)
Definition replaceInputValues (h : heap) (input : string) (params : value) : string :=
  if Util.is_nullish params then input
  else
    fold_left
      (fun output (entry : string * value) =>
         replace output ("${" +:+ entry.1 +:+ "}") (ToString h entry.2))
      (own_entries h params) input.

(** [ApiUtil.buildApiUrl_] *)
Definition buildApiUrl_ (requestUri : string) : string :=
  let apiEndpoint := "https://displayvideo.googleapis.com" in
  let apiVersion := "v1" in
  apiEndpoint +:+ "/" +:+ apiVersion +:+ "/" +:+ requestUri.

(** [response.getResponseCode() / 100 !== 2]: the division is exact
    division of numbers, so the quotient is 2 for the code 200 only. *)
Definition code_div_100_is_2 (code : Z) : bool :=
  (code / 100 =? 2) && (code mod 100 =? 0).

(** [response.getContentText() ? JSON.parse(...) : {}] *)
Definition parse_result (content : text) : M value :=
  match content with
  | EmptyText => alloc (Obj CObject [])
  | JsonText j => JSON_parse j
  | PlainText _ => throw SyntaxError
  end.

(** The loop of [ApiUtil.executeGenericRequest_].  The variables a
    callback assigns to are threaded through as [acc]. *)
Fixpoint requestLoop {St} (pages : nat) (method : http_method)
    (payload : option json) (callback : St -> value -> M St)
    (url : string) (acc : St) {struct pages} : M St :=
  match pages with
  | O => abort
  | S pages' =>
      tr <- get_trace ;;
      let req := {| req_method := method; req_url := url; req_payload := payload |} in
      let response := UrlFetchApp_fetch tr req in
      emit (Fetch req) ;;;
      if negb (code_div_100_is_2 (getResponseCode response)) then
        throw (Error (getContentText response))
      else
        result <- parse_result (getContentText response) ;;
        acc' <- callback acc result ;;
        h <- get_heap ;;
        nextPageToken <- lift (get_prop h result "nextPageToken") ;;
        let morePages := Util.loose_neq h nextPageToken VUndefined in
        if morePages then
          requestLoop pages' method payload callback
            (modifyUrlQueryString url "pageToken" (ToString h nextPageToken)) acc'
        else ret acc'
  end.

Definition executeGenericRequest_ {St} (requestUri : string) (method : http_method)
    (payload : option json) (callback : St -> value -> M St) (acc : St) : M St :=
  let baseUrl := buildApiUrl_ requestUri in
  requestLoop page_limit method payload callback baseUrl acc.

Definition executeApiGetRequest {St} (requestUri : string)
    (callback : St -> value -> M St) (acc : St) : M St :=
  executeGenericRequest_ requestUri GET None callback acc.

Definition executeApiPatchRequest {St} (requestUri : string) (payload : value)
    (callback : St -> value -> M St) (acc : St) : M St :=
  h <- get_heap ;;
  body <- lift (JSON_stringify h payload) ;;
  executeGenericRequest_ requestUri PATCH body callback acc.

Definition executeApiPostRequest {St} (requestUri : string) (payload : value)
    (callback : St -> value -> M St) (acc : St) : M St :=
  h <- get_heap ;;
  body <- lift (JSON_stringify h payload) ;;
  executeGenericRequest_ requestUri POST body callback acc.

Definition executeApiDeleteRequest {St} (requestUri : string)
    (callback : St -> value -> M St) (acc : St) : M St :=
  executeGenericRequest_ requestUri DELETE None callback acc.

End WithHost.
End ApiUtil.

(** ** [DV360Entity] and its subclasses (src/02_dv360_entities.gs) *)
Module DV360Entity.
Section WithHost.
Context `{Host}.

(** The field list each subclass constructor passes to [super]. *)
Definition fieldList (c : jsclass) : list string :=
  match c with
  | CObject => []
  | CAdvertiser =>
      ["name"; "advertiserId"; "partnerId"; "displayName"; "entityStatus";
       "updateTime"; "generalConfig"; "adServerConfig"; "creativeConfig";
       "dataAccessConfig"; "integrationDetails"; "servingConfig"]
  | CCampaign =>
      ["name"; "advertiserId"; "campaignId"; "displayName"; "entityStatus";
       "updateTime"; "campaignGoal"; "campaignFlight"; "frequencyCap"]
  | CInsertionOrder =>
      ["name"; "advertiserId"; "campaignId"; "insertionOrderId"; "displayName";
       "insertionOrderType"; "entityStatus"; "updateTime"; "partnerCosts";
       "pacing"; "frequencyCap"; "integrationDetails"; "performanceGoal";
       "budget"; "bidStrategy"]
  | CLineItem =>
      ["name"; "advertiserId"; "campaignId"; "insertionOrderId"; "lineItemId";
       "displayName"; "lineItemType"; "entityStatus"; "updateTime";
       "partnerCosts"; "flight"; "budget"; "pacing"; "frequencyCap";
       "partnerRevenueModel"; "conversionCounting"; "creativeIds";
       "bidStrategy"; "integrationDetails"; "inventorySourceIds";
       "targetingExpansion"; "warningMessages"; "mobileApp"]
  | CCreative =>
      ["name"; "advertiserId"; "creativeId"; "cmPlacementId"; "displayName";
       "entityStatus"; "updateTime"; "createTime"; "creativeType";
       "hostingSource"; "dynamic"; "dimensions"; "additionalDimensions";
       "mediaDuration"; "creativeAttributes"; "reviewStatus"; "assets";
       "exitEvents"; "timerEvents"; "counterEvents"; "appendedTag";
       "integrationCode"; "notes"; "iasCampaignMonitoring";
       "companionCreativeIds"; "skippable"; "skipOffset"; "progressOffset";
       "universalAdId"; "thirdPartyUrls"; "transcodes"; "trackerUrls";
       "jsTrackerUrl"; "cmTrackingAd"; "obaIcon"; "thirdPartyTag";
       "requireMraid"; "requireHtml5"; "requirePingForAttribution";
       "expandingDirection"; "expandOnHover"; "vastTagUrl"; "vpaid";
       "html5Video"; "lineItemIds"; "mp3Audio"; "oggAudio"]
  | CAssignedTargetingOption =>
      ["name"; "assignedTargetingOptionId"; "targetingType"; "inheritance"]
  | CTargetingOption => ["name"; "targetingOptionId"; "targetingType"]
  end.

(** [Object.assign(target, source)] on the property table of [target]. *)
Definition assign (target : list (string * value)) (source : list (string * value))
  : list (string * value) :=
  fold_left (fun acc (entry : string * value) => set_prop entry.1 entry.2 acc)
            source target.

(** [new C(obj)]: the constructor stores the field list, a fresh array,
    under [fieldList_] and then copies the properties of [obj]. *)
Definition new (c : jsclass) (obj : value) : M value :=
  fieldList_ <- alloc (Arr (map VStr (fieldList c))) ;;
  h <- get_heap ;;
  alloc (Obj c (assign [("fieldList_", fieldList_)] (own_entries h obj))).

(** The constructor of the earlier revision (src/01_dv360.js) stores no
    field list: it only copies the properties of [obj].  Its
    [getPatchMask] enumerates [Util.listFields(modified)], which is
    [Object.getOwnPropertyNames(modified)] again. *)
Definition new_01 (c : jsclass) (obj : value) : M value :=
  h <- get_heap ;;
  alloc (Obj c (assign [] (own_entries h obj))).

(** The [changedFields] of [this.getPatchMask(modified)].  [this] is the
    entity the method is called on, so [this.primaryIdField_] is a
    property of that entity.  [None] is the TypeError of
    [Object.getOwnPropertyNames] on [null] or [undefined]. *)
Definition changedFields (h : heap) (this modified : value) : option (list string) :=
  names ← getOwnPropertyNames h modified;
  primaryIdField_ ← get_prop h this "primaryIdField_";
  Some
    (filter (fun field =>
               Util.loose_neq h (Util.getValueByDottedFieldName h modified field)
                                (Util.getValueByDottedFieldName h this field) = true)
       (filter (fun field => Util.loose_neq h (VStr field) (VStr "updateTime") = true)
          (filter (fun field => Util.loose_neq h (VStr field) primaryIdField_ = true)
             names))).

(** [this.getPatchMask(modified)] *)
Definition getPatchMask (h : heap) (this modified : value) : option string :=
  changedFields ← changedFields h this modified;
  let mask := join "," changedFields in
  Some mask.

End WithHost.
End DV360Entity.

(** ** [DV360Resource] and its subclasses (src/02_dv360_entities.gs) *)
Module DV360Resource.

(** The fields the base constructor stores, and the entity class the
    subclass builds in [convertObjectToEntity] ([None] for the abstract
    base class).  A constructor argument that is not passed is
    [undefined] ([None] for [primaryIdField_]); [filter] defaults to the
    empty string. *)
Record t := {
  baseUri_ : string;
  apiFieldName_ : string;
  primaryIdField_ : option string;
  filter_ : string;
  entityClass : option jsclass;
}.

Definition Advertisers : t :=
  {| baseUri_ := "advertisers?partnerId=${partnerId}";
     apiFieldName_ := "advertisers";
     primaryIdField_ := None;
     filter_ := "";
     entityClass := Some CAdvertiser |}.

Definition Campaigns : t :=
  {| baseUri_ := "advertisers/${advertiserId}/campaigns";
     apiFieldName_ := "campaigns";
     primaryIdField_ := Some "campaignId";
     filter_ := "";
     entityClass := Some CCampaign |}.

Definition InsertionOrders : t :=
  {| baseUri_ := "advertisers/${advertiserId}/insertionOrders";
     apiFieldName_ := "insertionOrders";
     primaryIdField_ := Some "insertionOrderId";
     filter_ := "campaignId=${campaignId}";
     entityClass := Some CInsertionOrder |}.

Definition LineItems : t :=
  {| baseUri_ := "advertisers/${advertiserId}/lineItems";
     apiFieldName_ := "lineItems";
     primaryIdField_ := Some "lineItemId";
     filter_ := "campaignId=${campaignId} AND insertionOrderId=${insertionOrderId}";
     entityClass := Some CLineItem |}.

Definition Creatives : t :=
  {| baseUri_ := "advertisers/${advertiserId}/creatives";
     apiFieldName_ := "creatives";
     primaryIdField_ := Some "creativeId";
     filter_ := "lineItemIds:${lineItemId}";
     entityClass := Some CCreative |}.

(** [AssignedTargetingOptions(uri, apiFieldName)] *)
Definition AssignedTargetingOptions (uri apiFieldName : string) : t :=
  {| baseUri_ := uri;
     apiFieldName_ := apiFieldName;
     primaryIdField_ := Some "assignedTargetingOptionId";
     filter_ := "";
     entityClass := Some CAssignedTargetingOption |}.

Definition LineItemTargetingOptions : t :=
  AssignedTargetingOptions
    ("advertisers/${advertiserId}" +:+
     "/lineItems/${lineItemId}:bulkListLineItemAssignedTargetingOptions")
    "assignedTargetingOptions".

Definition AllTargetingOptions : t :=
  {| baseUri_ := "targetingTypes/${targetingType}/" +:+
                 "targetingOptions?advertiserId=${advertiserId}";
     apiFieldName_ := "targetingOptions";
     primaryIdField_ := Some "targetingOptionId";
     filter_ := "";
     entityClass := Some CTargetingOption |}.

Section WithHost.
Context `{Host}.
Variable this : t.

(** [convertObjectToEntity]: abstract in the base class. *)
Definition convertObjectToEntity (result : value) : M value :=
  match entityClass this with
  | Some c => DV360Entity.new c result
  | None => throw (Error (PlainText "Not implemented"))
  end.

(** [getPrimaryId(entity)]: [entity[this.primaryIdField_]] *)
Definition getPrimaryId (h : heap) (entity : value) : option value :=
  get_prop h entity (prop_key (primaryIdField_ this)).

Definition buildListUri_ (h : heap) (parameters : value) : string :=
  let uri := baseUri_ this in
  let uri :=
    if negb (String.eqb (filter_ this) "")
    then modifyUrlQueryString uri "filter" (filter_ this)
    else uri in
  ApiUtil.replaceInputValues h uri parameters.

Definition buildCreateUri_ (h : heap) (params : value) : string :=
  ApiUtil.replaceInputValues h (baseUri_ this) params.

(** [buildSingleEntityUri_]: the parameters are copied into a fresh
    object before the substitution. *)
Definition buildSingleEntityUri_ (params : value) : M string :=
  h <- get_heap ;;
  primaryId <- lift (getPrimaryId h params) ;;
  let input := baseUri_ this +:+ "/" +:+ ToString h primaryId in
  copy <- alloc (Obj CObject (DV360Entity.assign [] (own_entries h params))) ;;
  h' <- get_heap ;;
  ret (ApiUtil.replaceInputValues h' input copy).

Definition buildPatchUri_ (entity modified : value) : M string :=
  h <- get_heap ;;
  patchMask <- lift (DV360Entity.getPatchMask h entity modified) ;;
  uri <- buildSingleEntityUri_ entity ;;
  ret (uri +:+ "?updateMask=" +:+ patchMask).

(** [rowsData] spread into [push]: arrays and strings are iterable. *)
Definition spread (h : heap) (v : value) : option (list value) :=
  match v with
  | VRef l =>
      match h !! l with
      | Some (Arr elems) => Some elems
      | _ => None
      end
  | VStr s => Some (chars s)
  | _ => None
  end.

(** [Object.keys(result)]: TypeError on [null] and [undefined]. *)
Definition Object_keys (h : heap) (v : value) : option (list string) :=
  if Util.is_nullish v then None else Some (keys (own_entries h v)).

Definition list (parameters : value) : M (list value) :=
  h <- get_heap ;;
  resultList <-
    ApiUtil.executeApiGetRequest (buildListUri_ h parameters)
      (fun resultList result =>
         h <- get_heap ;;
         ks <- lift (Object_keys h result) ;;
         if (length ks =? 0)%nat then ret resultList
         else
           rowsData <- lift (get_prop h result (apiFieldName_ this)) ;;
           items <- lift (spread h rowsData) ;;
           ret (resultList ++ items))
      [] ;;
  mapFx convertObjectToEntity resultList.

Definition get (parameters : value) : M value :=
  uri <- buildSingleEntityUri_ parameters ;;
  ApiUtil.executeApiGetRequest uri
    (fun _ result => convertObjectToEntity result) VNull.

Definition update (entity : value) : M value :=
  original <- get entity ;;
  h <- get_heap ;;
  mask <- lift (DV360Entity.getPatchMask h original entity) ;;
  if String.eqb mask "" then ret original
  else
    uri <- buildPatchUri_ original entity ;;
    ApiUtil.executeApiPatchRequest uri entity
      (fun _ result => convertObjectToEntity result) VNull.

Definition create (entity : value) : M value :=
  h <- get_heap ;;
  input <- alloc (Obj CObject (DV360Entity.assign [] (own_entries h entity))) ;;
  modify_props (delete_prop (prop_key (primaryIdField_ this))) input ;;;
  h' <- get_heap ;;
  ApiUtil.executeApiPostRequest (buildCreateUri_ h' entity) input
    (fun _ result => convertObjectToEntity result) VNull.

Definition delete (entity : value) : M unit :=
  modify_props (set_prop "entityStatus" (VStr "ENTITY_STATUS_ARCHIVED")) entity ;;;
  _ <- update entity ;;
  uri <- buildSingleEntityUri_ entity ;;
  ApiUtil.executeApiDeleteRequest uri (fun _ _ => ret tt) tt.

End WithHost.
End DV360Resource.

(** ** [LineItemTargetingOptions] and the entity methods that call
    resources (src/02_dv360_entities.gs) *)
Module LineItemTargetingOptions.

(** The object literals the request builders return. *)
Record creationRequest := {
  cr_targetingType : value;
  assignedTargetingOptions : list value;
}.

Record deletionRequest := {
  dr_targetingType : value;
  assignedTargetingOptionIds : list value;
}.

(** [[...new Set(l)]]: the first occurrence of each value, in order. *)
Fixpoint uniq (l : list value) : list value :=
  match l with
  | [] => []
  | x :: rest => x :: filter (fun y => y <> x) (uniq rest)
  end.

Section WithHost.
Context `{Host}.

(** [options.map((option) => option.targetingType)] and the like. *)
Definition pluck (h : heap) (name : string) (options : list value)
  : option (list value) :=
  mapM (fun option => get_prop h option name) options.

Definition collectUniqueTypes (h : heap) (options : list value)
  : option (list value) :=
  uniq <$> pluck h "targetingType" options.

(** [options.filter((option) => option.targetingType === type)] *)
Definition ofType (h : heap) (type : value) (options : list value)
  : option (list value) :=
  Util.filter_opt
    (fun option => (fun t => strict_eq t type) <$> get_prop h option "targetingType")
    options.

Definition createRequests_ (h : heap) (newOptions oldOptions : list value)
  : option (list creationRequest) :=
  optionsToCreate ← Util.difference h newOptions oldOptions;
  types ← collectUniqueTypes h optionsToCreate;
  mapM (fun type =>
          options ← ofType h type optionsToCreate;
          Some {| cr_targetingType := type; assignedTargetingOptions := options |})
       types.

Definition deleteRequests (h : heap) (newOptions oldOptions : list value)
  : option (list deletionRequest) :=
  optionsToDelete ← Util.difference h oldOptions newOptions;
  types ← collectUniqueTypes h optionsToDelete;
  mapM (fun type =>
          options ← ofType h type optionsToDelete;
          ids ← pluck h "assignedTargetingOptionId" options;
          Some {| dr_targetingType := type; assignedTargetingOptionIds := ids |})
       types.

(** [LineItem.listTargetingOptions] overrides the method of
    [DV360Entity], which returns an empty array; a value that is not an
    entity has no such method. *)
Definition listTargetingOptions (this : value) : M (list value) :=
  h <- get_heap ;;
  match this with
  | VRef l =>
      match h !! l with
      | Some (Obj CLineItem _) =>
          parameters <-
            alloc (Obj CObject
                     [("advertiserId", Util.field h this "advertiserId");
                      ("lineItemId", Util.field h this "lineItemId")]) ;;
          DV360Resource.list DV360Resource.LineItemTargetingOptions parameters
      | Some (Obj CObject _) | Some (Arr _) | None => throw TypeError
      | Some (Obj _ _) => ret []
      end
  | _ => throw TypeError
  end.

(** The request objects are put on the heap when the payload is built. *)
Definition alloc_creationRequest (r : creationRequest) : M value :=
  options <- alloc (Arr (assignedTargetingOptions r)) ;;
  alloc (Obj CObject [("targetingType", cr_targetingType r);
                      ("assignedTargetingOptions", options)]).

Definition alloc_deletionRequest (r : deletionRequest) : M value :=
  ids <- alloc (Arr (assignedTargetingOptionIds r)) ;;
  alloc (Obj CObject [("targetingType", dr_targetingType r);
                      ("assignedTargetingOptionIds", ids)]).

(** [x || []] *)
Definition falsy (v : value) : bool :=
  match v with
  | VUndefined | VNull | VBool false | VNum 0 | VStr EmptyString => true
  | _ => false
  end.

Definition bulkUpdate (lineItem : value) (newOptions : list value) : M value :=
  oldOptions <- listTargetingOptions lineItem ;;
  h <- get_heap ;;
  creationRequests <- lift (createRequests_ h newOptions oldOptions) ;;
  deletionRequests <- lift (deleteRequests h newOptions oldOptions) ;;
  creations <- mapFx alloc_creationRequest creationRequests ;;
  creationArray <- alloc (Arr creations) ;;
  deletions <- mapFx alloc_deletionRequest deletionRequests ;;
  deletionArray <- alloc (Arr deletions) ;;
  payload <- alloc (Obj CObject [("deleteRequests", deletionArray);
                                 ("createRequests", creationArray)]) ;;
  h' <- get_heap ;;
  let postUri :=
    ApiUtil.replaceInputValues h'
      ("advertisers/${advertiserId}/lineItems/" +:+
       "${lineItemId}:bulkEditLineItemAssignedTargetingOptions")
      lineItem in
  output <- alloc (Arr []) ;;
  ApiUtil.executeApiPostRequest postUri payload
    (fun _ response =>
       h <- get_heap ;;
       created <- lift (get_prop h response "createdAssignedTargetingOptions") ;;
       if falsy created then alloc (Arr []) else ret created)
    output.

End WithHost.
End LineItemTargetingOptions.

(** ** [SheetUtil] (src/01_dv360.js) and [SheetConfig] *)
Module SheetUtil.

(** The fields of [SheetConfig] the deletion path reads. *)
Record SheetConfig := {
  name : string;
  dv360resource : DV360Resource.t;
  headerRow : Z;
}.

Definition rangeStartRow (c : SheetConfig) : Z := headerRow c + 1.

(** [rowNumbers.map((number, index) => number - index)] *)
Definition reindexedRows (rowNumbers : list Z) : list Z :=
  imap (fun index number => number - Z.of_nat index) rowNumbers.

(** [SheetUtil.deleteSheetRows] *)
Definition deleteSheetRows (sheetConfig : SheetConfig) (rowNumbers : list Z) : M unit :=
  forEach (fun number => emit (DeleteRow (name sheetConfig) number))
          (reindexedRows rowNumbers).

(** [SheetUtil.outputInRange] *)
Definition outputInRange (sheetName : string) (rangeStartRow rangeStartCol : Z)
    (output : list (list text)) : M unit :=
  emit (OutputInRange sheetName rangeStartRow rangeStartCol output).

(** What [sheet.deleteRow(row)] does to the rows of a sheet (row numbers
    start at 1). *)
Definition deleteRow {A} (row : Z) (rows : list A) : list A :=
  if 1 <=? row then base.delete (Z.to_nat (row - 1)) rows else rows.

End SheetUtil.

(** ** [DV360Sheet] (src/06_dv360_sheet.gs) *)
Module DV360Sheet.

Record t := {
  sheetConfig_ : SheetUtil.SheetConfig;
  headerFields_ : list string;
}.

Definition logsColumnName_ : string := "_logs".

(** [RowData] *)
Record RowData := {
  payload : value;
  sheetIndex : Z;
  action : string;
  targetingOptions : list value;
}.

(** [array.indexOf(x)]: -1 when [x] is absent. *)
Fixpoint indexOf (x : string) (l : list string) : Z :=
  match l with
  | [] => -1
  | y :: rest =>
      if String.eqb y x then 0
      else let i := indexOf x rest in if i <? 0 then -1 else i + 1
  end.

(** [error.message]: the text given to [Error]; for the errors the
    engine raises, its own wording. *)
Definition message (e : js_error) : text :=
  match e with
  | Error m => m
  | TypeError => PlainText "TypeError"
  | SyntaxError => PlainText "SyntaxError"
  end.

Section WithHost.
Context `{Host}.
Variable this : t.

Definition getLogsColumnNumber_ : Z :=
  indexOf logsColumnName_ (headerFields_ this) + 1.

Definition writeIntoSheetRow (rowNumber colNumber : Z) (rowData : list text) : M unit :=
  SheetUtil.outputInRange (SheetUtil.name (sheetConfig_ this)) rowNumber colNumber
    [rowData].

Definition handleAPIError_ (data : RowData) (error : js_error) : M unit :=
  writeIntoSheetRow (sheetIndex data + SheetUtil.rangeStartRow (sheetConfig_ this))
    getLogsColumnNumber_ [message error].

(** The body of the [forEach] in [deleteEntries_]; [rowNumbersToDelete]
    is the array the callback pushes to. *)
Definition deleteEntry (rowNumbersToDelete : list Z) (data : RowData) : M (list Z) :=
  try_catch
    (DV360Resource.delete (SheetUtil.dv360resource (sheetConfig_ this)) (payload data) ;;;
     let rowNumber := sheetIndex data + SheetUtil.rangeStartRow (sheetConfig_ this) in
     let rowNumbersToDelete := rowNumbersToDelete ++ [rowNumber] in
     writeIntoSheetRow rowNumber getLogsColumnNumber_ [PlainText "DELETED"] ;;;
     ret rowNumbersToDelete)
    (fun error => handleAPIError_ data error ;;; ret rowNumbersToDelete).

Fixpoint deleteEach (rowNumbersToDelete : list Z) (objectData : list RowData)
  : M (list Z) :=
  match objectData with
  | [] => ret rowNumbersToDelete
  | data :: rest =>
      rowNumbersToDelete <- deleteEntry rowNumbersToDelete data ;;
      deleteEach rowNumbersToDelete rest
  end.

Definition deleteEntries_ (objectData : list RowData) : M unit :=
  rowNumbersToDelete <- deleteEach [] objectData ;;
  SheetUtil.deleteSheetRows (sheetConfig_ this) rowNumbersToDelete.

(** The rows [uploadChanges] hands to [deleteEntries_]:
    [rowsData.filter((data) => data.action === 'DELETE')]. *)
Definition rowsToDelete (rowsData : list RowData) : list RowData :=
  filter (fun data => action data = "DELETE") rowsData.

End WithHost.
End DV360Sheet.

(** ** [Util], the functions that write (src/01_dv360.js) *)
Module UtilWrites.

(** [ob[name] = v] in a class body, which is strict code: a write to a
    property of a primitive raises TypeError, as [modify_props] has it.
    Arrays carry no named properties in this model, so a write to an
    array is outside of it. *)
Definition assign_prop (ob : value) (name : string) (v : value) : M unit :=
  fun w =>
    match ob with
    | VRef l =>
        match store w !! l with
        | Some (Arr _) => (Aborted, w)
        | _ => modify_props (set_prop name v) ob w
        end
    | _ => modify_props (set_prop name v) ob w
    end.

(** [Util.setValueByDottedFieldName].  Every call strips at least one
    character of [fieldName], which bounds the recursion. *)
Fixpoint setValueByDottedFieldName_rec (fuel : nat) (ob : value) (fieldName : string)
    (v : value) {struct fuel} : M unit :=
  match String.index 0 "." fieldName with
  | None => assign_prop ob fieldName v
  | Some firstDotIndex =>
      match fuel with
      | O => abort
      | S fuel' =>
          let firstLevelFieldName := String.substring 0 firstDotIndex fieldName in
          h <- get_heap ;;
          existing <- lift (get_prop h ob firstLevelFieldName) ;;
          subObject <-
            (if LineItemTargetingOptions.falsy existing then alloc (Obj CObject [])
             else ret existing) ;;
          assign_prop ob firstLevelFieldName subObject ;;;
          let subFieldPath := Util.substring_from (firstDotIndex + 1) fieldName in
          setValueByDottedFieldName_rec fuel' subObject subFieldPath v
      end
  end.

Definition setValueByDottedFieldName (ob : value) (fieldName : string) (v : value)
  : M unit :=
  setValueByDottedFieldName_rec (String.length fieldName) ob fieldName v.

End UtilWrites.

(** ** [Util.extend] (src/01_dv360.js) *)
Module UtilExtend.

(** [Array.isArray(v)] *)
Definition isArray (h : heap) (v : value) : bool :=
  match v with
  | VRef l =>
      match h !! l with
      | Some (Arr _) => true
      | _ => false
      end
  | _ => false
  end.

(** [array.push(...items)] on an array. *)
Definition push (array : value) (items : list value) : M unit :=
  fun w =>
    match array with
    | VRef l =>
        match store w !! l with
        | Some (Arr elems) =>
            (Returned tt,
             {| store := <[l := Arr (elems ++ items)]> (store w); trace := trace w |})
        | _ => (Thrown TypeError, w)
        end
    | _ => (Thrown TypeError, w)
    end.

(** [ob.hasOwnProperty(key)] for a key that [for ... in] has just
    produced from [ob]: the inherited method answers [true].  An own
    property named [hasOwnProperty] hides the method, and the call
    raises TypeError, no value of this model being a function. *)
Definition hasOwnProperty_of_own_key (h : heap) (ob : value) : option bool :=
  match assoc_get "hasOwnProperty" (own_entries h ob) with
  | None => Some true
  | Some _ => None
  end.

(** The body of the loop of [Util.extend].  [extension[key]] is read
    twice by the source, with nothing in between that could change it. *)
Definition extend_key (original extension : value) (key : string) : M unit :=
  h <- get_heap ;;
  own <- lift (hasOwnProperty_of_own_key h extension) ;;
  if own : bool then
    extensionValue <- lift (get_prop h extension key) ;;
    originalValue <- lift (get_prop h original key) ;;
    if isArray h extensionValue && isArray h originalValue then
      items <- lift (DV360Resource.spread h extensionValue) ;;
      push originalValue items
    else UtilWrites.assign_prop original key extensionValue
  else ret tt.

(** [Util.extend]: the keys of [for (const key in extension)] are the own
    enumerable properties of [extension] as they are when the loop
    starts. *)
Definition extend (original extension : value) : M value :=
  if Util.is_nullish original then ret extension
  else
    h <- get_heap ;;
    forEach (extend_key original extension) (keys (own_entries h extension)) ;;;
    ret original.

End UtilExtend.

(** ** [Util.modifyUrlQueryString] (src/01_dv360.js) *)
Module UrlQuery.

(** Letters, digits and the underscore.  The key is pasted into a
    regular expression; a key of such characters matches itself there,
    and the model below is for such keys ([filter] and [pageToken] are the
    keys the sources pass). *)
Definition is_word (c : ascii) : bool :=
  let n := nat_of_ascii c in
  ((48 <=? n) && (n <=? 57) || (65 <=? n) && (n <=? 90)
   || (97 <=? n) && (n <=? 122) || (n =? 95))%nat.

Definition plain_key (key : string) : bool :=
  forallb is_word (list_ascii_of_string key).

(** What [[^&]*] takes: the longest prefix without [&]. *)
Fixpoint upto_amp (s : string) : string :=
  match s with
  | EmptyString => EmptyString
  | String c rest => if Ascii.eqb c "&" then EmptyString else String c (upto_amp rest)
  end.

(** [queryString.match(new RegExp(`(^|&)${key}=[^&]*`, 'g'))]: the
    matches from left to right ([[]] for [null]).  [at_start] says that
    [s] starts where the query string starts; the first [skip] characters
    of [s] belong to the match before. *)
Fixpoint matches (key : string) (at_start : bool) (skip : nat) (s : string)
  : list string :=
  match s with
  | EmptyString => []
  | String c rest =>
      match skip with
      | S n => matches key false n rest
      | O =>
          if at_start && String.prefix (key +:+ "=") s then
            let m := key +:+ "="
                     +:+ upto_amp (Util.substring_from (String.length key + 1) s) in
            m :: matches key false (String.length m - 1) rest
          else if Ascii.eqb c "&" && String.prefix (key +:+ "=") rest then
            let m := "&" +:+ key +:+ "="
                     +:+ upto_amp (Util.substring_from (String.length key + 1) rest) in
            m :: matches key false (String.length m - 1) rest
          else matches key false 0 rest
      end
  end.

(** [Util.modifyUrlQueryString].  [url.split('?')] is destructured into
    its first two parts: what follows a second [?] is dropped. *)
Definition modifyUrlQueryString (url key value : string) : string :=
  match String.index 0 "?" url with
  | Some i =>
      let baseUrl := String.substring 0 i url in
      let rest := Util.substring_from (i + 1) url in
      let queryString :=
        match String.index 0 "?" rest with
        | Some j => String.substring 0 j rest
        | None => rest
        end in
      let fragment :=
        match String.index 0 "#" queryString with
        | Some k => Util.substring_from k queryString
        | None => ""
        end in
      let queryString := ApiUtil.replace queryString fragment "" in
      let queryString :=
        match matches key true 0 queryString with
        | [] =>
            let separator := if (0 <? String.length queryString)%nat then "&" else "" in
            queryString +:+ separator +:+ key +:+ "=" +:+ value
        | first :: others =>
            let val :=
              Util.substring_from
                (match String.index 0 "=" first with
                 | Some e => e + 1
                 | None => 0
                 end) first in
            let replacement := ApiUtil.replace first val value in
            fold_left (fun queryString m => ApiUtil.replace queryString m "")
                      others (ApiUtil.replace queryString first replacement)
        end in
      baseUrl +:+ "?" +:+ queryString +:+ fragment
  | None => url +:+ "?" +:+ key +:+ "=" +:+ value
  end.

End UrlQuery.

(** * Statements *)

(** ** Scenarios

    Small scripts that set up the objects the examples below talk about,
    starting from an empty heap. *)
Module Scenario.

Definition empty : world := {| store := []; trace := [] |}.

(** A host whose server is the function [server]; operands of different
    types are taken to be unequal, a page token is appended to the url. *)
Definition host (server : list event -> request -> response) : Host :=
  {| UrlFetchApp_fetch := server;
     coerce_eq := fun _ _ _ => false;
     modifyUrlQueryString :=
       fun url key value => url +:+ "&" +:+ key +:+ "=" +:+ value;
     page_limit := 4 |}.

Definition ok (j : json) : response :=
  {| getResponseCode := 200; getContentText := JsonText j |}.

Definition failure (code : Z) (message : string) : response :=
  {| getResponseCode := code; getContentText := PlainText message |}.

(** [original = new C(JSON.parse(j1)); modified = new C(JSON.parse(j2))] *)
Definition two_entities `{Host} (c : jsclass) (j1 j2 : json) : M (value * value) :=
  o1 <- JSON_parse j1 ;;
  original <- DV360Entity.new c o1 ;;
  o2 <- JSON_parse j2 ;;
  modified <- DV360Entity.new c o2 ;;
  ret (original, modified).

(** The same with the constructor of the earlier revision. *)
Definition two_entities_01 `{Host} (c : jsclass) (j1 j2 : json) : M (value * value) :=
  o1 <- JSON_parse j1 ;;
  original <- DV360Entity.new_01 c o1 ;;
  o2 <- JSON_parse j2 ;;
  modified <- DV360Entity.new_01 c o2 ;;
  ret (original, modified).

(** The mask of the second entity against the first, in the heap the
    script leaves. *)
Definition mask_of `{Host} (script : M (value * value)) : option string :=
  match script empty with
  | (Returned (original, modified), w) =>
      DV360Entity.getPatchMask (store w) original modified
  | _ => None
  end.

Definition campaign (campaignId displayName : string) : json :=
  JObj [("campaignId", JStr campaignId); ("displayName", JStr displayName)].

Definition campaign_with_goal (displayName : string) : json :=
  JObj [("campaignId", JStr "1"); ("displayName", JStr displayName);
        ("campaignGoal",
         JObj [("campaignGoalType", JStr "CAMPAIGN_GOAL_TYPE_BRAND_AWARENESS")])].

End Scenario.

(** ** Vocabulary of the statements *)

(** The placeholder of a parameter name in a uri template. *)
Definition placeholder (name : string) : string := "${" +:+ name +:+ "}".

(** Two values have the same content when they serialise alike. *)
Definition same_content (h : heap) (a b : value) : Prop :=
  JSON_stringify h a = JSON_stringify h b.

Definition content_in (h : heap) (o : value) (l : list value) : Prop :=
  exists m, m ∈ l /\ same_content h m o.

Definition has_type (h : heap) (type : value) (o : value) : Prop :=
  get_prop h o "targetingType" = Some type.

#[global] Instance has_type_dec (h : heap) (type o : value) :
  Decision (has_type h type o).
Proof. unfold has_type. apply _. Defined.

(** From [w] to [w'] the heap has only grown, and the events added to the
    trace all satisfy [allowed]. *)
Definition grows (allowed : event -> Prop) (w w' : world) : Prop :=
  (exists ext, store w' = store w ++ ext)
  /\ exists evs, trace w' = trace w ++ evs /\ Forall allowed evs.

(** Every run of [m] only allocates and only adds [allowed] events. *)
Definition only {A} (allowed : event -> Prop) (m : M A) : Prop :=
  forall w o w', m w = (o, w') -> grows allowed w w'.

(** Every run of [m] adds [allowed] events only (the heap may change). *)
Definition traces {A} (allowed : event -> Prop) (m : M A) : Prop :=
  forall w o w', m w = (o, w') ->
    exists evs, trace w' = trace w ++ evs /\ Forall allowed evs.

Definition silent (ev : event) : Prop := False.

Definition anything (ev : event) : Prop := True.

Definition is_fetch (ev : event) : Prop :=
  match ev with
  | Fetch _ => True
  | _ => False
  end.

Definition fetches (method : http_method) (ev : event) : Prop :=
  match ev with
  | Fetch r => req_method r = method
  | _ => False
  end.

Definition reads_or_patches (ev : event) : Prop := fetches GET ev \/ fetches PATCH ev.

Definition posts (body : option json) (ev : event) : Prop :=
  exists url, ev = Fetch {| req_method := POST; req_url := url; req_payload := body |}.

Definition removes_row (ev : event) : Prop :=
  match ev with
  | DeleteRow _ _ => True
  | _ => False
  end.

(** The first statement of [DV360Resource.delete]. *)
Definition archive (entity : value) : M unit :=
  modify_props (set_prop "entityStatus" (VStr "ENTITY_STATUS_ARCHIVED")) entity.

(** The payload of a bulk edit that creates and deletes nothing. *)
Definition emptyBulkEdit : json :=
  JObj [("deleteRequests", JArr []); ("createRequests", JArr [])].

(** The rows that are left when the rows numbered [rowNumbers] are taken
    out of a sheet; [current] is the number of the first row of [rows]. *)
Fixpoint keepRows {A} (current : Z) (rowNumbers : list Z) (rows : list A) : list A :=
  match rows with
  | [] => []
  | x :: rest =>
      if bool_decide (current ∈ rowNumbers)
      then keepRows (current + 1) rowNumbers rest
      else x :: keepRows (current + 1) rowNumbers rest
  end.

(** The calls [sheet.deleteRow(n)] applied one after the other. *)
Definition applyDeletes {A} (calls : list Z) (rows : list A) : list A :=
  fold_left (fun rows n => SheetUtil.deleteRow n rows) calls rows.

(** The rows that a sequence of [sheet.deleteRow] calls takes out, in the
    order in which they go. *)
Fixpoint removedRows {A} (calls : list Z) (rows : list A) : list A :=
  match calls with
  | [] => []
  | n :: rest =>
      match (if 1 <=? n then rows !! Z.to_nat (n - 1) else None) with
      | Some x => x :: removedRows rest (SheetUtil.deleteRow n rows)
      | None => removedRows rest (SheetUtil.deleteRow n rows)
      end
  end.

(** The row numbers passed to [sheet.deleteRow], in order. *)
Definition row_removals (tr : list event) : list Z :=
  omap (fun ev => match ev with
                  | DeleteRow _ n => Some n
                  | _ => None
                  end) tr.

Definition sheetName (sheet : DV360Sheet.t) : string :=
  SheetUtil.name (DV360Sheet.sheetConfig_ sheet).

(** The number of the sheet row an entry was read from. *)
Definition rowNumber (sheet : DV360Sheet.t) (data : DV360Sheet.RowData) : Z :=
  DV360Sheet.sheetIndex data + SheetUtil.rangeStartRow (DV360Sheet.sheetConfig_ sheet).

(** The numbers of the rows whose call of [delete] returned, in the order
    of the rows.  Each call runs in the world the row before left. *)
Fixpoint deletedRowNumbers `{Host} (sheet : DV360Sheet.t)
    (objectData : list DV360Sheet.RowData) (w : world) : list Z :=
  match objectData with
  | [] => []
  | data :: rest =>
      let w1 := (DV360Sheet.deleteEntry sheet [] data w).2 in
      match (DV360Resource.delete
               (SheetUtil.dv360resource (DV360Sheet.sheetConfig_ sheet))
               (DV360Sheet.payload data) w).1 with
      | Returned _ => rowNumber sheet data :: deletedRowNumbers sheet rest w1
      | Thrown _ => deletedRowNumbers sheet rest w1
      | Aborted => []
      end
  end.

(** ** JSON texts in the heap, paged responses, names *)

(** Member names are unique in every object of a JSON text. *)
Fixpoint unique_names (j : json) : bool :=
  match j with
  | JArr items => forallb unique_names items
  | JObj members =>
      bool_decide (NoDup (keys members))
      && forallb (fun kv : string * json => unique_names kv.2) members
  | _ => true
  end.

(** A decimal digit. *)
Definition is_digit (c : ascii) : bool :=
  ((48 <=? nat_of_ascii c) && (nat_of_ascii c <=? 57))%nat.

(** A property name that an assignment adds behind the names an object
    already has: it is no array index (objects list those first, in
    ascending order) and it is not [__proto__] (which sets the prototype
    instead).  A name that does not start with a digit is no array index. *)
Definition ordinary_name (name : string) : bool :=
  negb (String.eqb name "__proto__")
  && match name with
     | String c _ => negb (is_digit c)
     | EmptyString => true
     end.

(** All member names of a JSON text are ordinary. *)
Fixpoint ordinary_names (j : json) : bool :=
  match j with
  | JArr items => forallb ordinary_names items
  | JObj members =>
      forallb (fun kv : string * json => ordinary_name kv.1 && ordinary_names kv.2)
              members
  | _ => true
  end.

(** The nesting of arrays and objects in a JSON text. *)
Fixpoint depth (j : json) : nat :=
  match j with
  | JArr items => S (fold_right (fun x m => Nat.max (depth x) m) 0%nat items)
  | JObj members =>
      S (fold_right (fun (kv : string * json) m => Nat.max (depth kv.2) m) 0%nat members)
  | _ => 0%nat
  end.

(** [v] serialises to [j] in [h] and in every heap that extends [h]. *)
Definition serialises (h : heap) (v : value) (j : json) : Prop :=
  forall ext fuel, (depth j <= fuel)%nat -> toJSON fuel (h ++ ext) v = Some j.

(** [Object.assign] on the members of a JSON object. *)
Definition assign_members (target source : list (string * json))
  : list (string * json) :=
  fold_left (fun acc (entry : string * json) => set_prop entry.1 entry.2 acc)
            source target.

(** The properties [props] serialise to the members [members], name by
    name and in order; no property is [undefined]. *)
Definition serialise_props (h : heap) (props : list (string * value))
    (members : list (string * json)) : Prop :=
  Forall2 (fun (pv : string * value) (kv : string * json) =>
             pv.1 = kv.1 /\ pv.2 <> VUndefined /\ serialises h pv.2 kv.2)
          props members.

(** The value [v] is the text [j] laid out in the heap [h]: an object for
    an object, with the same members in the same order, and so on down. *)
Fixpoint mirrors (h : heap) (j : json) (v : value) {struct j} : Prop :=
  match j with
  | JNull => v = VNull
  | JBool b => v = VBool b
  | JNum n => v = VNum n
  | JStr s => v = VStr s
  | JArr items =>
      exists l vs,
        v = VRef l /\ h !! l = Some (Arr vs)
        /\ (fix all (items : list json) (vs : list value) {struct items} : Prop :=
              match items, vs with
              | [], [] => True
              | x :: items', v :: vs' => mirrors h x v /\ all items' vs'
              | _, _ => False
              end) items vs
  | JObj members =>
      exists l c props,
        v = VRef l /\ h !! l = Some (Obj c props)
        /\ (fix all (members : list (string * json)) (props : list (string * value))
                {struct members} : Prop :=
              match members, props with
              | [], [] => True
              | (k, x) :: members', (k', v) :: props' =>
                  k = k' /\ mirrors h x v /\ all members' props'
              | _, _ => False
              end) members props
  end.

(** What [JSON.parse] builds mirrors the text it was built from, and it
    takes at least as many objects as the text is deep. *)
Definition parses_back (j : json) : Prop :=
  forall h, let r := alloc_json j h in
    mirrors r.2 j r.1 /\ (length h + depth j <= length r.2)%nat.

(** The members of the entity [new C(obj)] as [JSON.stringify] prints
    them, [obj] having the members [members]: [fieldList_] first. *)
Definition entity_members (c : jsclass) (members : list (string * json))
  : list (string * json) :=
  assign_members [("fieldList_", JArr (map JStr (DV360Entity.fieldList c)))] members.

(** A page that names no next page. *)
Definition last_page (members : list (string * json)) : Prop :=
  assoc_get "nextPageToken" members = None
  \/ assoc_get "nextPageToken" members = Some JNull.

Definition get_request (url : string) : request :=
  {| req_method := GET; req_url := url; req_payload := None |}.

(** The entities listed on a page of a list response: none on an empty
    object, else the objects of the array under [apiFieldName]. *)
Definition page_items (apiFieldName : string) (members : list (string * json))
  : option (list (list (string * json))) :=
  match members with
  | [] => Some []
  | _ =>
      match assoc_get apiFieldName members with
      | Some (JArr items) =>
          mapM (fun item => match item with
                            | JObj fields => Some fields
                            | _ => None
                            end) items
      | _ => None
      end
  end.

(** The server answers the list request that starts at [url], after the
    events [tr], with the pages [pages]: every page but the last names the
    next one by a [nextPageToken]. *)
Inductive serves `{Host} (apiFieldName : string)
  : list event -> string -> list (list (list (string * json))) -> Prop :=
| serves_last tr url members items :
    UrlFetchApp_fetch tr (get_request url) = Scenario.ok (JObj members) ->
    unique_names (JObj members) = true ->
    last_page members ->
    page_items apiFieldName members = Some items ->
    serves apiFieldName tr url [items]
| serves_more tr url members items token rest :
    UrlFetchApp_fetch tr (get_request url) = Scenario.ok (JObj members) ->
    unique_names (JObj members) = true ->
    assoc_get "nextPageToken" members = Some (JStr token) ->
    page_items apiFieldName members = Some items ->
    serves apiFieldName (tr ++ [Fetch (get_request url)])
      (modifyUrlQueryString url "pageToken" token) rest ->
    serves apiFieldName tr url (items :: rest).

(** The values [vs] are objects that mirror the texts [fields], and the
    heap is at least as large as the texts are deep. *)
Definition held (h : heap) (vs : list value) (fields : list (list (string * json)))
  : Prop :=
  Forall2 (fun v ms => mirrors h (JObj ms) v /\ (depth (JObj ms) <= length h)%nat)
          vs fields.

(** The callback [list] passes to [executeApiGetRequest]. *)
Definition collect (r : DV360Resource.t) (resultList : list value) (result : value)
  : M (list value) :=
  h <- get_heap ;;
  ks <- lift (DV360Resource.Object_keys h result) ;;
  if (length ks =? 0)%nat then ret resultList
  else
    rowsData <- lift (get_prop h result (DV360Resource.apiFieldName_ r)) ;;
    items <- lift (DV360Resource.spread h rowsData) ;;
    ret (resultList ++ items).

(** The text [c] does not occur in [s]. *)
Definition lacks (c : string) (s : string) : Prop := String.index 0 c s = None.

(** The members every object inherits from [Object.prototype]. *)
Definition inherited_names : list string :=
  ["constructor"; "__proto__"; "hasOwnProperty"; "isPrototypeOf";
   "propertyIsEnumerable"; "toLocaleString"; "toString"; "valueOf";
   "__defineGetter__"; "__defineSetter__"; "__lookupGetter__"; "__lookupSetter__"].

(** A field path that names no inherited member (property reads see own
    properties only in this model). *)
Definition own_path (fieldName : string) : Prop :=
  Forall (fun name => lacks name fieldName) inherited_names.

(** The part of a field path before its first dot; the whole path when it
    has none. *)
Definition first_segment (fieldName : string) : string :=
  match String.index 0 "." fieldName with
  | Some firstDotIndex => String.substring 0 firstDotIndex fieldName
  | None => fieldName
  end.

(** Numbers other than 0, [true] and strings that are not empty. *)
Definition truthy_primitive (v : value) : Prop :=
  LineItemTargetingOptions.falsy v = false /\ forall l, v <> VRef l.






(** *** The payload of a bulk edit *)







(** *** Uri templates *)

(** A template is a sequence of literal texts and placeholders. *)
Inductive piece :=
| Text (s : string)
| Hole (name : string).

Definition render_piece (p : piece) : string :=
  match p with
  | Text s => s
  | Hole name => placeholder name
  end.

Definition render (pieces : list piece) : string :=
  fold_right (fun p s => render_piece p +:+ s) "" pieces.

(** The literal texts have no [$], the names of the placeholders neither
    [$] nor a closing brace: every [$] of the template starts a
    placeholder, and every placeholder ends at its first closing brace. *)
Definition well_formed (pieces : list piece) : Prop :=
  Forall (fun p => match p with
                   | Text s => lacks "$" s
                   | Hole name => lacks "$" name /\ lacks "}" name
                   end) pieces.

(** The first placeholder of [name] gives way to the text [v]. *)
Fixpoint fill_first (name v : string) (pieces : list piece) : list piece :=
  match pieces with
  | [] => []
  | Text s :: rest => Text s :: fill_first name v rest
  | Hole n :: rest =>
      if String.eqb n name then Text v :: rest
      else Hole n :: fill_first name v rest
  end.

(** The entries of a parameter map taken one after the other, each
    filling the first placeholder of its name. *)
Definition fill (h : heap) (entries : list (string * value)) (pieces : list piece)
  : list piece :=
  fold_left (fun ps (entry : string * value) =>
               fill_first entry.1 (ToString h entry.2) ps)
            entries pieces.

(** The template read from left to right: a placeholder whose name is in
    the map gives way to the value of the name, which uses the name up;
    every other placeholder (a name that is not in the map, or a further
    occurrence of a name) stays as it is. *)
Fixpoint resolve (h : heap) (entries : list (string * value)) (pieces : list piece)
  : list piece :=
  match pieces with
  | [] => []
  | Text s :: rest => Text s :: resolve h entries rest
  | Hole n :: rest =>
      match assoc_get n entries with
      | Some v => Text (ToString h v) :: resolve h (delete_prop n entries) rest
      | None => Hole n :: resolve h entries rest
      end
  end.

(** ** Example data *)

(** A campaign as a plain object, and a server that answers every request
    with the same campaign. *)
Definition one_campaign : world :=
  {| store := [Obj CObject [("campaignId", VStr "1"); ("displayName", VStr "a")]];
     trace := [] |}.

Definition steady_host : Host :=
  Scenario.host (fun _ _ => Scenario.ok (Scenario.campaign "1" "a")).

(** Three assigned targeting options of different content. *)
Definition three_options : list object :=
  [Obj CAssignedTargetingOption
     [("assignedTargetingOptionId", VStr "10");
      ("targetingType", VStr "TARGETING_TYPE_CHANNEL")];
   Obj CAssignedTargetingOption
     [("assignedTargetingOptionId", VStr "20");
      ("targetingType", VStr "TARGETING_TYPE_BROWSER")];
   Obj CAssignedTargetingOption
     [("assignedTargetingOptionId", VStr "30");
      ("targetingType", VStr "TARGETING_TYPE_GEO_REGION")]].

(** A line item without targeting options, on a server that answers every
    request with an empty object. *)
Definition one_lineItem : world :=
  {| store := [Arr (map VStr (DV360Entity.fieldList CLineItem));
               Obj CLineItem [("fieldList_", VRef 0%nat); ("advertiserId", VStr "1");
                              ("lineItemId", VStr "2")]];
     trace := [] |}.

Definition idle_host : Host := Scenario.host (fun _ _ => Scenario.ok (JObj [])).

(** The campaigns sheet with two rows marked for deletion, rows 5 and 7. *)
Definition campaigns_sheet : DV360Sheet.t :=
  {| DV360Sheet.sheetConfig_ :=
       {| SheetUtil.name := "Campaigns";
          SheetUtil.dv360resource := DV360Resource.Campaigns;
          SheetUtil.headerRow := 4 |};
     DV360Sheet.headerFields_ :=
       ["action"; "_logs"; "campaignId"; "displayName"; "_rawData"] |}.

Definition two_campaigns : world :=
  {| store :=
       [Arr (map VStr (DV360Entity.fieldList CCampaign));
        Obj CCampaign [("fieldList_", VRef 0%nat); ("campaignId", VStr "1");
                       ("displayName", VStr "a")];
        Arr (map VStr (DV360Entity.fieldList CCampaign));
        Obj CCampaign [("fieldList_", VRef 2%nat); ("campaignId", VStr "3");
                       ("displayName", VStr "c")]];
     trace := [] |}.

Definition marked_rows : list DV360Sheet.RowData :=
  [{| DV360Sheet.payload := VRef 1%nat; DV360Sheet.sheetIndex := 0;
      DV360Sheet.action := "DELETE"; DV360Sheet.targetingOptions := [] |};
   {| DV360Sheet.payload := VRef 3%nat; DV360Sheet.sheetIndex := 2;
      DV360Sheet.action := "DELETE"; DV360Sheet.targetingOptions := [] |}].

(** A host whose page tokens are set by [Util.modifyUrlQueryString]
    itself. *)
Definition script_host (server : list event -> request -> response) : Host :=
  {| UrlFetchApp_fetch := server;
     coerce_eq := fun _ _ _ => false;
     modifyUrlQueryString := UrlQuery.modifyUrlQueryString;
     page_limit := 4 |}.

(** A server with two pages of campaigns: the second page is served to
    the requests that carry the token of the first. *)
Definition first_page : list (string * json) :=
  [("campaigns", JArr [Scenario.campaign "1" "a"]); ("nextPageToken", JStr "p2")].

Definition second_page : list (string * json) :=
  [("campaigns", JArr [Scenario.campaign "2" "b"; Scenario.campaign "3" "c"])].

Definition paging_host : Host :=
  script_host (fun _ req =>
                 match String.index 0 "pageToken=p2" (req_url req) with
                 | Some _ => Scenario.ok (JObj second_page)
                 | None => Scenario.ok (JObj first_page)
                 end).

(** A server that answers 201 to every request, and one that answers
    with an empty body. *)
Definition created_host : Host :=
  Scenario.host (fun _ _ => Scenario.failure 201 "Created").

Definition empty_body_host : Host :=
  Scenario.host (fun _ _ => {| getResponseCode := 200; getContentText := EmptyText |}).

(** The campaign of [one_campaign] under another name. *)
Definition renamed_campaign : world :=
  {| store := [Obj CObject [("campaignId", VStr "1"); ("displayName", VStr "b")]];
     trace := [] |}.

(** An advertiser entity. *)
Definition one_advertiser : world :=
  {| store := [Arr (map VStr (DV360Entity.fieldList CAdvertiser));
               Obj CAdvertiser [("fieldList_", VRef 0%nat); ("advertiserId", VStr "7");
                                ("partnerId", VStr "5"); ("displayName", VStr "a")]];
     trace := [] |}.

(** A payload under construction, with and without a budget. *)
Definition empty_payload : world := {| store := [Obj CObject []]; trace := [] |}.

Definition priced_payload : world :=
  {| store := [Obj CObject [("budget", VNum 5)]]; trace := [] |}.

(** Request options and what a caller adds to them. *)
Definition request_options : world :=
  {| store := [Obj CObject [("contentType", VStr "application/json");
                            ("scopes", VRef 2%nat)];
               Obj CObject [("method", VStr "post"); ("scopes", VRef 3%nat)];
               Arr [VStr "display-video"];
               Arr [VStr "spreadsheets"]];
     trace := [] |}.





(** * Proofs *)

(** ** Serialised forms *)

Lemma json_eqb_eq : forall a b : json, json_eqb a b = true <-> a = b.
Proof.
  fix IH 1. intros a b.
  destruct a as [| x | x | x | xs | xs], b as [| y | y | y | ys | ys];
    simpl; try (split; [discriminate | congruence]).
  - tauto.
  - rewrite Bool.eqb_true_iff. split; congruence.
  - rewrite Z.eqb_eq. split; congruence.
  - rewrite String.eqb_eq. split; congruence.
  - revert ys. induction xs as [| x xs IHxs]; intros [| y ys];
      try (split; [discriminate | congruence]); [tauto |].
    rewrite andb_true_iff, IH, IHxs. split.
    + intros [-> E]. congruence.
    + intros E. injection E as -> ->. auto.
  - revert ys. induction xs as [| [k x] xs IHxs]; intros [| [k' y] ys];
      try (split; [discriminate | congruence]); [tauto |].
    rewrite !andb_true_iff, String.eqb_eq, IH, IHxs. split.
    + intros [[-> ->] E]. congruence.
    + intros E. injection E as -> -> ->. auto.
Qed.

Lemma serial_eqb_eq (a b : option json) : serial_eqb a b = true <-> a = b.
Proof.
  destruct a, b; simpl; try (split; [discriminate | congruence]).
  - rewrite json_eqb_eq. split; congruence.
  - tauto.
Qed.

(** ** Patch masks *)
Section PatchMask.
Context `{Host}.

Lemma loose_neq_same_string (h : heap) (s : string) :
  Util.loose_neq h (VStr s) (VStr s) = false.
Proof. unfold Util.loose_neq. simpl. now rewrite String.eqb_refl. Qed.

(** [updateTime] is never among the changed fields, whatever the two
    entities hold. *)
Lemma updateTime_not_changed (h : heap) (this modified : value) (fields : list string) :
  DV360Entity.changedFields h this modified = Some fields ->
  "updateTime" ∉ fields.
Proof.
  unfold DV360Entity.changedFields. intros E.
  destruct (getOwnPropertyNames h modified) as [names |]; [| discriminate].
  destruct (get_prop h this "primaryIdField_") as [pid |]; [| discriminate].
  simpl in E. injection E as <-.
  intros In. apply list_elem_of_filter in In as [_ In].
  apply list_elem_of_filter in In as [Ne _].
  now rewrite loose_neq_same_string in Ne.
Qed.

(** C1. The patch mask of two campaigns that differ in [campaignId]
    lists [campaignId], the primary identifier of campaigns: the filter
    compares each field with [this.primaryIdField_], which is a property
    of resources and is undefined on an entity.  The mask is
    ["fieldList_,campaignId"] with the constructor of
    src/02_dv360_entities.gs and ["campaignId"] with the one of
    src/01_dv360.js. *)
Theorem getPatchMask_lists_primary_id :
  Scenario.mask_of
    (Scenario.two_entities CCampaign
       (Scenario.campaign "1" "a") (Scenario.campaign "2" "a"))
  = Some "fieldList_,campaignId"
  /\ Scenario.mask_of
       (Scenario.two_entities_01 CCampaign
          (Scenario.campaign "1" "a") (Scenario.campaign "2" "a"))
     = Some "campaignId".
Proof. split; reflexivity. Qed.

(** C3. The patch mask of an entity against a value-equal copy built
    from the same JSON text is not empty: [fieldList_] and every
    object-valued field are compared by reference.  The mask is
    ["fieldList_,campaignGoal"] with the constructor of
    src/02_dv360_entities.gs (["fieldList_"] already without nested
    fields) and ["campaignGoal"] with the one of src/01_dv360.js. *)
Theorem getPatchMask_of_equal_copy_not_empty :
  Scenario.mask_of
    (Scenario.two_entities CCampaign
       (Scenario.campaign_with_goal "a") (Scenario.campaign_with_goal "a"))
  = Some "fieldList_,campaignGoal"
  /\ Scenario.mask_of
       (Scenario.two_entities CCampaign
          (Scenario.campaign "1" "a") (Scenario.campaign "1" "a"))
     = Some "fieldList_"
  /\ Scenario.mask_of
       (Scenario.two_entities_01 CCampaign
          (Scenario.campaign_with_goal "a") (Scenario.campaign_with_goal "a"))
     = Some "campaignGoal".
Proof. repeat split; reflexivity. Qed.

End PatchMask.

(** ** Placeholder substitution *)
Section Placeholders.

Lemma substring_prefix (a b : string) :
  String.substring 0 (String.length a) (a +:+ b) = a.
Proof.
  induction a as [| c a IH]; simpl.
  - now destruct b.
  - now rewrite IH.
Qed.

Lemma substring_from_0 (s : string) : Util.substring_from 0 s = s.
Proof.
  unfold Util.substring_from. rewrite Nat.sub_0_r.
  induction s as [| c s IH]; simpl; [reflexivity | now rewrite IH].
Qed.

Lemma substring_from_app (a b : string) (n : nat) :
  Util.substring_from (String.length a + n) (a +:+ b) = Util.substring_from n b.
Proof.
  unfold Util.substring_from. induction a as [| c a IH]; simpl; [reflexivity |].
  exact IH.
Qed.

Lemma length_append (a b : string) :
  String.length (a +:+ b) = (String.length a + String.length b)%nat.
Proof. induction a as [| c a IH]; simpl; [reflexivity | now rewrite IH]. Qed.

Lemma substring_from_skip (a p b : string) :
  Util.substring_from (String.length a + String.length p) (a +:+ p +:+ b) = b.
Proof.
  rewrite substring_from_app.
  replace (String.length p) with (String.length p + 0)%nat by lia.
  rewrite substring_from_app. apply substring_from_0.
Qed.

Lemma index_0_cons (s1 : string) (c : ascii) (s2 : string) :
  String.index 0 s1 (String c s2)
  = if String.prefix s1 (String c s2) then Some 0%nat
    else match String.index 0 s1 s2 with
         | Some n => Some (S n)
         | None => None
         end.
Proof. reflexivity. Qed.

Lemma index_dollar_cons (c : ascii) (s : string) :
  String.index 0 "$" (String c s) = None ->
  Ascii.eqb c "$" = false /\ String.index 0 "$" s = None.
Proof.
  rewrite index_0_cons.
  destruct (String.prefix "$" (String c s)) eqn:P; [intros; discriminate |].
  intros E. split.
  - destruct (Ascii.eqb c "$") eqn:Ec; [| reflexivity].
    apply Ascii.eqb_eq in Ec. subst c.
    apply Bool.not_true_iff_false in P. exfalso. apply P.
    apply String.prefix_correct. simpl. now destruct s.
  - destruct (String.index 0 "$" s); [discriminate | reflexivity].
Qed.

(** A replacement text without [$] is inserted as it is. *)
Lemma GetSubstitution_plain (matched before after replacement : string) :
  String.index 0 "$" replacement = None ->
  ApiUtil.GetSubstitution matched before after replacement = replacement.
Proof.
  induction replacement as [| c r IH]; [reflexivity |].
  intros E. apply index_dollar_cons in E as [Ec Er].
  simpl. rewrite Ec. now rewrite IH.
Qed.

Lemma replace_absent (s pattern replacement : string) :
  String.index 0 pattern s = None -> ApiUtil.replace s pattern replacement = s.
Proof. unfold ApiUtil.replace. now intros ->. Qed.

Lemma replace_first (before pattern after replacement : string) :
  String.index 0 pattern (before +:+ pattern +:+ after) = Some (String.length before) ->
  String.index 0 "$" replacement = None ->
  ApiUtil.replace (before +:+ pattern +:+ after) pattern replacement
  = before +:+ replacement +:+ after.
Proof.
  intros E D. unfold ApiUtil.replace. rewrite E.
  now rewrite substring_prefix, substring_from_skip, GetSubstitution_plain.
Qed.

Lemma fold_replace_absent (h : heap) (entries : list (string * value)) (input : string) :
  (forall name value, (name, value) ∈ entries ->
     String.index 0 (placeholder name) input = None) ->
  fold_left
    (fun output (entry : string * value) =>
       ApiUtil.replace output ("${" +:+ entry.1 +:+ "}") (ToString h entry.2))
    entries input = input.
Proof.
  induction entries as [| [name value] entries IH]; intros A; [reflexivity |].
  simpl. rewrite replace_absent.
  - apply IH. intros n v In. apply (A n v). now right.
  - apply (A name value). now left.
Qed.

End Placeholders.

(** C7, the claim as stated fails: the second occurrence of a placeholder
    whose name is in the map is left in the result. *)
Lemma replaceInputValues_leaves_second_occurrence :
  let h := [Obj CObject [("advertiserId", VStr "123")]] in
  ApiUtil.replaceInputValues h
     "advertisers/${advertiserId}/lineItems?filter=advertiserId=${advertiserId}"
     (VRef 0%nat)
  = "advertisers/123/lineItems?filter=advertiserId=${advertiserId}".
Proof. reflexivity. Qed.

(** ** Field paths *)
Section FieldPaths.

Lemma index_dot_lt (s : string) (i : nat) :
  String.index 0 "." s = Some i -> (i < String.length s)%nat.
Proof.
  revert i. induction s as [| c s IH]; intros i; [discriminate |].
  rewrite index_0_cons. destruct (String.prefix "." (String c s)).
  - intros [= <-]. simpl. lia.
  - destruct (String.index 0 "." s) as [n |]; [| discriminate].
    intros [= <-]. specialize (IH n eq_refl). simpl. lia.
Qed.

Lemma length_substring_from (n : nat) (s : string) :
  String.length (Util.substring_from n s) = (String.length s - n)%nat.
Proof.
  unfold Util.substring_from. revert n.
  induction s as [| c s IH]; intros [| n]; simpl; try reflexivity.
  - f_equal. specialize (IH 0%nat). rewrite Nat.sub_0_r in IH. exact IH.
  - apply IH.
Qed.

(** The recursion of [Util.getValueByDottedFieldName] never runs out of
    fuel: any fuel from the length of the field name on gives the same
    value. *)
Lemma getValueByDottedFieldName_fuel (h : heap) (fuel : nat) :
  forall (ob : value) (fieldName : string),
    (String.length fieldName <= fuel)%nat ->
    Util.getValueByDottedFieldName_rec fuel h ob fieldName
    = Util.getValueByDottedFieldName h ob fieldName.
Proof.
  unfold Util.getValueByDottedFieldName.
  induction fuel as [fuel IH] using lt_wf_ind. intros ob fieldName L.
  destruct fuel as [| fuel]; [now replace (String.length fieldName) with 0%nat by lia |].
  destruct (String.length fieldName) as [| n] eqn:Len.
  - simpl. destruct (Util.is_nullish ob); [reflexivity |].
    destruct (String.index 0 "." fieldName) as [i |] eqn:I; [| reflexivity].
    apply index_dot_lt in I. lia.
  - simpl. destruct (Util.is_nullish ob); [reflexivity |].
    destruct (String.index 0 "." fieldName) as [i |] eqn:I; [| reflexivity].
    pose proof (length_substring_from (i + 1) fieldName) as Ls.
    rewrite (IH fuel) by lia. rewrite (IH n) by lia. reflexivity.
Qed.

(** The two branches of the source, as equations. *)
Lemma getValueByDottedFieldName_plain (h : heap) (ob : value) (fieldName : string) :
  String.index 0 "." fieldName = None ->
  Util.getValueByDottedFieldName h ob fieldName
  = if Util.is_nullish ob then VUndefined else Util.field h ob fieldName.
Proof.
  intros I. unfold Util.getValueByDottedFieldName.
  destruct (String.length fieldName); simpl; now rewrite I.
Qed.

Lemma getValueByDottedFieldName_dotted (h : heap) (ob : value) (fieldName : string)
    (firstDotIndex : nat) :
  String.index 0 "." fieldName = Some firstDotIndex ->
  Util.getValueByDottedFieldName h ob fieldName
  = if Util.is_nullish ob then VUndefined
    else Util.getValueByDottedFieldName h
           (Util.field h ob (String.substring 0 firstDotIndex fieldName))
           (Util.substring_from (firstDotIndex + 1) fieldName).
Proof.
  intros I. rewrite <- (getValueByDottedFieldName_fuel h (S (String.length fieldName)))
    by lia.
  simpl. rewrite I. destruct (Util.is_nullish ob); [reflexivity |].
  apply getValueByDottedFieldName_fuel.
  rewrite length_substring_from. lia.
Qed.

End FieldPaths.

(** ** Reconciliation of assigned targeting options *)
Section Reconcile.
Import LineItemTargetingOptions.
Variable h : heap.

Lemma filter_opt_Some {A} (p : A -> option bool) (l r : list A) :
  Util.filter_opt p l = Some r ->
  Forall (fun x => is_Some (p x)) l /\ r = filter (fun x => p x = Some true) l.
Proof.
  revert r. induction l as [| x l IH]; intros r E; simpl in E.
  - injection E as <-. split; [constructor | reflexivity].
  - destruct (p x) as [b |] eqn:Px; [| discriminate].
    destruct (Util.filter_opt p l) as [r' |]; [| discriminate].
    destruct (IH r' eq_refl) as [F ->]. injection E as <-.
    split; [constructor; [rewrite Px; eauto | exact F] |].
    rewrite filter_cons. destruct b.
    + now rewrite decide_True by exact Px.
    + rewrite decide_False; [reflexivity | congruence].
Qed.

Lemma filter_opt_total {A} (p : A -> option bool) (l : list A) :
  Forall (fun x => is_Some (p x)) l ->
  Util.filter_opt p l = Some (filter (fun x => p x = Some true) l).
Proof.
  induction 1 as [| x l [b Px] F IH]; [reflexivity |].
  simpl. rewrite Px, IH, filter_cons. destruct b.
  - now rewrite decide_True by exact Px.
  - rewrite decide_False; [reflexivity | congruence].
Qed.

Lemma isIn_spec (object : value) (array : list value) (b : bool) :
  Util.isIn h object array = Some b -> (b = true <-> content_in h object array).
Proof.
  unfold Util.isIn.
  destruct (Util.filter_opt _ array) as [filtered |] eqn:E; [| discriminate].
  intros [= <-]. apply filter_opt_Some in E as [F ->].
  rewrite Nat.ltb_lt. split.
  - intros L.
    destruct (filter _ array) as [| m rest] eqn:Fl; [simpl in L; lia |].
    assert (In : m ∈ filter
                  (fun member =>
                     match JSON_stringify h member, JSON_stringify h object with
                     | Some a, Some b => Some (serial_eqb a b)
                     | _, _ => None
                     end = Some true) array) by (rewrite Fl; left).
    apply list_elem_of_filter in In as [Q In]. exists m. split; [exact In |].
    unfold same_content.
    destruct (JSON_stringify h m) as [a |]; [| discriminate].
    destruct (JSON_stringify h object) as [c |]; [| discriminate].
    injection Q as Q. apply serial_eqb_eq in Q. now subst.
  - intros (m & In & S).
    assert (In' : m ∈ filter
                  (fun member =>
                     match JSON_stringify h member, JSON_stringify h object with
                     | Some a, Some b => Some (serial_eqb a b)
                     | _, _ => None
                     end = Some true) array).
    { apply list_elem_of_filter. split; [| exact In].
      rewrite Forall_forall in F. destruct (F m In) as [q Q].
      unfold same_content in S. rewrite <- S in *.
      destruct (JSON_stringify h m) as [a |]; [| discriminate].
      f_equal. now apply serial_eqb_eq. }
    destruct (filter _ array); [now apply not_elem_of_nil in In' | simpl; lia].
Qed.


Lemma elem_of_uniq (x : value) (l : list value) : x ∈ uniq l <-> x ∈ l.
Proof.
  induction l as [| y l IH]; [reflexivity |].
  simpl. rewrite !elem_of_cons, list_elem_of_filter, IH.
  destruct (decide (x = y)); tauto.
Qed.

Lemma NoDup_uniq (l : list value) : NoDup (uniq l).
Proof.
  induction l as [| y l IH]; [constructor |].
  simpl. apply NoDup_cons. split.
  - rewrite list_elem_of_filter. tauto.
  - now apply NoDup_filter.
Qed.

Lemma pluck_elem (name : string) (options values : list value) (o : value) :
  pluck h name options = Some values -> o ∈ options ->
  exists v, get_prop h o name = Some v /\ v ∈ values.
Proof.
  unfold pluck. intros E. apply mapM_Some in E.
  induction E as [| x y l k Hx F IH]; intros In; [now apply not_elem_of_nil in In |].
  apply elem_of_cons in In as [-> | In].
  - exists y. split; [exact Hx | left].
  - destruct (IH In) as (v & ? & ?). exists v. split; [assumption | now right].
Qed.

Lemma pluck_elem_inv (name : string) (options values : list value) (v : value) :
  pluck h name options = Some values -> v ∈ values ->
  exists o, o ∈ options /\ get_prop h o name = Some v.
Proof.
  unfold pluck. intros E. apply mapM_Some in E.
  induction E as [| x y l k Hx F IH]; intros In; [now apply not_elem_of_nil in In |].
  apply elem_of_cons in In as [-> | In].
  - exists x. split; [left | exact Hx].
  - destruct (IH In) as (o & ? & ?). exists o. split; [now right | assumption].
Qed.


Lemma get_prop_field (v : value) (name : string) :
  Util.is_nullish v = false -> get_prop h v name = Some (Util.field h v name).
Proof.
  unfold Util.field. destruct v; simpl; try discriminate; try reflexivity.
  - now destruct (String.eqb name "length").
  - destruct (h !! l) as [[c props | elems] |]; try reflexivity.
    now destruct (String.eqb name "length").
Qed.






End Reconcile.

(** ** Runs of scripts *)
Section Runs.
Context `{Host}.

Lemma grows_refl allowed w : grows allowed w w.
Proof.
  split; [exists []; now rewrite app_nil_r |].
  exists []. split; [now rewrite app_nil_r | constructor].
Qed.

Lemma grows_trans allowed w1 w2 w3 :
  grows allowed w1 w2 -> grows allowed w2 w3 -> grows allowed w1 w3.
Proof.
  intros [[x1 S1] (e1 & T1 & F1)] [[x2 S2] (e2 & T2 & F2)]. split.
  - exists (x1 ++ x2). now rewrite S2, S1, app_assoc.
  - exists (e1 ++ e2). split; [now rewrite T2, T1, app_assoc |].
    now apply Forall_app.
Qed.

Lemma grows_mono (allowed allowed' : event -> Prop) w w' :
  (forall ev, allowed ev -> allowed' ev) ->
  grows allowed w w' -> grows allowed' w w'.
Proof.
  intros I [S (evs & T & F)]. split; [exact S |].
  exists evs. split; [exact T |]. eapply Forall_impl; eauto.
Qed.

Lemma grows_heap allowed w ext :
  grows allowed w {| store := store w ++ ext; trace := trace w |}.
Proof.
  split; [now exists ext |].
  exists []. split; [simpl; now rewrite app_nil_r | constructor].
Qed.

Lemma bind_run {A B} (m : M A) (k : A -> M B) w o w' :
  bind m k w = (o, w') ->
  (exists a w1, m w = (Returned a, w1) /\ k a w1 = (o, w'))
  \/ (exists e, m w = (Thrown e, w') /\ o = Thrown e)
  \/ (m w = (Aborted, w') /\ o = Aborted).
Proof.
  unfold bind. destruct (m w) as [[a | e |] w1].
  - intros E. left. now exists a, w1.
  - intros [= <- <-]. right. left. now exists e.
  - intros [= <- <-]. right. right. now split.
Qed.

Lemma only_mono {A} (allowed allowed' : event -> Prop) (m : M A) :
  (forall ev, allowed ev -> allowed' ev) -> only allowed m -> only allowed' m.
Proof. intros I O w o w' E. eapply grows_mono; eauto. Qed.

Lemma only_ret {A} allowed (a : A) : only allowed (ret a).
Proof. intros w o w' [= <- <-]. apply grows_refl. Qed.

Lemma only_throw {A} allowed e : only allowed (@throw A e).
Proof. intros w o w' [= <- <-]. apply grows_refl. Qed.

Lemma only_abort {A} allowed : only allowed (@abort A).
Proof. intros w o w' [= <- <-]. apply grows_refl. Qed.

Lemma only_lift {A} allowed (x : option A) : only allowed (lift x).
Proof. destruct x; [apply only_ret | apply only_throw]. Qed.

Lemma only_get_heap allowed : only allowed get_heap.
Proof. intros w o w' [= <- <-]. apply grows_refl. Qed.

Lemma only_get_trace allowed : only allowed get_trace.
Proof. intros w o w' [= <- <-]. apply grows_refl. Qed.

Lemma only_alloc allowed ob : only allowed (alloc ob).
Proof. intros w o w' [= <- <-]. apply grows_heap. Qed.

Lemma only_emit (allowed : event -> Prop) ev : allowed ev -> only allowed (emit ev).
Proof.
  intros A w o w' [= <- <-]. split; [exists []; simpl; now rewrite app_nil_r |].
  exists [ev]. split; [reflexivity | now repeat constructor].
Qed.

Lemma only_bind {A B} allowed (m : M A) (k : A -> M B) :
  only allowed m -> (forall a, only allowed (k a)) -> only allowed (bind m k).
Proof.
  intros Om Ok w o w' E.
  apply bind_run in E as [(a & w1 & E1 & E2) | [(e & E1 & ->) | [E1 ->]]].
  - eapply grows_trans; [eapply Om | eapply Ok]; eauto.
  - eapply Om; eauto.
  - eapply Om; eauto.
Qed.

Lemma only_try_catch {A} allowed (m : M A) (handler : js_error -> M A) :
  only allowed m -> (forall e, only allowed (handler e)) ->
  only allowed (try_catch m handler).
Proof.
  intros Om Oh w o w'. unfold try_catch.
  destruct (m w) as [[a | e |] w1] eqn:E.
  - intros [= <- <-]. eapply Om; eauto.
  - intros E2. eapply grows_trans; [eapply Om | eapply Oh]; eauto.
  - intros [= <- <-]. eapply Om; eauto.
Qed.

Lemma only_forEach {A} allowed (f : A -> M unit) (l : list A) :
  (forall x, only allowed (f x)) -> only allowed (forEach f l).
Proof.
  intros Of. induction l as [| x l IH]; simpl; [apply only_ret |].
  apply only_bind; [apply Of | intros _; exact IH].
Qed.

Lemma only_mapFx {A B} allowed (f : A -> M B) (l : list A) :
  (forall x, only allowed (f x)) -> only allowed (mapFx f l).
Proof.
  intros Of. induction l as [| x l IH]; simpl; [apply only_ret |].
  apply only_bind; [apply Of | intros y].
  apply only_bind; [exact IH | intros ys; apply only_ret].
Qed.

(** [JSON.parse] only allocates. *)
Lemma json_ind' (P : json -> Prop) :
  P JNull -> (forall b, P (JBool b)) -> (forall n, P (JNum n)) ->
  (forall s, P (JStr s)) ->
  (forall items, Forall P items -> P (JArr items)) ->
  (forall members, Forall (fun kv : string * json => P kv.2) members ->
                   P (JObj members)) ->
  forall j, P j.
Proof.
  intros HN HB HZ HS HA HO. fix IH 1.
  intros [| b | n | s | items | members].
  - exact HN.
  - apply HB.
  - apply HZ.
  - apply HS.
  - apply HA. induction items as [| x items IHi]; constructor.
    + apply IH.
    + exact IHi.
  - apply HO. induction members as [| [k x] members IHm]; constructor.
    + apply IH.
    + exact IHm.
Qed.

Lemma alloc_items_extends {A} (f : A -> heap -> value * heap) (items : list A) :
  Forall (fun x => forall h, exists ext, (f x h).2 = h ++ ext) items ->
  forall h, exists ext, (alloc_items f items h).2 = h ++ ext.
Proof.
  induction 1 as [| x items Hx F IH]; intros h; simpl.
  - exists []. now rewrite app_nil_r.
  - destruct (Hx h) as [e1 E1]. destruct (f x h) as [v h1]. simpl in E1. subst h1.
    destruct (IH (h ++ e1)) as [e2 E2].
    destruct (alloc_items f items (h ++ e1)) as [vs h2]. simpl in *. subst h2.
    exists (e1 ++ e2). now rewrite app_assoc.
Qed.

Lemma alloc_members_extends {A} (f : A -> heap -> value * heap)
    (members : list (string * A)) :
  Forall (fun kv : string * A => forall h, exists ext, (f kv.2 h).2 = h ++ ext)
         members ->
  forall acc h, exists ext, (alloc_members f members acc h).2 = h ++ ext.
Proof.
  induction 1 as [| [k x] members Hx F IH]; intros acc h; simpl.
  - exists []. now rewrite app_nil_r.
  - destruct (Hx h) as [e1 E1]. simpl in E1.
    destruct (f x h) as [v h1]. simpl in E1. subst h1.
    destruct (IH (set_prop k v acc) (h ++ e1)) as [e2 E2].
    exists (e1 ++ e2). now rewrite E2, app_assoc.
Qed.

Lemma alloc_json_extends (j : json) :
  forall h, exists ext, (alloc_json j h).2 = h ++ ext.
Proof.
  induction j as [| b | n | s | items IH | members IH] using json_ind';
    intros h; simpl; try (exists []; now rewrite app_nil_r).
  - destruct (alloc_items_extends alloc_json items IH h) as [ext E].
    destruct (alloc_items alloc_json items h) as [vs h']. simpl in *. subst h'.
    exists (ext ++ [Arr vs]). now rewrite app_assoc.
  - destruct (alloc_members_extends alloc_json members IH [] h) as [ext E].
    destruct (alloc_members alloc_json members [] h) as [props h']. simpl in *.
    subst h'. exists (ext ++ [Obj CObject props]). now rewrite app_assoc.
Qed.

Lemma only_JSON_parse allowed (j : json) : only allowed (JSON_parse j).
Proof.
  intros w o w'. unfold JSON_parse.
  destruct (alloc_json_extends j (store w)) as [ext E].
  destruct (alloc_json j (store w)) as [v h']. simpl in E. subst h'.
  intros [= <- <-]. apply grows_heap.
Qed.

End Runs.

Ltac only_auto :=
  repeat first
    [ apply only_ret | apply only_throw | apply only_abort | apply only_lift
    | apply only_get_heap | apply only_get_trace | apply only_alloc
    | apply only_JSON_parse
    | apply only_bind; [| intros ?]
    | match goal with
      | |- only _ (if ?c then _ else _) => destruct c
      | |- only _ (match ?x with _ => _ end) => destruct x
      end
    | assumption ].

(** ** Requests of the resource operations *)
Section Requests.
Context `{Host}.

Lemma only_parse_result allowed content : only allowed (ApiUtil.parse_result content).
Proof. unfold ApiUtil.parse_result. only_auto. Qed.

(** A request loop sends requests of its method and payload only, as long
    as its callback sends nothing else. *)
Lemma only_requestLoop {St} (allowed : event -> Prop) pages method payload
    (callback : St -> value -> M St) :
  (forall url, allowed (Fetch {| req_method := method; req_url := url;
                                 req_payload := payload |})) ->
  (forall acc result, only allowed (callback acc result)) ->
  forall url acc,
    only allowed (ApiUtil.requestLoop pages method payload callback url acc).
Proof.
  intros Af Oc. induction pages as [| pages IH]; intros url acc; simpl.
  - apply only_abort.
  - apply only_bind; [apply only_get_trace | intros tr].
    apply only_bind; [apply only_emit, Af | intros _].
    destruct (negb _); [apply only_throw |].
    apply only_bind; [apply only_parse_result | intros result].
    apply only_bind; [apply Oc | intros acc'].
    apply only_bind; [apply only_get_heap | intros h].
    apply only_bind; [apply only_lift | intros token].
    destruct (Util.loose_neq h token VUndefined); [apply IH | apply only_ret].
Qed.

Lemma only_new allowed c obj : only allowed (DV360Entity.new c obj).
Proof. unfold DV360Entity.new. only_auto. Qed.

Lemma only_convertObjectToEntity allowed r result :
  only allowed (DV360Resource.convertObjectToEntity r result).
Proof.
  unfold DV360Resource.convertObjectToEntity.
  destruct (DV360Resource.entityClass r); [apply only_new | apply only_throw].
Qed.

Lemma only_buildSingleEntityUri_ allowed r params :
  only allowed (DV360Resource.buildSingleEntityUri_ r params).
Proof. unfold DV360Resource.buildSingleEntityUri_. only_auto. Qed.

Lemma only_buildPatchUri_ allowed r entity modified :
  only allowed (DV360Resource.buildPatchUri_ r entity modified).
Proof.
  unfold DV360Resource.buildPatchUri_.
  apply only_bind; [apply only_get_heap | intros h].
  apply only_bind; [apply only_lift | intros mask].
  apply only_bind; [apply only_buildSingleEntityUri_ | intros uri].
  apply only_ret.
Qed.

Lemma only_get r parameters : only (fetches GET) (DV360Resource.get r parameters).
Proof.
  unfold DV360Resource.get.
  apply only_bind; [apply only_buildSingleEntityUri_ | intros uri].
  apply only_requestLoop; [reflexivity |].
  intros _ result. apply only_convertObjectToEntity.
Qed.

Lemma only_update r entity : only reads_or_patches (DV360Resource.update r entity).
Proof.
  unfold DV360Resource.update.
  apply only_bind;
    [eapply only_mono; [| apply only_get]; intros ev; now left | intros original].
  apply only_bind; [apply only_get_heap | intros h].
  apply only_bind; [apply only_lift | intros mask].
  destruct (String.eqb mask ""); [apply only_ret |].
  apply only_bind; [apply only_buildPatchUri_ | intros uri].
  unfold ApiUtil.executeApiPatchRequest.
  apply only_bind; [apply only_get_heap | intros h'].
  apply only_bind; [apply only_lift | intros body].
  apply only_requestLoop; [intros url; now right |].
  intros _ result. apply only_convertObjectToEntity.
Qed.

Lemma only_delete_request r entity :
  only (fetches DELETE)
    (uri <- DV360Resource.buildSingleEntityUri_ r entity ;;
     ApiUtil.executeApiDeleteRequest uri (fun _ _ => ret tt) tt).
Proof.
  apply only_bind; [apply only_buildSingleEntityUri_ | intros uri].
  apply only_requestLoop; [reflexivity |].
  intros _ result. apply only_ret.
Qed.

End Requests.

(** ** Update, create and delete *)
Section Operations.
Context `{Host}.

Lemma grows_events allowed w w' evs :
  grows allowed w w' -> trace w' = trace w ++ evs -> Forall allowed evs.
Proof.
  intros [_ (evs' & T & F)] E. rewrite T in E.
  apply app_inv_head in E. now subst.
Qed.

Lemma grows_same_trace w w' : grows silent w w' -> trace w' = trace w.
Proof.
  intros [_ (evs & T & F)]. destruct evs as [| ev evs].
  - now rewrite app_nil_r in T.
  - inversion F as [| ? ? []].
Qed.

(** A request loop that is allowed at least one page sends its request
    first. *)
Lemma requestLoop_first {St} pages method payload
    (callback : St -> value -> M St) url acc w o w' :
  (forall acc result, only anything (callback acc result)) ->
  ApiUtil.requestLoop (S pages) method payload callback url acc w = (o, w') ->
  exists rest,
    trace w' = trace w ++ Fetch {| req_method := method; req_url := url;
                                   req_payload := payload |} :: rest.
Proof.
  intros Oc E. simpl in E.
  apply bind_run in E as [(tr & w1 & E1 & E) | [(e & E1 & _) | [E1 _]]];
    [| discriminate | discriminate].
  injection E1 as <- <-.
  apply bind_run in E as [(u & w1 & E1 & E) | [(e & E1 & _) | [E1 _]]];
    [| discriminate | discriminate].
  injection E1 as _ <-.
  match type of E with
  | ?m _ = _ => assert (O : only anything m)
  end.
  { destruct (negb _); [apply only_throw |].
    apply only_bind; [apply only_parse_result | intros result].
    apply only_bind; [apply Oc | intros acc'].
    apply only_bind; [apply only_get_heap | intros h].
    apply only_bind; [apply only_lift | intros token].
    destruct (Util.loose_neq h token VUndefined); [| apply only_ret].
    apply only_requestLoop; [easy | exact Oc]. }
  destruct (O _ _ _ E) as [_ (rest & T & _)]. simpl in T.
  exists rest. now rewrite T, <- app_assoc.
Qed.


(** A request that is answered with a code other than 200 makes the loop
    throw the text of the answer; nothing is sent after it. *)
Lemma requestLoop_rejected {St} pages method payload
    (callback : St -> value -> M St) url acc w :
  let req := {| req_method := method; req_url := url; req_payload := payload |} in
  let response := UrlFetchApp_fetch (trace w) req in
  ApiUtil.code_div_100_is_2 (getResponseCode response) = false ->
  ApiUtil.requestLoop (S pages) method payload callback url acc w
  = (Thrown (Error (getContentText response)),
     {| store := store w; trace := trace w ++ [Fetch req] |}).
Proof.
  intros req response C. simpl. unfold bind, get_trace, emit. simpl.
  fold req. fold response. now rewrite C.
Qed.

Lemma fetches_method method evs req :
  Forall (fetches method) evs -> Fetch req ∈ evs -> req_method req = method.
Proof. rewrite Forall_forall. intros F In. exact (F _ In). Qed.

(** C2. When the original fetched for [entity] gives an empty patch mask,
    [update] returns that original and leaves the world as [get] left
    it: only GET requests have been sent.  Conversely, whenever a run of
    [update] sends a PATCH request, the fetched original gave a mask that
    is not empty. *)
Theorem update_patches_only_on_change
    (r : DV360Resource.t) (entity : value) (w : world) :
  (forall original w1,
     DV360Resource.get r entity w = (Returned original, w1) ->
     DV360Entity.getPatchMask (store w1) original entity = Some "" ->
     DV360Resource.update r entity w = (Returned original, w1)
     /\ grows (fetches GET) w w1)
  /\ (forall o w' evs req,
        DV360Resource.update r entity w = (o, w') ->
        trace w' = trace w ++ evs ->
        Fetch req ∈ evs -> req_method req = PATCH ->
        exists original w1 mask,
          DV360Resource.get r entity w = (Returned original, w1)
          /\ DV360Entity.getPatchMask (store w1) original entity = Some mask
          /\ mask <> "").
Proof.
  split.
  - intros original w1 G Mk. split; [| eapply only_get; eauto].
    unfold DV360Resource.update, bind at 1. rewrite G.
    unfold bind, get_heap. rewrite Mk. reflexivity.
  - intros o w' evs req U T In Pm.
    assert (NoPatch : forall w1, grows (fetches GET) w w1 -> w' = w1 -> False).
    { intros w1 G ->. pose proof (grows_events _ _ _ _ G T) as F.
      rewrite (fetches_method _ _ _ F In) in Pm. discriminate. }
    unfold DV360Resource.update in U.
    apply bind_run in U as [(original & w1 & G & U) | [(e & G & _) | [G _]]];
      [| exfalso; eapply NoPatch; [eapply only_get; eauto | reflexivity] ..].
    exists original, w1.
    unfold bind at 1, get_heap in U.
    destruct (DV360Entity.getPatchMask (store w1) original entity) as [mask |].
    + exists mask. repeat split; [exact G |].
      intros ->. unfold bind, lift, ret in U. simpl in U. injection U as _ <-.
      eapply NoPatch; [eapply only_get; eauto | reflexivity].
    + unfold bind, lift, throw in U. injection U as _ <-.
      exfalso. eapply NoPatch; [eapply only_get; eauto | reflexivity].
Qed.

Lemma archive_run (entity : value) w o w' :
  archive entity w = (o, w') -> trace w' = trace w.
Proof.
  unfold archive, modify_props.
  destruct entity; try (intros [= <- <-]; reflexivity).
  destruct (store w !! l) as [[c props | elems] |]; now intros [= <- <-].
Qed.


Lemma assoc_get_set_prop_eq {A} (name : string) (v : A) props :
  assoc_get name (set_prop name v props) = Some v.
Proof.
  induction props as [| [k x] props IH]; simpl.
  - now rewrite String.eqb_refl.
  - destruct (String.eqb k name) eqn:E; simpl; now rewrite E.
Qed.

Lemma assoc_get_set_prop_ne {A} (name other : string) (v : A) props :
  other <> name ->
  assoc_get other (set_prop name v props) = assoc_get other props.
Proof.
  intros N. induction props as [| [k x] props IH]; simpl.
  - apply String.eqb_neq in N. now rewrite String.eqb_sym, N.
  - destruct (String.eqb k name) eqn:E; simpl.
    + apply String.eqb_eq in E. subst k.
      apply String.eqb_neq in N. now rewrite String.eqb_sym, N.
    + now rewrite IH.
Qed.

Lemma only_after_archive r entity :
  only is_fetch
    (_ <- DV360Resource.update r entity ;;
     uri <- DV360Resource.buildSingleEntityUri_ r entity ;;
     ApiUtil.executeApiDeleteRequest uri (fun _ _ => ret tt) tt).
Proof.
  apply only_bind.
  - eapply only_mono; [| apply only_update].
    intros [] [F | F]; simpl in *; tauto.
  - intros a. eapply only_mono; [| apply only_delete_request].
    intros [] F; simpl in *; tauto.
Qed.

(** C10. [delete] writes the archived status into the object its
    argument refers to, and the write stays whatever happens afterwards:
    in the heap any run of [delete] leaves (returning, throwing at the
    update or at the DELETE request, or stopped), that object has
    [entityStatus] equal to ['ENTITY_STATUS_ARCHIVED'], its other
    properties are as they were, and so is every other object that
    existed before the call. *)
Theorem delete_archives_its_argument
    (r : DV360Resource.t) (l : loc) (c : jsclass) (props : list (string * value))
    (w : world) (o : outcome unit) (w' : world) :
  store w !! l = Some (Obj c props) ->
  DV360Resource.delete r (VRef l) w = (o, w') ->
  let props' := set_prop "entityStatus" (VStr "ENTITY_STATUS_ARCHIVED") props in
  store w' !! l = Some (Obj c props')
  /\ assoc_get "entityStatus" props' = Some (VStr "ENTITY_STATUS_ARCHIVED")
  /\ (forall name, name <> "entityStatus" ->
        assoc_get name props' = assoc_get name props)
  /\ (forall l', l' <> l -> (l' < length (store w))%nat ->
        store w' !! l' = store w !! l').
Proof.
  intros L E props'.
  split; [| split; [apply assoc_get_set_prop_eq |
                    split; [intros; now apply assoc_get_set_prop_ne |]]].
  - unfold DV360Resource.delete, bind at 1, modify_props in E. rewrite L in E.
    match type of E with
    | ?m ?w0 = _ => assert (G : grows is_fetch w0 w')
    end.
    { exact (only_after_archive r (VRef l) _ _ _ E). }
    destruct G as [[ext S] _]. simpl in S. rewrite S.
    rewrite lookup_app_l by (rewrite length_insert; eapply lookup_lt_Some; eauto).
    apply list_lookup_insert_eq. eapply lookup_lt_Some; eauto.
  - intros l' N Lt.
    unfold DV360Resource.delete, bind at 1, modify_props in E. rewrite L in E.
    match type of E with
    | ?m ?w0 = _ => assert (G : grows is_fetch w0 w')
    end.
    { exact (only_after_archive r (VRef l) _ _ _ E). }
    destruct G as [[ext S] _]. simpl in S. rewrite S.
    rewrite lookup_app_l by now rewrite length_insert.
    now apply list_lookup_insert_ne.
Qed.

End Operations.

(** ** Examples of the theorems above on concrete runs *)

Lemma update_patches_only_on_change_witness :
  exists original w1,
    @DV360Resource.get steady_host DV360Resource.Campaigns (VRef 0%nat) one_campaign
    = (Returned original, w1)
    /\ @DV360Resource.update steady_host DV360Resource.Campaigns (VRef 0%nat)
         one_campaign
       = (Returned original, w1)
    /\ Forall (fetches GET) (trace w1).
Proof.
  eexists _, _. split; [vm_compute; reflexivity |].
  destruct (@update_patches_only_on_change steady_host DV360Resource.Campaigns
              (VRef 0%nat) one_campaign) as [P _].
  edestruct P as [U G]; [vm_compute; reflexivity | vm_compute; reflexivity |].
  split; [exact U |].
  exact (grows_events _ _ _ _ G eq_refl).
Defined.


Lemma delete_archives_its_argument_witness :
  store (@DV360Resource.delete steady_host DV360Resource.Campaigns (VRef 0%nat)
           one_campaign).2 !! 0%nat
  = Some (Obj CObject [("campaignId", VStr "1"); ("displayName", VStr "a");
                       ("entityStatus", VStr "ENTITY_STATUS_ARCHIVED")]).
Proof.
  exact (proj1 (@delete_archives_its_argument steady_host DV360Resource.Campaigns
                  0%nat CObject _ one_campaign _ _ eq_refl
                  (surjective_pairing _))).
Defined.

(** ** Creation *)
Section Creation.
Context `{Host}.

Lemma mapM_keys {A B} (g : A -> option B) (l : list (string * A))
    (members : list (string * B)) :
  mapM (fun kv : string * A => pair kv.1 <$> g kv.2) l = Some members ->
  keys members = keys l.
Proof.
  intros E. apply mapM_Some in E.
  induction E as [| [k x] [k' y] l m Hx F IH]; [reflexivity |].
  simpl in *. destruct (g x); [| discriminate]. injection Hx as <- _.
  now rewrite IH.
Qed.

Lemma delete_prop_keys {A} (name : string) (props : list (string * A)) :
  name ∉ keys (delete_prop name props).
Proof.
  induction props as [| [k x] props IH]; simpl; [apply not_elem_of_nil |].
  destruct (String.eqb k name) eqn:E; [exact IH |].
  simpl. apply not_elem_of_cons. split; [| exact IH].
  apply String.eqb_neq in E. congruence.
Qed.

(** For a resource that knows its primary identifier field, every request
    [create] sends is a POST whose payload has no member of that name. *)
Lemma create_strips_primary_id (r : DV360Resource.t) (f : string) (entity : value)
    (w : world) (o : outcome value) (w' : world) (evs : list event) (req : request) :
  DV360Resource.primaryIdField_ r = Some f ->
  DV360Resource.create r entity w = (o, w') ->
  trace w' = trace w ++ evs ->
  Fetch req ∈ evs ->
  req_method req = POST
  /\ exists members, req_payload req = Some (JObj members) /\ f ∉ keys members.
Proof.
  intros Pf E T In.
  unfold DV360Resource.create in E. rewrite Pf in E. simpl in E.
  unfold bind at 1, get_heap in E. unfold bind at 1, alloc in E.
  unfold bind at 1, modify_props in E. simpl in E.
  rewrite list_lookup_middle in E by reflexivity.
  unfold bind at 1, get_heap in E. simpl in E.
  unfold ApiUtil.executeApiPostRequest in E.
  unfold bind at 1, get_heap in E. simpl in E.
  set (props := delete_prop f (DV360Entity.assign [] (own_entries (store w) entity))) in *.
  set (h' := <[length (store w) := Obj CObject props]> _) in *.
  assert (L : h' !! length (store w) = Some (Obj CObject props)).
  { apply list_lookup_insert_eq. rewrite length_app. simpl. lia. }
  apply bind_run in E as [(body & w1 & B & E) | [(e & B & _) | [B _]]];
    rewrite L in B;
    destruct (mapM _ (filter _ props)) as [members |] eqn:Mm; simpl in B;
    try discriminate.
  - injection B as <- <-.
    assert (G : grows (posts (Some (JObj members)))
                  {| store := h'; trace := trace w |} w').
    { eapply only_requestLoop; [| | exact E].
      - intros url. now exists url.
      - intros acc result. apply only_convertObjectToEntity. }
    pose proof (grows_events _ _ _ _ G T) as F.
    rewrite Forall_forall in F. destruct (F _ In) as [url [= ->]].
    split; [reflexivity |]. simpl.
    exists members. split; [reflexivity |].
    rewrite (mapM_keys _ _ _ Mm). intros I.
    unfold keys in I. apply list_elem_of_fmap in I as ([k v] & -> & I).
    apply list_elem_of_filter in I as [_ I].
    apply (delete_prop_keys k (DV360Entity.assign [] (own_entries (store w) entity))).
    apply list_elem_of_fmap. now exists (k, v).
  - injection B as _ <-. simpl in T.
    destruct evs; [now apply not_elem_of_nil in In |].
    apply (f_equal length) in T. rewrite length_app in T. simpl in T. lia.
Qed.

End Creation.

(** C6. [Advertisers] is constructed without a primary identifier field,
    so [create] deletes the property named ["undefined"]: the POST payload
    of a new advertiser still carries its [advertiserId]. *)
Theorem create_advertiser_keeps_advertiserId :
  let host := Scenario.host (fun _ _ => Scenario.ok (JObj [("advertiserId", JStr "7")])) in
  let advertiser :=
    [Arr (map VStr (@DV360Entity.fieldList CAdvertiser));
     Obj CAdvertiser [("fieldList_", VRef 0%nat); ("advertiserId", VStr "7");
                      ("partnerId", VStr "5"); ("displayName", VStr "a")]] in
  let run := @DV360Resource.create host DV360Resource.Advertisers (VRef 1%nat)
               {| store := advertiser; trace := [] |} in
  exists created members,
    run.1 = Returned created
    /\ trace run.2
       = [Fetch {| req_method := POST;
                   req_url := "https://displayvideo.googleapis.com/v1/advertisers?partnerId=5";
                   req_payload := Some (JObj members) |}]
    /\ assoc_get "advertiserId" members = Some (JStr "7").
Proof. vm_compute. eexists _, _. repeat split. Qed.

(** The same entity sent through the campaigns resource loses its
    [campaignId]. *)
Lemma create_strips_primary_id_witness :
  let host := Scenario.host (fun _ _ => Scenario.ok (JObj [("campaignId", JStr "7")])) in
  let run := @DV360Resource.create host DV360Resource.Campaigns (VRef 0%nat)
               one_campaign in
  exists members,
    trace run.2
    = [Fetch {| req_method := POST;
                req_url := "https://displayvideo.googleapis.com/v1/advertisers/${advertiserId}/campaigns";
                req_payload := Some (JObj members) |}]
    /\ "campaignId" ∉ keys members.
Proof.
  intros host run.
  assert (T : trace run.2 = trace one_campaign ++ trace run.2) by reflexivity.
  assert (In : Fetch {| req_method := POST;
                        req_url := "https://displayvideo.googleapis.com/v1/advertisers/${advertiserId}/campaigns";
                        req_payload := Some (JObj [("displayName", JStr "a")]) |}
               ∈ trace run.2) by (vm_compute; left).
  destruct (@create_strips_primary_id host DV360Resource.Campaigns "campaignId"
              (VRef 0%nat) one_campaign run.1 run.2 _ _ eq_refl
              (surjective_pairing _) T In) as (_ & members & [= <-] & N).
  exists [("displayName", JStr "a")]. split; [reflexivity | exact N].
Defined.

(** ** Bulk update of targeting options *)
Section BulkUpdate.
Context `{Host}.

Lemma stringify_emptyBulkEdit (h : heap) (p d c : loc) (cls : jsclass) :
  h !! p = Some (Obj cls [("deleteRequests", VRef d); ("createRequests", VRef c)]) ->
  h !! d = Some (Arr []) ->
  h !! c = Some (Arr []) ->
  JSON_stringify h (VRef p) = Some (Some emptyBulkEdit).
Proof.
  intros Lp Ld Lc. unfold JSON_stringify.
  destruct (length h) as [| n] eqn:Len.
  { apply lookup_lt_Some in Lp. lia. }
  cbn [toJSON]. rewrite Lp.
  rewrite !filter_cons, filter_nil.
  rewrite !decide_True by (simpl; discriminate).
  cbn [mapM fst snd toJSON]. now rewrite Ld, Lc.
Qed.

(** C5 (as amended).  [bulkUpdate] has no short cut: once the current
    options are listed, and even when there is nothing to create and
    nothing to delete, it posts a bulk edit request, whose payload then
    holds two empty lists.  (The runtime must allow the script one
    request at least.) *)
Theorem bulkUpdate_posts_even_without_changes
    (lineItem : value) (newOptions oldOptions : list value) (w w1 : world) :
  (0 < page_limit)%nat ->
  LineItemTargetingOptions.listTargetingOptions lineItem w = (Returned oldOptions, w1) ->
  LineItemTargetingOptions.createRequests_ (store w1) newOptions oldOptions = Some [] ->
  LineItemTargetingOptions.deleteRequests (store w1) newOptions oldOptions = Some [] ->
  exists o w' url rest,
    LineItemTargetingOptions.bulkUpdate lineItem newOptions w = (o, w')
    /\ trace w'
       = trace w1 ++ Fetch {| req_method := POST; req_url := url;
                              req_payload := Some emptyBulkEdit |} :: rest.
Proof.
  intros Pl Ls Cr Dl.
  unfold LineItemTargetingOptions.bulkUpdate, bind at 1. rewrite Ls.
  unfold bind at 1, get_heap. rewrite Cr. unfold bind at 1, lift, ret.
  rewrite Dl. unfold bind at 1. simpl mapFx.
  unfold bind at 1, ret. unfold bind at 1, alloc.
  unfold bind at 1. unfold bind at 1.
  unfold bind at 1. unfold bind at 1. unfold bind at 1.
  unfold ApiUtil.executeApiPostRequest. unfold bind at 1. cbn [store trace].
  set (h := ((store w1 ++ [Arr []]) ++ [Arr []]) ++ _).
  assert (Sp : JSON_stringify (h ++ [Arr []]) (VRef (S (S (length (store w1)))))
               = Some (Some emptyBulkEdit)).
  { subst h. rewrite <- !app_assoc. cbn [app].
    rewrite length_app. cbn [length].
    replace (length (store w1) + 1)%nat with (S (length (store w1))) by lia.
    apply (stringify_emptyBulkEdit _ _ (S (length (store w1))) (length (store w1))
             CObject).
    - replace (S (S (length (store w1)))) with (length (store w1) + 2)%nat by lia.
      rewrite lookup_app_r by lia.
      replace (length (store w1) + 2 - length (store w1))%nat with 2%nat by lia.
      reflexivity.
    - replace (S (length (store w1))) with (length (store w1) + 1)%nat by lia.
      rewrite lookup_app_r by lia.
      now replace (length (store w1) + 1 - length (store w1))%nat with 1%nat by lia.
    - rewrite lookup_app_r by lia.
      now replace (length (store w1) - length (store w1))%nat with 0%nat by lia. }
  unfold get_heap. cbn [store].
  replace (length ((store w1 ++ [Arr []]) ++ [Arr []]))
    with (S (S (length (store w1)))) by (rewrite !length_app; simpl; lia).
  unfold bind at 1. rewrite Sp. cbn [lift ret].
  unfold ApiUtil.executeGenericRequest_.
  destruct page_limit as [| pages] eqn:Pg; [lia |].
  match goal with
  | |- exists o w' url rest, ?run = _ /\ _ =>
      destruct run as [o w'] eqn:E
  end.
  apply requestLoop_first in E as [rest T].
  - exists o, w'. eexists _, rest. split; [reflexivity |]. exact T.
  - intros acc response.
    apply only_bind; [apply only_get_heap | intros h0].
    apply only_bind; [apply only_lift | intros created].
    destruct (LineItemTargetingOptions.falsy created);
      [apply only_alloc | apply only_ret].
Qed.

End BulkUpdate.

(** C5, the claim as stated fails: with no current and no desired option
    both request lists are empty, and [bulkUpdate] still posts the bulk
    edit after listing the current options. *)
Lemma bulkUpdate_posts_empty_edit :
  let run := @LineItemTargetingOptions.bulkUpdate idle_host (VRef 1%nat) []
               one_lineItem in
  LineItemTargetingOptions.createRequests_ (store run.2) [] [] = Some []
  /\ LineItemTargetingOptions.deleteRequests (store run.2) [] [] = Some []
  /\ trace run.2
     = [Fetch {| req_method := GET;
                 req_url := "https://displayvideo.googleapis.com/v1/advertisers/1/lineItems/2:bulkListLineItemAssignedTargetingOptions";
                 req_payload := None |};
        Fetch {| req_method := POST;
                 req_url := "https://displayvideo.googleapis.com/v1/advertisers/1/lineItems/2:bulkEditLineItemAssignedTargetingOptions";
                 req_payload := Some emptyBulkEdit |}].
Proof. repeat split; vm_compute; reflexivity. Qed.

Lemma bulkUpdate_posts_even_without_changes_witness :
  exists o w' url rest,
    @LineItemTargetingOptions.bulkUpdate idle_host (VRef 1%nat) [] one_lineItem
    = (o, w')
    /\ trace w'
       = [Fetch {| req_method := GET;
                   req_url := "https://displayvideo.googleapis.com/v1/advertisers/1/lineItems/2:bulkListLineItemAssignedTargetingOptions";
                   req_payload := None |}]
         ++ Fetch {| req_method := POST; req_url := url;
                     req_payload := Some emptyBulkEdit |} :: rest.
Proof.
  eapply (@bulkUpdate_posts_even_without_changes idle_host (VRef 1%nat) [] []
            one_lineItem
            (@LineItemTargetingOptions.listTargetingOptions idle_host (VRef 1%nat)
               one_lineItem).2).
  - simpl. lia.
  - vm_compute. reflexivity.
  - reflexivity.
  - reflexivity.
Defined.

(** ** Removal of sheet rows *)
Section SheetRows.
Context {A : Type}.
Implicit Types rows : list A.

Lemma keepRows_ext (rows : list A) : forall c ns ns',
  (forall m, c <= m -> (m ∈ ns <-> m ∈ ns')) ->
  keepRows c ns rows = keepRows c ns' rows.
Proof.
  induction rows as [| x rows IH]; intros c ns ns' E; simpl; [reflexivity |].
  rewrite (IH (c + 1) ns ns') by (intros m Lm; apply E; lia).
  rewrite (bool_decide_ext (c ∈ ns) (c ∈ ns')) by (apply E; lia).
  reflexivity.
Qed.

Lemma filter_ne_notin (c : Z) (l : list Z) :
  c ∉ l -> filter (fun m => m <> c) l = l.
Proof.
  induction l as [| a l IH]; intros N; [reflexivity |].
  apply not_elem_of_cons in N as [Na Nl].
  rewrite filter_cons, decide_True by congruence. now rewrite IH.
Qed.

Lemma length_filter_ne (c : Z) (l : list Z) :
  NoDup l -> c ∈ l -> S (length (filter (fun m => m <> c) l)) = length l.
Proof.
  induction 1 as [| a l Na Nd IH]; intros In; [now apply not_elem_of_nil in In |].
  rewrite filter_cons. destruct (decide (a <> c)) as [Ne | Eq].
  - apply elem_of_cons in In as [-> | In]; [exfalso; now apply Ne |].
    simpl. now rewrite IH.
  - assert (a = c) as ->.
    { destruct (decide (a = c)) as [E | N]; [exact E | exfalso; now apply Eq]. }
    now rewrite filter_ne_notin.
Qed.

Lemma bounded_length (ns : list Z) (lo hi : Z) :
  NoDup ns -> (forall m, m ∈ ns -> lo <= m < hi) ->
  (length ns <= Z.to_nat (hi - lo))%nat.
Proof.
  intros Nd B. rewrite <- (length_seqZ lo (hi - lo)).
  apply submseteq_length, NoDup_submseteq; [exact Nd |].
  intros m In. apply elem_of_seqZ. specialize (B m In). lia.
Qed.

(** Taking out row [n] once the rows [ns] above it are gone: it has moved
    up by the number of those rows. *)
Lemma delete_kept_row (rows : list A) : forall c ns n,
  NoDup ns -> (forall m, m ∈ ns -> c <= m < n) ->
  c <= n < c + Z.of_nat (length rows) ->
  base.delete (Z.to_nat (n - c) - length ns)%nat (keepRows c ns rows)
  = keepRows c (ns ++ [n]) rows.
Proof.
  induction rows as [| x rows IH]; intros c ns n Nd B R; simpl in *; [lia |].
  destruct (decide (c ∈ ns)) as [In | Ni].
  - pose proof (B c In) as Bc.
    rewrite (bool_decide_eq_true_2 _ In).
    rewrite bool_decide_eq_true_2 by (apply elem_of_app; now left).
    set (ns' := filter (fun m => m <> c) ns).
    rewrite (keepRows_ext rows (c + 1) ns ns').
    2:{ intros m Lm. unfold ns'. rewrite list_elem_of_filter.
        split; [intros; split; [lia | assumption] | tauto]. }
    rewrite (keepRows_ext rows (c + 1) (ns ++ [n]) (ns' ++ [n])).
    2:{ intros m Lm. unfold ns'. rewrite !elem_of_app, list_elem_of_filter.
        split; [intros [? | ?]; [left; split; [lia | assumption] | now right]
               | tauto]. }
    rewrite <- (IH (c + 1) ns' n).
    + f_equal. pose proof (length_filter_ne c ns Nd In) as Ln. fold ns' in Ln. lia.
    + now apply NoDup_filter.
    + intros m Im. unfold ns' in Im. apply list_elem_of_filter in Im as [Ne Im].
      specialize (B m Im). lia.
    + lia.
  - rewrite (bool_decide_eq_false_2 _ Ni).
    destruct (decide (c = n)) as [-> | Ne].
    + assert (ns = []) as ->.
      { destruct ns as [| m ns]; [reflexivity |].
        specialize (B m ltac:(left)). lia. }
      simpl. rewrite bool_decide_eq_true_2 by (left).
      rewrite Z.sub_diag. simpl.
      apply keepRows_ext. intros m Lm. split.
      * intros I. now apply not_elem_of_nil in I.
      * intros I. apply list_elem_of_singleton in I. lia.
    + rewrite bool_decide_eq_false_2.
      2:{ rewrite elem_of_app, list_elem_of_singleton. intros [? | ?]; congruence. }
      assert (Bn : (length ns <= Z.to_nat (n - (c + 1)))%nat).
      { apply bounded_length; [exact Nd |]. intros m Im.
        specialize (B m Im). assert (m <> c) by congruence. lia. }
      replace (Z.to_nat (n - c) - length ns)%nat
        with (S (Z.to_nat (n - (c + 1)) - length ns)) by lia.
      simpl. f_equal. apply IH; [exact Nd | | lia].
      intros m Im. specialize (B m Im). assert (m <> c) by congruence. lia.
Qed.

(** Deleting the rows [rowNumbers], in ascending order and each lowered by
    the number of rows deleted before it, takes out exactly those rows. *)
Lemma reindexed_deletes_remove (rowNumbers : list Z) (rows : list A) :
  StronglySorted Z.lt rowNumbers ->
  (forall n, n ∈ rowNumbers -> 1 <= n <= Z.of_nat (length rows)) ->
  applyDeletes (SheetUtil.reindexedRows rowNumbers) rows
  = keepRows 1 rowNumbers rows.
Proof.
  unfold applyDeletes, SheetUtil.reindexedRows.
  induction rowNumbers as [| n ns IH] using rev_ind; intros Srt B.
  - simpl. symmetry. clear. generalize 1. induction rows as [| x rows IH];
      intros c; simpl; [reflexivity |].
    now rewrite IH.
  - apply StronglySorted_app in Srt as (Lt & Sns & _).
    rewrite imap_app, fold_left_app. simpl.
    rewrite IH; [| exact Sns | intros m Im; apply B, elem_of_app; now left].
    rewrite Nat.add_0_r. unfold SheetUtil.deleteRow.
    assert (Bn := B n ltac:(apply elem_of_app; right; left)).
    assert (Nd : NoDup ns).
    { clear -Sns. induction Sns as [| a l S IH F]; constructor; [| exact IH].
      intros I. rewrite Forall_forall in F. specialize (F a I). lia. }
    assert (Bs : forall m, m ∈ ns -> 1 <= m < n).
    { intros m Im. split; [apply B, elem_of_app; now left |].
      apply (Lt m n Im). left. }
    pose proof (bounded_length ns 1 n Nd Bs) as Ln.
    replace (1 <=? n - Z.of_nat (length ns)) with true by (symmetry; lia).
    rewrite <- (delete_kept_row rows 1 ns n Nd Bs) by lia.
    f_equal. lia.
Qed.

End SheetRows.

(** ** Deletion of entries from a sheet *)
Section DeleteEntries.
Context `{Host}.
Variable sheet : DV360Sheet.t.

Lemma only_traces {A} allowed (m : M A) : only allowed m -> traces allowed m.
Proof. intros O w o w' E. exact (proj2 (O w o w' E)). Qed.

Lemma traces_bind {A B} allowed (m : M A) (k : A -> M B) :
  traces allowed m -> (forall a, traces allowed (k a)) -> traces allowed (bind m k).
Proof.
  intros Tm Tk w o w' E.
  apply bind_run in E as [(a & w1 & E1 & E2) | [(e & E1 & ->) | [E1 ->]]];
    [| eapply Tm; eauto ..].
  destruct (Tm _ _ _ E1) as (e1 & T1 & F1). destruct (Tk _ _ _ _ E2) as (e2 & T2 & F2).
  exists (e1 ++ e2). split; [now rewrite T2, T1, app_assoc | now apply Forall_app].
Qed.

Lemma traces_delete r entity :
  traces (fun ev => ~ removes_row ev) (DV360Resource.delete r entity).
Proof.
  unfold DV360Resource.delete. apply traces_bind.
  - intros w o w' E. exists []. rewrite app_nil_r. split; [| constructor].
    exact (archive_run _ _ _ _ E).
  - intros _. apply only_traces. eapply only_mono; [| apply only_after_archive].
    intros [] F; simpl in *; tauto.
Qed.

Lemma deleteEntry_run rowNumbersToDelete data w :
  DV360Sheet.deleteEntry sheet rowNumbersToDelete data w
  = match DV360Resource.delete
            (SheetUtil.dv360resource (DV360Sheet.sheetConfig_ sheet))
            (DV360Sheet.payload data) w with
    | (Returned _, w1) =>
        (Returned (rowNumbersToDelete ++ [rowNumber sheet data]),
         {| store := store w1;
            trace := trace w1 ++
                     [OutputInRange (sheetName sheet) (rowNumber sheet data)
                        (DV360Sheet.getLogsColumnNumber_ sheet)
                        [[PlainText "DELETED"]]] |})
    | (Thrown e, w1) =>
        (Returned rowNumbersToDelete,
         {| store := store w1;
            trace := trace w1 ++
                     [OutputInRange (sheetName sheet) (rowNumber sheet data)
                        (DV360Sheet.getLogsColumnNumber_ sheet)
                        [[DV360Sheet.message e]]] |})
    | (Aborted, w1) => (Aborted, w1)
    end.
Proof.
  unfold DV360Sheet.deleteEntry, try_catch, bind at 1.
  destruct (DV360Resource.delete _ _ w) as [[[] | e |] w1]; reflexivity.
Qed.

Lemma traces_deleteEntry rowNumbersToDelete data :
  traces (fun ev => ~ removes_row ev)
    (DV360Sheet.deleteEntry sheet rowNumbersToDelete data).
Proof.
  intros w o w'. rewrite deleteEntry_run.
  destruct (DV360Resource.delete _ _ w) as [[[] | e |] w1] eqn:E;
    destruct (traces_delete _ _ _ _ _ E) as (evs & T & F); intros [= <- <-].
  - eexists (evs ++ [_]). simpl. rewrite T, app_assoc. split; [reflexivity |].
    apply Forall_app. split; [exact F |]. repeat constructor. simpl. tauto.
  - eexists (evs ++ [_]). simpl. rewrite T, app_assoc. split; [reflexivity |].
    apply Forall_app. split; [exact F |]. repeat constructor. simpl. tauto.
  - now exists evs.
Qed.

Lemma traces_deleteEach objectData : forall rowNumbersToDelete,
  traces (fun ev => ~ removes_row ev)
    (DV360Sheet.deleteEach sheet rowNumbersToDelete objectData).
Proof.
  induction objectData as [| data rest IH]; intros acc; simpl.
  - intros w o w' [= <- <-]. exists []. now rewrite app_nil_r.
  - apply traces_bind; [apply traces_deleteEntry | intros rows; apply IH].
Qed.

Lemma deleteEach_outcome objectData : forall acc w o w',
  DV360Sheet.deleteEach sheet acc objectData w = (o, w') ->
  (exists rows, o = Returned rows /\ rows = acc ++ deletedRowNumbers sheet objectData w)
  \/ o = Aborted.
Proof.
  induction objectData as [| data rest IH]; intros acc w o w' E; simpl in E.
  - injection E as <- <-. left. exists acc. now rewrite app_nil_r.
  - apply bind_run in E as [(rows & w1 & E1 & E2) | [(e & E1 & ->) | [E1 ->]]].
    + destruct (IH _ _ _ _ E2) as [(rows' & -> & ->) | ->]; [left | now right].
      eexists. split; [reflexivity |]. simpl.
      rewrite deleteEntry_run in E1. rewrite deleteEntry_run.
      destruct (DV360Resource.delete _ _ w) as [[[] | e |] w2]; simpl in *.
      * injection E1 as E1a E1b. subst rows w1. now rewrite <- app_assoc.
      * injection E1 as E1a E1b. now subst rows w1.
      * discriminate.
    + rewrite deleteEntry_run in E1.
      destruct (DV360Resource.delete _ _ w) as [[[] | e' |] w2]; discriminate.
    + now right.
Qed.

Lemma deletedRowNumbers_sublist objectData : forall w,
  sublist (deletedRowNumbers sheet objectData w) (map (rowNumber sheet) objectData).
Proof.
  induction objectData as [| data rest IH]; intros w; simpl; [constructor |].
  destruct (DV360Resource.delete _ _ w).1.
  - apply sublist_skip, IH.
  - apply sublist_cons, IH.
  - apply sublist_nil_l.
Qed.

Lemma deleteSheetRows_run sheetConfig rowNumbers w :
  SheetUtil.deleteSheetRows sheetConfig rowNumbers w
  = (Returned tt,
     {| store := store w;
        trace := trace w ++ map (DeleteRow (SheetUtil.name sheetConfig))
                                (SheetUtil.reindexedRows rowNumbers) |}).
Proof.
  unfold SheetUtil.deleteSheetRows.
  generalize (SheetUtil.reindexedRows rowNumbers). intros calls. revert w.
  induction calls as [| n calls IH]; intros w; simpl.
  - unfold ret. rewrite app_nil_r. now destruct w.
  - unfold bind, emit. rewrite IH. simpl. now rewrite <- app_assoc.
Qed.

End DeleteEntries.

Lemma StronglySorted_sublist {A} (R : A -> A -> Prop) (l k : list A) :
  sublist l k -> StronglySorted R k -> StronglySorted R l.
Proof.
  induction 1 as [| x l k S IH | x l k S IH]; intros Sk.
  - constructor.
  - apply StronglySorted_cons in Sk as [F Sk]. apply StronglySorted_cons.
    split; [| now apply IH].
    rewrite Forall_forall in *. intros y In. apply F.
    eapply elem_of_sublist; eauto.
  - apply StronglySorted_cons in Sk as [_ Sk]. now apply IH.
Qed.

(** C9 (as amended).  In a run of [deleteEntries_] that comes to its end,
    the rows are taken out of the sheet last, after every call of
    [delete] and every write to the log column, and the rows taken out are
    the rows whose call of [delete] returned.  They are taken out in
    ascending order, each row number lowered by the number of rows taken
    out before it; with rows in sheet order this removes exactly the rows
    with those numbers.  Errors of single rows are caught: the run
    returns unless the runtime stops it. *)
Theorem deleteEntries_removes_rows_last `{Host}
    (sheet : DV360Sheet.t) (objectData : list DV360Sheet.RowData)
    (w : world) (o : outcome unit) (w' : world) :
  DV360Sheet.deleteEntries_ sheet objectData w = (o, w') ->
  (o = Returned tt \/ o = Aborted)
  /\ (o = Returned tt ->
      let rowNumbers := deletedRowNumbers sheet objectData w in
      (exists perRow,
         trace w'
         = trace w ++ perRow
           ++ map (DeleteRow (sheetName sheet)) (SheetUtil.reindexedRows rowNumbers)
         /\ Forall (fun ev => ~ removes_row ev) perRow)
      /\ sublist rowNumbers (map (rowNumber sheet) objectData)
      /\ forall B (rows : list B),
           StronglySorted Z.lt (map DV360Sheet.sheetIndex objectData) ->
           (forall data, data ∈ objectData ->
              1 <= rowNumber sheet data <= Z.of_nat (length rows)) ->
           applyDeletes (SheetUtil.reindexedRows rowNumbers) rows
           = keepRows 1 rowNumbers rows).
Proof.
  unfold DV360Sheet.deleteEntries_. intros E.
  apply bind_run in E as [(rows & w1 & E1 & E2) | [(e & E1 & ->) | [E1 ->]]].
  - rewrite deleteSheetRows_run in E2. injection E2 as <- <-.
    split; [now left |]. intros _.
    set (rowNumbers := deletedRowNumbers sheet objectData w).
    destruct (deleteEach_outcome sheet _ _ _ _ _ E1) as [(rows' & [= <-] & R) | D];
      [| discriminate].
    simpl in R. fold rowNumbers in R. subst rows.
    destruct (traces_deleteEach sheet _ _ _ _ _ E1) as (perRow & T & F).
    split; [| split].
    + exists perRow. simpl. rewrite T, <- app_assoc. now split.
    + apply deletedRowNumbers_sublist.
    + intros B rows Srt Rg.
      pose proof (deletedRowNumbers_sublist sheet objectData w) as Sub.
      fold rowNumbers in Sub.
      apply reindexed_deletes_remove.
      * apply (StronglySorted_sublist _ _ _ Sub).
        clear -Srt. induction objectData as [| data rest IH]; [constructor |].
        simpl in *. apply StronglySorted_cons in Srt as [F Srt].
        apply StronglySorted_cons. split; [| now apply IH].
        rewrite Forall_forall in *. intros n In.
        apply list_elem_of_fmap in In as (other & -> & In).
        assert (Lt : DV360Sheet.sheetIndex data < DV360Sheet.sheetIndex other).
        { apply F, list_elem_of_fmap. now exists other. }
        unfold rowNumber. lia.
      * intros n In. apply (elem_of_sublist _ _ _ In) in Sub.
        apply list_elem_of_fmap in Sub as (data & -> & Id). now apply Rg.
  - destruct (deleteEach_outcome sheet _ _ _ _ _ E1) as [(rows' & D & _) | D];
      discriminate.
  - split; [now right | discriminate].
Qed.

(** C9, the claim as stated fails: the rows are not taken out in
    descending order.  With rows 5 and 7 deleted, [deleteRow] is called
    with 5 and then with 6: row 5 goes first, then the row that was row
    7. *)
Lemma deleteEntries_removes_rows_in_ascending_order :
  let run := @DV360Sheet.deleteEntries_ steady_host campaigns_sheet marked_rows
               two_campaigns in
  run.1 = Returned tt
  /\ row_removals (trace run.2) = [5; 6]
  /\ removedRows (row_removals (trace run.2)) (seqZ 1 8) = [5; 7]
  /\ ~ StronglySorted Z.gt (removedRows (row_removals (trace run.2)) (seqZ 1 8)).
Proof.
  intros run.
  assert (R : row_removals (trace run.2) = [5; 6]) by (vm_compute; reflexivity).
  rewrite R. repeat split; try (vm_compute; reflexivity).
  change (removedRows [5; 6] (seqZ 1 8)) with [5; 7].
  intros S. apply StronglySorted_cons in S as [F _].
  apply Forall_cons in F as [G _]. lia.
Qed.

Lemma deleteEntries_removes_rows_last_witness :
  let run := @DV360Sheet.deleteEntries_ steady_host campaigns_sheet marked_rows
               two_campaigns in
  row_removals (trace run.2) = [5; 6]
  /\ applyDeletes [5; 6] (seqZ 1 8) = [1; 2; 3; 4; 6; 8].
Proof.
  intros run.
  assert (E : run = (Returned tt, run.2)) by (vm_compute; reflexivity).
  destruct (@deleteEntries_removes_rows_last steady_host _ _ _ _ _ E) as [_ P].
  destruct (P eq_refl) as (_ & _ & Q).
  split; [vm_compute; reflexivity |].
  specialize (Q Z (seqZ 1 8)).
  change (SheetUtil.reindexedRows
            (@deletedRowNumbers steady_host campaigns_sheet marked_rows
               two_campaigns))
    with [5; 6] in Q.
  rewrite Q; [vm_compute; reflexivity | |].
  - repeat constructor.
  - intros data In. vm_compute.
    repeat (apply elem_of_cons in In as [-> | In]; [split; discriminate |]).
    now apply not_elem_of_nil in In.
Defined.

(** ** Further properties of the operations *)

(** *** What [JSON.parse] builds, and how it prints *)

Section Mirrors.

Lemma mirrors_arr h items v :
  mirrors h (JArr items) v
  <-> exists l vs, v = VRef l /\ h !! l = Some (Arr vs) /\ Forall2 (mirrors h) items vs.
Proof.
  simpl. split; intros (l & vs & E & L & F); exists l, vs; repeat split; try assumption.
  - clear L E. revert vs F. induction items as [| x items IH]; intros [| v' vs] F;
      try contradiction; constructor; [apply F | apply IH, F].
  - clear L E. induction F; [exact I | now split].
Qed.

Lemma mirrors_obj h members v :
  mirrors h (JObj members) v
  <-> exists l c props,
        v = VRef l /\ h !! l = Some (Obj c props)
        /\ Forall2 (fun (kv : string * json) (pv : string * value) =>
                      kv.1 = pv.1 /\ mirrors h kv.2 pv.2) members props.
Proof.
  simpl. split; intros (l & c & props & E & L & F); exists l, c, props;
    repeat split; try assumption.
  - clear L E. revert props F.
    induction members as [| [k x] members IH]; intros [| [k' v'] props] F;
      try contradiction; constructor; [split; apply F | apply IH, F].
  - clear L E. induction F as [| [k x] [k' v'] ? ? [K M] F IH]; [exact I |].
    simpl in K. now repeat split.
Qed.

Lemma mirrors_mono h ext j : forall v, mirrors h j v -> mirrors (h ++ ext) j v.
Proof.
  induction j as [| b | n | s | items IH | members IH] using json_ind';
    intros v; try (simpl; tauto).
  - rewrite !mirrors_arr. intros (l & vs & E & L & F). exists l, vs.
    split; [exact E |]. split; [now apply lookup_app_l_Some |].
    clear L E. induction F as [| x v' items vs M F IHF]; constructor.
    + apply Forall_cons in IH as [Hx _]. now apply Hx.
    + apply IHF. now apply Forall_cons in IH as [_ IH].
  - rewrite !mirrors_obj. intros (l & c & props & E & L & F). exists l, c, props.
    split; [exact E |]. split; [now apply lookup_app_l_Some |].
    clear L E. induction F as [| kv pv ms props [K M] F IHF]; constructor.
    + apply Forall_cons in IH as [Hx _]. split; [exact K | now apply Hx].
    + apply IHF. now apply Forall_cons in IH as [_ IH].
Qed.

Lemma mirrors_defined h j v : mirrors h j v -> v <> VUndefined.
Proof.
  destruct j; simpl; try (intros ->; discriminate).
  - intros (l & vs & -> & _). discriminate.
  - intros (l & c & props & -> & _). discriminate.
Qed.

End Mirrors.

Section Serialising.

Lemma serialises_mono h ext v j : serialises h v j -> serialises (h ++ ext) v j.
Proof. intros S e fuel L. rewrite <- app_assoc. now apply S. Qed.

Lemma set_prop_fresh {A} (k : string) (v : A) (props : list (string * A)) :
  k ∉ keys props -> set_prop k v props = props ++ [(k, v)].
Proof.
  induction props as [| [k' x] props IH]; intros N; simpl; [reflexivity |].
  destruct (String.eqb k' k) eqn:E.
  - apply String.eqb_eq in E. subst. exfalso. apply N. simpl. left.
  - rewrite IH; [reflexivity |]. intros In. apply N. simpl. now right.
Qed.

Lemma serialise_props_mono h ext props members :
  serialise_props h props members -> serialise_props (h ++ ext) props members.
Proof.
  intros F. eapply Forall2_impl; [exact F |]. intros pv kv (K & D & S).
  repeat split; try assumption. now apply serialises_mono.
Qed.

Lemma serialise_props_keys h props members :
  serialise_props h props members -> keys props = keys members.
Proof.
  induction 1 as [| pv kv props members (K & _) F IH]; simpl; [reflexivity |].
  now rewrite K, IH.
Qed.

Lemma serialises_items h vs items ext n :
  Forall2 (serialises h) vs items ->
  (fold_right (fun x m => Nat.max (depth x) m) 0 items <= n)%nat ->
  mapM (toJSON n (h ++ ext)) vs = Some items.
Proof.
  intros F L. apply mapM_Some_2.
  induction F as [| v x vs items Sx F IH]; constructor; simpl in L.
  - apply Sx. lia.
  - apply IH. lia.
Qed.

Lemma serialises_members h props members ext n :
  serialise_props h props members ->
  (fold_right (fun (kv : string * json) m => Nat.max (depth kv.2) m) 0 members <= n)%nat ->
  mapM (fun kv : string * value => pair kv.1 <$> toJSON n (h ++ ext) kv.2)
       (filter (fun kv : string * value => kv.2 <> VUndefined) props)
  = Some members.
Proof.
  intros F L. apply mapM_Some_2.
  induction F as [| [k v] [k' x] props members (K & D & Sx) F IH]; simpl in *.
  - constructor.
  - rewrite filter_cons, decide_True by exact D. constructor.
    + simpl. rewrite Sx by lia. subst k'. reflexivity.
    + apply IH. lia.
Qed.

Lemma serialises_Arr h l vs items :
  h !! l = Some (Arr vs) -> Forall2 (serialises h) vs items ->
  serialises h (VRef l) (JArr items).
Proof.
  intros L F ext fuel D. simpl in D.
  destruct fuel as [| n]; [lia |]. simpl.
  rewrite (lookup_app_l_Some _ _ _ _ L). simpl.
  rewrite (serialises_items h vs items ext n F) by lia. reflexivity.
Qed.

Lemma serialises_Obj h l c props members :
  h !! l = Some (Obj c props) -> serialise_props h props members ->
  serialises h (VRef l) (JObj members).
Proof.
  intros L F ext fuel D. simpl in D.
  destruct fuel as [| n]; [lia |]. simpl.
  rewrite (lookup_app_l_Some _ _ _ _ L). simpl.
  rewrite (serialises_members h props members ext n F) by lia. reflexivity.
Qed.

(** What mirrors a text serialises to it. *)
Lemma mirrors_serialises h j : forall v, mirrors h j v -> serialises h v j.
Proof.
  induction j as [| b | n | s | items IH | members IH] using json_ind'; intros v;
    try (simpl; intros -> ext [| fuel] _; reflexivity).
  - rewrite mirrors_arr. intros (l & vs & -> & L & F).
    apply serialises_Arr with (vs := vs); [exact L |].
    apply Forall2_flip. clear L.
    induction F as [| x v items vs M F IHF]; constructor.
    + apply Forall_cons in IH as [Hx _]. now apply Hx.
    + apply IHF. now apply Forall_cons in IH as [_ IH].
  - rewrite mirrors_obj. intros (l & c & props & -> & L & F).
    apply serialises_Obj with (c := c) (props := props); [exact L |].
    apply Forall2_flip. clear L.
    induction F as [| kv pv ms props [K M] F IHF]; constructor.
    + apply Forall_cons in IH as [Hx _].
      split; [now symmetry |]. split; [eapply mirrors_defined; eauto | now apply Hx].
    + apply IHF. now apply Forall_cons in IH as [_ IH].
Qed.

Lemma mirrors_props h members props :
  Forall2 (fun (kv : string * json) (pv : string * value) =>
             kv.1 = pv.1 /\ mirrors h kv.2 pv.2) members props ->
  serialise_props h props members.
Proof.
  intros F. apply Forall2_flip. eapply Forall2_impl; [exact F |].
  intros kv pv [K M]. split; [now symmetry |].
  split; [eapply mirrors_defined; eauto | now apply mirrors_serialises].
Qed.

Lemma alloc_items_parses_back (items : list json) :
  Forall parses_back items ->
  forall h, let r := alloc_items alloc_json items h in
    Forall2 (mirrors r.2) items r.1
    /\ (length h + fold_right (fun x m => Nat.max (depth x) m) 0 items
        <= length r.2)%nat.
Proof.
  induction 1 as [| x items Px F IH]; intros h; simpl.
  - split; [constructor | lia].
  - specialize (Px h). destruct (alloc_json x h) as [v h1] eqn:E1. simpl in Px.
    specialize (IH h1).
    assert (Fx : Forall (fun x => forall h, exists ext, (alloc_json x h).2 = h ++ ext)
                        items)
      by (apply Forall_forall; intros y _; apply alloc_json_extends).
    destruct (alloc_items_extends alloc_json items Fx h1) as [ext X].
    destruct (alloc_items alloc_json items h1) as [vs h2] eqn:E2. simpl in *.
    destruct Px as [Sx Lx], IH as [Sv Lv]. subst h2. split.
    + constructor; [now apply mirrors_mono | exact Sv].
    + rewrite length_app in *. lia.
Qed.

Lemma alloc_members_parses_back (members : list (string * json)) :
  Forall (fun kv : string * json => parses_back kv.2) members ->
  NoDup (keys members) ->
  forall acc h,
    (forall k, k ∈ keys members -> k ∉ keys acc) ->
    let r := alloc_members alloc_json members acc h in
    exists new,
      r.1 = acc ++ new
      /\ Forall2 (fun (kv : string * json) (pv : string * value) =>
                    kv.1 = pv.1 /\ mirrors r.2 kv.2 pv.2) members new
      /\ (length h
          + fold_right (fun (kv : string * json) m => Nat.max (depth kv.2) m) 0 members
          <= length r.2)%nat
      /\ exists ext, r.2 = h ++ ext.
Proof.
  induction 1 as [| [k x] members Px F IH]; intros ND acc h Fr; simpl.
  - exists []. rewrite app_nil_r. repeat split; [constructor | lia |].
    exists []. now rewrite app_nil_r.
  - simpl in ND. apply NoDup_cons in ND as [Nk ND].
    specialize (Px h).
    destruct (alloc_json_extends x h) as [e1 X1].
    destruct (alloc_json x h) as [v h1] eqn:E1. simpl in Px, X1.
    destruct Px as [Sx Lx]. rewrite E1 in Sx, Lx. simpl in Sx, Lx.
    rewrite set_prop_fresh by (apply Fr; simpl; left).
    destruct (IH ND (acc ++ [(k, v)]) h1) as (new & R1 & R2 & R3 & ext & R4).
    { intros k' In. unfold keys. rewrite map_app. simpl.
      intros I. apply elem_of_app in I as [I | I].
      - apply (Fr k'); [simpl; now right | exact I].
      - apply list_elem_of_singleton in I. subst k'. now apply Nk. }
    exists ((k, v) :: new). rewrite R1, <- app_assoc. split; [reflexivity |].
    split; [| split].
    + constructor; [| exact R2]. simpl. split; [reflexivity |].
      rewrite R4. now apply mirrors_mono.
    + simpl in *. lia.
    + exists (e1 ++ ext). now rewrite R4, X1, app_assoc.
Qed.

Lemma alloc_json_parses_back (j : json) : unique_names j = true -> parses_back j.
Proof.
  induction j as [| b | n | s | items IH | members IH] using json_ind';
    intros U h; simpl; try (split; [reflexivity | lia]).
  - simpl in U.
    assert (P : Forall parses_back items).
    { apply Forall_forall. intros x In. rewrite Forall_forall in IH.
      apply IH; [exact In |]. rewrite forallb_forall in U. apply U.
      now apply list_elem_of_In. }
    pose proof (alloc_items_parses_back items P h) as [Sv Lv].
    destruct (alloc_items alloc_json items h) as [vs h'] eqn:E.
    cbn [fst snd] in *.
    split; [| rewrite length_app; simpl; lia].
    apply mirrors_arr. exists (length h'), vs. split; [reflexivity |].
    split; [now apply list_lookup_middle |].
    eapply Forall2_impl; [exact Sv |]. intros x v. apply mirrors_mono.
  - simpl in U. apply andb_true_iff in U as [ND U]. apply bool_decide_eq_true in ND.
    assert (P : Forall (fun kv : string * json => parses_back kv.2) members).
    { apply Forall_forall. intros x In. rewrite Forall_forall in IH.
      apply IH; [exact In |]. rewrite forallb_forall in U. apply U.
      now apply list_elem_of_In. }
    destruct (alloc_members_parses_back members P ND [] h) as (new & R1 & R2 & R3 & _).
    { intros k _ In. simpl in In. now apply not_elem_of_nil in In. }
    destruct (alloc_members alloc_json members [] h) as [props h'] eqn:E.
    cbn [fst snd] in *. simpl in R1. subst props.
    split; [| rewrite length_app; simpl; lia].
    apply mirrors_obj. exists (length h'), CObject, new. split; [reflexivity |].
    split; [now apply list_lookup_middle |].
    eapply Forall2_impl; [exact R2 |]. intros kv pv [K M].
    split; [exact K | now apply mirrors_mono].
Qed.

Lemma stringify_serialises h v j :
  serialises h v j -> v <> VUndefined -> (depth j <= S (length h))%nat ->
  JSON_stringify h v = Some (Some j).
Proof.
  intros S D L. unfold JSON_stringify.
  specialize (S [] _ L). rewrite app_nil_r in S. rewrite S.
  destruct v; try reflexivity. now destruct D.
Qed.

End Serialising.

Section Parsed.

Lemma parse_object (members : list (string * json)) (h : heap) :
  unique_names (JObj members) = true ->
  exists ext props,
    alloc_json (JObj members) h
    = (VRef (length (h ++ ext)), (h ++ ext) ++ [Obj CObject props])
    /\ serialise_props (h ++ ext) props members
    /\ (fold_right (fun (kv : string * json) m => Nat.max (depth kv.2) m) 0 members
        <= length ext)%nat
    /\ Forall2 (fun (kv : string * json) (pv : string * value) =>
                  kv.1 = pv.1 /\ mirrors (h ++ ext) kv.2 pv.2) members props.
Proof.
  intros U. simpl in U. apply andb_true_iff in U as [ND U].
  apply bool_decide_eq_true in ND.
  assert (P : Forall (fun kv : string * json => parses_back kv.2) members).
  { apply Forall_forall. intros x In. apply alloc_json_parses_back.
    rewrite forallb_forall in U. apply U. now apply list_elem_of_In. }
  destruct (alloc_members_parses_back members P ND [] h) as (new & R1 & R2 & R3 & ext & R4).
  { intros k _ In. simpl in In. now apply not_elem_of_nil in In. }
  simpl. destruct (alloc_members alloc_json members [] h) as [props h'].
  simpl in *. subst props h'. exists ext, new.
  split; [reflexivity |]. split; [now apply mirrors_props |].
  split; [rewrite length_app in R3; lia | exact R2].
Qed.

Lemma serialise_props_absent h props members k :
  serialise_props h props members ->
  assoc_get k members = None -> assoc_get k props = None.
Proof.
  induction 1 as [| [k1 v] [k2 x] props members (K & _) F IH]; simpl in *;
    [reflexivity |].
  subst k2. destruct (String.eqb k1 k); [discriminate | exact IH].
Qed.

Lemma serialise_props_null h props members k :
  serialise_props h props members ->
  assoc_get k members = Some JNull -> assoc_get k props = Some VNull.
Proof.
  induction 1 as [| [k1 v] [k2 x] props members (K & D & S) F IH]; simpl in *;
    [discriminate |].
  subst k2. destruct (String.eqb k1 k); [| exact IH].
  intros [= ->]. specialize (S [] 0%nat (Nat.le_refl _)).
  destruct v; simpl in S; try discriminate; [now destruct D | reflexivity].
Qed.

Lemma set_prop_serialises h k v x acc acc' :
  serialise_props h acc acc' -> v <> VUndefined -> serialises h v x ->
  serialise_props h (set_prop k v acc) (set_prop k x acc').
Proof.
  intros F D S.
  induction F as [| [k1 v1] [k2 x1] acc acc' (K & D1 & S1) F IH]; simpl in *.
  - repeat constructor; assumption.
  - subst k2. destruct (String.eqb k1 k).
    + constructor; [now repeat split | exact F].
    + constructor; [now repeat split | exact IH].
Qed.

Lemma assign_serialises h src src' :
  serialise_props h src src' ->
  forall acc acc', serialise_props h acc acc' ->
    serialise_props h (DV360Entity.assign acc src) (assign_members acc' src').
Proof.
  unfold DV360Entity.assign, assign_members.
  induction 1 as [| [k1 v1] [k2 x1] src src' (K & D1 & S1) F IH];
    intros acc acc' A; simpl in *; [exact A |].
  subst k2. apply IH. now apply set_prop_serialises.
Qed.

Lemma depth_set_prop (k : string) (x : json) (acc : list (string * json)) (n : nat) :
  (depth x <= n)%nat ->
  (fold_right (fun (kv : string * json) m => Nat.max (depth kv.2) m) 0 acc <= n)%nat ->
  (fold_right (fun (kv : string * json) m => Nat.max (depth kv.2) m) 0 (set_prop k x acc)
   <= n)%nat.
Proof.
  intros Dx. induction acc as [| [k1 x1] acc IH]; simpl; intros Da; [lia |].
  destruct (String.eqb k1 k); simpl; [lia |]. specialize (IH ltac:(lia)). lia.
Qed.

Lemma depth_assign_members (src acc : list (string * json)) (n : nat) :
  (fold_right (fun (kv : string * json) m => Nat.max (depth kv.2) m) 0 src <= n)%nat ->
  (fold_right (fun (kv : string * json) m => Nat.max (depth kv.2) m) 0 acc <= n)%nat ->
  (fold_right (fun (kv : string * json) m => Nat.max (depth kv.2) m) 0
     (assign_members acc src) <= n)%nat.
Proof.
  unfold assign_members. revert acc.
  induction src as [| [k x] src IH]; intros acc Ds Da; simpl in *; [exact Da |].
  apply IH; [lia |]. apply depth_set_prop; lia.
Qed.

Lemma serialises_strings h (names : list string) :
  Forall2 (serialises h) (map VStr names) (map JStr names).
Proof.
  induction names as [| s names IH]; simpl; constructor; [| exact IH].
  intros ext [| fuel] _; reflexivity.
Qed.

Lemma depth_strings (names : list string) :
  fold_right (fun x m => Nat.max (depth x) m) 0%nat (map JStr names) = 0%nat.
Proof. induction names as [| s names IH]; simpl; [reflexivity | exact IH]. Qed.

End Parsed.

(** *** Requests and pages *)

Section Fetching.
Context `{Host}.

Lemma code_200 (code : Z) : ApiUtil.code_div_100_is_2 code = true <-> code = 200.
Proof.
  unfold ApiUtil.code_div_100_is_2. rewrite andb_true_iff, !Z.eqb_eq. split.
  - intros [Q R]. rewrite (Z.div_mod code 100) by lia. lia.
  - intros ->. split; reflexivity.
Qed.

Lemma requestLoop_accepted {St} pages method payload
    (callback : St -> value -> M St) url acc w :
  let req := {| req_method := method; req_url := url; req_payload := payload |} in
  let response := UrlFetchApp_fetch (trace w) req in
  getResponseCode response = 200 ->
  ApiUtil.requestLoop (S pages) method payload callback url acc w
  = (result <- ApiUtil.parse_result (getContentText response) ;;
     acc' <- callback acc result ;;
     h <- get_heap ;;
     nextPageToken <- lift (get_prop h result "nextPageToken") ;;
     if Util.loose_neq h nextPageToken VUndefined
     then ApiUtil.requestLoop pages method payload callback
            (modifyUrlQueryString url "pageToken" (ToString h nextPageToken)) acc'
     else ret acc')
      {| store := store w; trace := trace w ++ [Fetch req] |}.
Proof.
  intros req response C. simpl. unfold bind at 1, get_trace. unfold bind at 1, emit.
  fold req. fold response. rewrite C. reflexivity.
Qed.

End Fetching.

Section Get.
Context `{Host}.

Lemma last_page_stops h props members :
  serialise_props h props members -> last_page members ->
  forall h',
    Util.loose_neq h' (default VUndefined (assoc_get "nextPageToken" props)) VUndefined
    = false.
Proof.
  intros F [N | N] h'.
  - now rewrite (serialise_props_absent _ _ _ _ F N).
  - now rewrite (serialise_props_null _ _ _ _ F N).
Qed.

(** X1. When the server answers the request for one entity with an
    object that names no next page, [get] returns a fresh entity of the
    class of the resource that prints as that object after its
    [fieldList_]; it has sent one GET request, and no object that existed
    before is changed.  The member names of the answer are unique and
    ordinary, its numbers safe integers. *)
Theorem get_returns_fetched_entity
    (r : DV360Resource.t) (c : jsclass) (parameters : value) (w w0 : world)
    (uri : string) (members : list (string * json)) :
  let req := {| req_method := GET; req_url := ApiUtil.buildApiUrl_ uri;
                req_payload := None |} in
  DV360Resource.entityClass r = Some c ->
  (0 < page_limit)%nat ->
  DV360Resource.buildSingleEntityUri_ r parameters w = (Returned uri, w0) ->
  UrlFetchApp_fetch (trace w) req
  = {| getResponseCode := 200; getContentText := JsonText (JObj members) |} ->
  unique_names (JObj members) = true ->
  ordinary_names (JObj members) = true ->
  safe_numbers (JObj members) = true ->
  last_page members ->
  exists l props w',
    DV360Resource.get r parameters w = (Returned (VRef l), w')
    /\ trace w' = trace w ++ [Fetch req]
    /\ (length (store w) <= l)%nat
    /\ store w' !! l = Some (Obj c props)
    /\ JSON_stringify (store w') (VRef l)
       = Some (Some (JObj (entity_members c members)))
    /\ forall l', (l' < length (store w))%nat -> store w' !! l' = store w !! l'.
Proof.
  intros req Ec Pl B F U _ _ Lp.
  pose proof (only_buildSingleEntityUri_ silent r parameters _ _ _ B) as G.
  pose proof (grows_same_trace _ _ G) as T0. destruct G as [[ext0 S0] _].
  unfold DV360Resource.get, bind at 1. rewrite B.
  unfold ApiUtil.executeApiGetRequest, ApiUtil.executeGenericRequest_.
  destruct page_limit as [| pages]; [lia |].
  rewrite requestLoop_accepted by (rewrite T0; fold req; now rewrite F).
  rewrite T0. fold req. rewrite F. cbn [getContentText ApiUtil.parse_result].
  unfold bind at 1, JSON_parse. cbn [store trace].
  destruct (parse_object members (store w0) U) as (ext & props & -> & Sp & Dp & _).
  unfold bind at 1, DV360Resource.convertObjectToEntity. rewrite Ec.
  unfold DV360Entity.new, bind at 1, alloc. cbn [store trace].
  unfold bind at 1, get_heap. cbn [store trace].
  set (h1 := (store w0 ++ ext) ++ [Obj CObject props]).
  set (h2 := h1 ++ [Arr (map VStr (DV360Entity.fieldList c))]).
  assert (L1 : forall e, (h1 ++ e) !! length (store w0 ++ ext) = Some (Obj CObject props)).
  { intros e. subst h1. rewrite <- app_assoc. now apply list_lookup_middle. }
  assert (O2 : own_entries h2 (VRef (length (store w0 ++ ext))) = props).
  { unfold own_entries. subst h2. now rewrite L1. }
  rewrite O2.
  set (eprops := DV360Entity.assign [("fieldList_", VRef (length h1))] props).
  set (h3 := h2 ++ [Obj c eprops]).
  unfold bind at 1, get_heap. cbn [store trace].
  assert (G3 : get_prop h3 (VRef (length (store w0 ++ ext))) "nextPageToken"
               = Some (default VUndefined (assoc_get "nextPageToken" props))).
  { unfold get_prop. subst h3 h2. rewrite <- app_assoc. now rewrite L1. }
  rewrite G3. unfold bind at 1, lift, ret.
  rewrite (last_page_stops _ _ _ Sp Lp).
  exists (length h2), eprops. eexists. split; [reflexivity |]. cbn [store trace].
  split; [reflexivity |].
  split; [subst h2 h1; rewrite S0, !length_app; simpl; lia |].
  split; [subst h3; now apply list_lookup_middle |].
  split.
  - apply stringify_serialises with (h := h3); [| discriminate |].
    + apply serialises_Obj with (c := c) (props := eprops).
      * subst h3. now apply list_lookup_middle.
      * unfold eprops, entity_members. apply assign_serialises.
        -- subst h3 h2 h1. rewrite <- !app_assoc, (app_assoc (store w0) ext).
           now apply serialise_props_mono.
        -- constructor; [| constructor]. simpl. repeat split; [discriminate |].
           apply serialises_Arr with (vs := map VStr (DV360Entity.fieldList c)).
           ++ subst h3 h2. rewrite <- app_assoc. now apply list_lookup_middle.
           ++ apply serialises_strings.
    + simpl. apply le_n_S. unfold entity_members.
      apply depth_assign_members.
      * subst h3 h2 h1. rewrite !length_app. simpl. lia.
      * simpl. rewrite depth_strings. subst h3 h2 h1. rewrite !length_app. simpl. lia.
  - intros l' Lt. subst h3 h2 h1. rewrite S0.
    rewrite <- !app_assoc. now rewrite lookup_app_l by exact Lt.
Qed.

End Get.

Section Paging.
Context `{Host}.

(** X2. A response whose code is not exactly 200 (201 and 204 included)
    makes the request throw an error with the text of the response; one
    request has been sent, the callback has not run and the heap is as it
    was. *)
Theorem request_fails_unless_200 {St} (requestUri : string) (method : http_method)
    (payload : option json) (callback : St -> value -> M St) (acc : St) (w : world) :
  let req := {| req_method := method; req_url := ApiUtil.buildApiUrl_ requestUri;
                req_payload := payload |} in
  let response := UrlFetchApp_fetch (trace w) req in
  (0 < page_limit)%nat ->
  getResponseCode response <> 200 ->
  ApiUtil.executeGenericRequest_ requestUri method payload callback acc w
  = (Thrown (Error (getContentText response)),
     {| store := store w; trace := trace w ++ [Fetch req] |}).
Proof.
  intros req response Pl C. unfold ApiUtil.executeGenericRequest_.
  destruct page_limit as [| pages]; [lia |].
  apply requestLoop_rejected.
  destruct (ApiUtil.code_div_100_is_2 _) eqn:E; [| reflexivity].
  apply code_200 in E. contradiction.
Qed.




End Paging.

(** *** [list] *)

Section Listing.
Context `{Host}.

Lemma held_mono h ext vs fields : held h vs fields -> held (h ++ ext) vs fields.
Proof.
  intros F. eapply Forall2_impl; [exact F |]. intros v ms [M D].
  split; [now apply mirrors_mono | rewrite length_app; lia].
Qed.

Lemma assoc_mirrors h members props k x :
  Forall2 (fun (kv : string * json) (pv : string * value) =>
             kv.1 = pv.1 /\ mirrors h kv.2 pv.2) members props ->
  assoc_get k members = Some x ->
  exists v, assoc_get k props = Some v /\ mirrors h x v
            /\ (depth x <= fold_right (fun (kv : string * json) m =>
                                         Nat.max (depth kv.2) m) 0 members)%nat.
Proof.
  induction 1 as [| [k1 x1] [k2 v1] members props [K M] F IH]; simpl in *;
    [discriminate |].
  subst k2. destruct (String.eqb k1 k).
  - intros [= ->]. exists v1. repeat split; [exact M | lia].
  - intros E. destruct (IH E) as (v & A & Mv & D). exists v. repeat split; try assumption.
    lia.
Qed.

Lemma items_held h items vs fields n :
  Forall2 (mirrors h) items vs ->
  mapM (fun item => match item with
                    | JObj ms => Some ms
                    | _ => None
                    end) items = Some fields ->
  (fold_right (fun x m => Nat.max (depth x) m) 0 items <= n)%nat ->
  (n <= length h)%nat ->
  held h vs fields.
Proof.
  intros F. revert fields.
  induction F as [| x v items vs M F IH]; intros fields E D L; simpl in E.
  - injection E as <-. constructor.
  - destruct x as [| | | | | ms]; try discriminate. simpl in E.
    destruct (mapM _ items) as [rest |] eqn:R; [| discriminate].
    injection E as <-. simpl in D. constructor.
    + split; [exact M | simpl in *; lia].
    + apply IH; [reflexivity | lia | exact L].
Qed.

Lemma collect_page (r : DV360Resource.t) members items acc h :
  unique_names (JObj members) = true ->
  page_items (DV360Resource.apiFieldName_ r) members = Some items ->
  forall tr,
  exists ext props new,
    let l := length (h ++ ext) in
    let h1 := (h ++ ext) ++ [Obj CObject props] in
    alloc_json (JObj members) h = (VRef l, h1)
    /\ collect r acc (VRef l) {| store := h1; trace := tr |}
       = (Returned (acc ++ new), {| store := h1; trace := tr |})
    /\ held h1 new items
    /\ serialise_props (h ++ ext) props members
    /\ get_prop h1 (VRef l) "nextPageToken"
       = Some (default VUndefined (assoc_get "nextPageToken" props))
    /\ forall token, assoc_get "nextPageToken" members = Some (JStr token) ->
         assoc_get "nextPageToken" props = Some (VStr token).
Proof.
  intros U Pi tr.
  destruct (parse_object members h U) as (ext & props & E & Sp & Dp & Mp).
  exists ext, props.
  assert (L1 : ((h ++ ext) ++ [Obj CObject props]) !! length (h ++ ext)
               = Some (Obj CObject props)) by now apply list_lookup_middle.
  assert (Tk : forall token, assoc_get "nextPageToken" members = Some (JStr token) ->
                 assoc_get "nextPageToken" props = Some (VStr token)).
  { intros token A. destruct (assoc_mirrors _ _ _ _ _ Mp A) as (v & Av & Mv & _).
    simpl in Mv. now subst v. }
  assert (Hlen : length (keys props) = length members).
  { unfold keys. rewrite length_map. symmetry. eapply Forall2_length; eauto. }
  assert (Gp : forall k, get_prop ((h ++ ext) ++ [Obj CObject props])
                           (VRef (length (h ++ ext))) k
                         = Some (default VUndefined (assoc_get k props))).
  { intros k. unfold get_prop. now rewrite L1. }
  unfold collect, DV360Resource.Object_keys.
  cbn [bind get_heap lift ret store trace Util.is_nullish own_entries].
  rewrite L1, Hlen, !Gp.
  unfold page_items in Pi. destruct members as [| m members].
  - injection Pi as <-. exists []. cbn [length Nat.eqb].
    rewrite app_nil_r. repeat split; try assumption. constructor.
  - destruct (assoc_get _ (m :: members)) as [[| | | | its |] |] eqn:A;
      try discriminate.
    destruct (assoc_mirrors _ _ _ _ _ Mp A) as (v & Av & Mv & Dv).
    apply mirrors_arr in Mv as (la & vs & -> & La & Fv).
    exists vs. cbn [length Nat.eqb]. rewrite Av.
    unfold DV360Resource.spread.
    cbn [default from_option id bind lift ret store trace].
    rewrite (lookup_app_l_Some _ _ _ _ La).
    repeat split; try assumption.
    apply held_mono. apply (items_held _ its _ _ (length ext)); try assumption.
    + simpl in Dv, Dp. lia.
    + rewrite length_app. lia.
Qed.

Lemma list_loop (r : DV360Resource.t) tr url pages :
  serves (DV360Resource.apiFieldName_ r) tr url pages ->
  forall fuel acc done w,
    trace w = tr -> (length pages <= fuel)%nat -> held (store w) acc done ->
    exists acc' w' urls,
      ApiUtil.requestLoop fuel GET None (collect r) url acc w = (Returned acc', w')
      /\ held (store w') acc' (done ++ concat pages)
      /\ trace w' = trace w ++ map (fun url => Fetch (get_request url)) urls
      /\ length urls = length pages
      /\ exists ext, store w' = store w ++ ext.
Proof.
  induction 1 as [tr url members items F U Lp Pi
                 | tr url members items token rest F U Tk Pi Sv IH];
    intros [| fuel] acc done w T Lf Hd; simpl in Lf; try lia; subst tr.
  - rewrite requestLoop_accepted by (fold (get_request url); now rewrite F).
    fold (get_request url). rewrite F.
    cbn [getContentText Scenario.ok ApiUtil.parse_result].
    unfold bind at 1, JSON_parse. cbn [store trace].
    destruct (collect_page r members items acc (store w) U Pi
                (trace w ++ [Fetch (get_request url)]))
      as (ext & props & new & E & C & Hn & Sp & Gn & _).
    cbn zeta in E, C, Hn, Gn. rewrite E. unfold bind at 1. rewrite C.
    unfold bind at 1, get_heap. cbn [store trace]. rewrite Gn.
    unfold bind at 1, lift, ret. rewrite (last_page_stops _ _ _ Sp Lp).
    eexists _, _, [url]. split; [reflexivity |]. cbn [store trace].
    split; [| split; [reflexivity | split; [reflexivity |]]].
    + simpl. rewrite app_nil_r. apply Forall2_app; [| exact Hn].
      rewrite <- app_assoc. now apply held_mono.
    + exists (ext ++ [Obj CObject props]). now rewrite app_assoc.
  - rewrite requestLoop_accepted by (fold (get_request url); now rewrite F).
    fold (get_request url). rewrite F.
    cbn [getContentText Scenario.ok ApiUtil.parse_result].
    unfold bind at 1, JSON_parse. cbn [store trace].
    destruct (collect_page r members items acc (store w) U Pi
                (trace w ++ [Fetch (get_request url)]))
      as (ext & props & new & E & C & Hn & Sp & Gn & Tp).
    cbn zeta in E, C, Hn, Gn. rewrite E. unfold bind at 1. rewrite C.
    unfold bind at 1, get_heap. cbn [store trace]. rewrite Gn, (Tp _ Tk).
    unfold bind at 1, lift, ret.
    cbn [default from_option id Util.loose_neq Util.loose_eq negb].
    replace (ToString _ (VStr token)) with token by reflexivity.
    set (w1 := {| store := (store w ++ ext) ++ [Obj CObject props];
                  trace := trace w ++ [Fetch (get_request url)] |}).
    destruct (IH fuel (acc ++ new) (done ++ items) w1 eq_refl ltac:(lia))
      as (acc' & w' & urls & R & Hd' & T' & Lu & ext' & S').
    { apply Forall2_app; [| exact Hn].
      subst w1. cbn [store]. rewrite <- app_assoc. now apply held_mono. }
    exists acc', w', (url :: urls). split; [exact R |].
    split; [simpl; now rewrite <- app_assoc in Hd' |].
    split; [rewrite T'; subst w1; cbn [trace]; simpl; now rewrite <- app_assoc |].
    split; [simpl; now rewrite Lu |].
    exists ((ext ++ [Obj CObject props]) ++ ext'). rewrite S'. subst w1. cbn [store].
    now rewrite !app_assoc.
Qed.

Lemma new_mirrored (c : jsclass) (v : value) (ms : list (string * json)) (w : world) :
  mirrors (store w) (JObj ms) v ->
  exists props,
    let h' := store w ++ [Arr (map VStr (DV360Entity.fieldList c)); Obj c props] in
    DV360Entity.new c v w
    = (Returned (VRef (S (length (store w)))), {| store := h'; trace := trace w |})
    /\ serialises h' (VRef (S (length (store w)))) (JObj (entity_members c ms)).
Proof.
  intros M. apply mirrors_obj in M as (l & c0 & props & -> & L & F).
  exists (DV360Entity.assign [("fieldList_", VRef (length (store w)))] props).
  cbn zeta. unfold DV360Entity.new, bind at 1, alloc. cbn [store trace].
  unfold bind at 1, get_heap. cbn [store trace].
  unfold own_entries. rewrite (lookup_app_l_Some _ _ _ _ L).
  rewrite length_app. cbn [length]. rewrite Nat.add_1_r, <- app_assoc. cbn [app].
  split; [reflexivity |].
  eapply serialises_Obj.
  - change [?a; ?b] with ([a] ++ [b]). rewrite app_assoc.
    apply list_lookup_middle. rewrite length_app. simpl. lia.
  - unfold entity_members. apply assign_serialises.
    + apply serialise_props_mono. now apply mirrors_props.
    + constructor; [| constructor]. simpl. repeat split; [discriminate |].
      apply serialises_Arr with (vs := map VStr (DV360Entity.fieldList c)).
      * now apply list_lookup_middle.
      * apply serialises_strings.
Qed.

Lemma depth_entity (c : jsclass) (ms : list (string * json)) (n : nat) :
  (depth (JObj ms) <= n)%nat -> (depth (JObj (entity_members c ms)) <= S (S n))%nat.
Proof.
  simpl. intros D. apply le_n_S. unfold entity_members.
  apply depth_assign_members; [lia |]. simpl. rewrite depth_strings. lia.
Qed.

Lemma convert_all (r : DV360Resource.t) (c : jsclass) :
  DV360Resource.entityClass r = Some c ->
  forall vs fields w,
    held (store w) vs fields ->
    exists es ext,
      mapFx (DV360Resource.convertObjectToEntity r) vs w
      = (Returned es, {| store := store w ++ ext; trace := trace w |})
      /\ Forall2 (fun e ms =>
                    exists l props,
                      e = VRef l /\ (length (store w) <= l)%nat
                      /\ (store w ++ ext) !! l = Some (Obj c props)
                      /\ JSON_stringify (store w ++ ext) e
                         = Some (Some (JObj (entity_members c ms))))
                 es fields.
Proof.
  intros Ec vs fields w Hd. revert fields w Hd.
  induction vs as [| v vs IH]; intros fields w Hd.
  - inversion Hd; subst. exists [], []. simpl. rewrite app_nil_r.
    split; [now destruct w | constructor].
  - inversion Hd as [| ? ms ? rest [M D] Hr]; subst.
    destruct (new_mirrored c v ms w M) as (props & N & Sn). cbn zeta in N, Sn.
    set (h' := store w ++ [Arr (map VStr (DV360Entity.fieldList c)); Obj c props]) in *.
    destruct (IH rest {| store := h'; trace := trace w |}) as (es & ext & R & Fe).
    { cbn [store]. now apply held_mono. }
    cbn [store trace] in R, Fe.
    exists (VRef (S (length (store w))) :: es),
           ([Arr (map VStr (DV360Entity.fieldList c)); Obj c props] ++ ext).
    split.
    + cbn [mapFx]. unfold bind at 1, DV360Resource.convertObjectToEntity at 1.
      rewrite Ec, N. unfold bind at 1. rewrite R. unfold ret.
      now rewrite app_assoc.
    + rewrite app_assoc. fold h'. constructor.
      * exists (S (length (store w))), props. split; [reflexivity |].
        split; [lia |]. split.
        -- apply lookup_app_l_Some. subst h'.
           change [?a; ?b] with ([a] ++ [b]). rewrite app_assoc.
           apply list_lookup_middle. rewrite length_app. simpl. lia.
        -- apply stringify_serialises; [now apply serialises_mono | discriminate |].
           eapply Nat.le_trans; [apply depth_entity, D |].
           subst h'. rewrite !length_app. simpl. lia.
      * eapply Forall2_impl; [exact Fe |].
        intros e ms' (l & p & -> & Ll & Lk & Js). exists l, p.
        split; [reflexivity |]. split; [| now split].
        subst h'. rewrite length_app in Ll. lia.
Qed.

(** X4. On a server that serves the list in pages, each but the last
    naming the next, [list] follows the page tokens to the last page and
    returns one fresh entity of the class of the resource for every object
    listed on the pages, in the order of the pages: each entity prints as
    the object it was listed as, after its [fieldList_].  One GET request
    is sent per page and no object that existed before is changed.  The
    member names of the listed objects are unique and ordinary, their
    numbers safe integers. *)
Theorem list_collects_all_pages (r : DV360Resource.t) (c : jsclass)
    (parameters : value) (w : world) (pages : list (list (list (string * json)))) :
  DV360Resource.entityClass r = Some c ->
  serves (DV360Resource.apiFieldName_ r) (trace w)
    (ApiUtil.buildApiUrl_ (DV360Resource.buildListUri_ r (store w) parameters)) pages ->
  (length pages <= page_limit)%nat ->
  Forall (fun fields => ordinary_names (JObj fields) = true) (concat pages) ->
  Forall (fun fields => safe_numbers (JObj fields) = true) (concat pages) ->
  exists entities w',
    DV360Resource.list r parameters w = (Returned entities, w')
    /\ Forall2 (fun entity fields =>
                  exists l props,
                    entity = VRef l /\ (length (store w) <= l)%nat
                    /\ store w' !! l = Some (Obj c props)
                    /\ JSON_stringify (store w') entity
                       = Some (Some (JObj (entity_members c fields))))
               entities (concat pages)
    /\ (exists urls,
          length urls = length pages
          /\ trace w' = trace w ++ map (fun url => Fetch (get_request url)) urls)
    /\ forall l, (l < length (store w))%nat -> store w' !! l = store w !! l.
Proof.
  intros Ec Sv Lp _ _.
  destruct (list_loop r _ _ _ Sv page_limit [] [] w eq_refl Lp)
    as (acc & w1 & urls & R & Hd & T & Lu & ext1 & S1); [constructor |].
  destruct (convert_all r c Ec acc _ w1 Hd) as (es & ext2 & C & Fe).
  exists es. eexists. split; [| split; [| split]].
  - change (DV360Resource.list r parameters w) with
      (bind (ApiUtil.requestLoop page_limit GET None (collect r)
               (ApiUtil.buildApiUrl_
                  (DV360Resource.buildListUri_ r (store w) parameters)) [])
            (mapFx (DV360Resource.convertObjectToEntity r)) w).
    unfold bind at 1. rewrite R. exact C.
  - cbn [store]. eapply Forall2_impl; [exact Fe |].
    intros e ms (l & p & -> & Ll & Lk & Js). exists l, p.
    split; [reflexivity |]. split; [| now split].
    rewrite S1, length_app in Ll. lia.
  - exists urls. split; [exact Lu | exact T].
  - intros l Lt. cbn [store]. rewrite S1, <- app_assoc. now apply lookup_app_l.
Qed.

End Listing.

Section ListEdges.
Context `{Host}.

(** X5. A list response with an empty body counts as an empty page:
    [list] returns no entity after its one request. *)
Theorem list_of_empty_body (r : DV360Resource.t) (parameters : value) (w : world) :
  let url := ApiUtil.buildApiUrl_ (DV360Resource.buildListUri_ r (store w) parameters) in
  (0 < page_limit)%nat ->
  UrlFetchApp_fetch (trace w) (get_request url)
  = {| getResponseCode := 200; getContentText := EmptyText |} ->
  DV360Resource.list r parameters w
  = (Returned [], {| store := store w ++ [Obj CObject []];
                     trace := trace w ++ [Fetch (get_request url)] |}).
Proof.
  intros url Pl F.
  change (DV360Resource.list r parameters w) with
    (bind (ApiUtil.requestLoop page_limit GET None (collect r) url [])
          (mapFx (DV360Resource.convertObjectToEntity r)) w).
  destruct page_limit as [| pages]; [lia |].
  assert (R : ApiUtil.requestLoop (S pages) GET None (collect r) url [] w
              = (Returned [], {| store := store w ++ [Obj CObject []];
                                 trace := trace w ++ [Fetch (get_request url)] |})).
  { rewrite requestLoop_accepted by (fold (get_request url); now rewrite F).
    fold (get_request url). rewrite F. cbn [getContentText ApiUtil.parse_result].
    unfold bind at 1, alloc. cbn [store trace].
    cbv beta iota zeta delta [bind collect DV360Resource.Object_keys get_heap lift ret
                                get_prop Util.is_nullish own_entries].
    cbn [store trace]. rewrite list_lookup_middle by reflexivity.
    cbn [keys map length Nat.eqb store trace].
    rewrite list_lookup_middle by reflexivity. reflexivity. }
  unfold bind. now rewrite R.
Qed.

(** X6. A page that is not empty must hold the list under the field name
    of the resource: when the field is missing (a page of a different
    shape, or one that only names a next page), [list] throws a TypeError
    after its first request. *)
Theorem list_needs_its_field (r : DV360Resource.t) (parameters : value) (w : world)
    (members : list (string * json)) :
  let url := ApiUtil.buildApiUrl_ (DV360Resource.buildListUri_ r (store w) parameters) in
  (0 < page_limit)%nat ->
  UrlFetchApp_fetch (trace w) (get_request url) = Scenario.ok (JObj members) ->
  unique_names (JObj members) = true ->
  members <> [] ->
  assoc_get (DV360Resource.apiFieldName_ r) members = None ->
  exists w',
    DV360Resource.list r parameters w = (Thrown TypeError, w')
    /\ trace w' = trace w ++ [Fetch (get_request url)].
Proof.
  intros url Pl F U Ne A.
  change (DV360Resource.list r parameters w) with
    (bind (ApiUtil.requestLoop page_limit GET None (collect r) url [])
          (mapFx (DV360Resource.convertObjectToEntity r)) w).
  destruct page_limit as [| pages]; [lia |].
  destruct (parse_object members (store w) U) as (ext & props & E & Sp & _ & Mp).
  assert (R : ApiUtil.requestLoop (S pages) GET None (collect r) url [] w
              = (Thrown TypeError,
                 {| store := (store w ++ ext) ++ [Obj CObject props];
                    trace := trace w ++ [Fetch (get_request url)] |})).
  { rewrite requestLoop_accepted by (fold (get_request url); now rewrite F).
    fold (get_request url). rewrite F.
    cbn [getContentText Scenario.ok ApiUtil.parse_result].
    unfold bind at 1, JSON_parse. cbn [store trace]. rewrite E.
    assert (L1 : ((store w ++ ext) ++ [Obj CObject props]) !! length (store w ++ ext)
                 = Some (Obj CObject props)) by now apply list_lookup_middle.
    assert (Hlen : length (keys props) = length members).
    { unfold keys. rewrite length_map. symmetry. eapply Forall2_length; eauto. }
    cbv beta iota zeta delta [bind collect DV360Resource.Object_keys get_heap lift ret
                                get_prop Util.is_nullish own_entries].
    cbn [store trace]. rewrite L1, Hlen. destruct members as [| m members]; [contradiction |].
    cbn [length Nat.eqb store trace].
    rewrite (serialise_props_absent _ _ _ _ Sp A).
    reflexivity. }
  eexists. unfold bind. rewrite R. split; reflexivity.
Qed.

End ListEdges.

(** *** [update] and [create] *)

Section Writes.
Context `{Host}.

(** Serialising goes through with more fuel and in a larger heap. *)
Lemma toJSON_grow (n : nat) :
  forall h v x, toJSON n h v = Some x ->
  forall m ext, (n <= m)%nat -> toJSON m (h ++ ext) v = Some x.
Proof.
  induction n as [| n IH]; intros h v x E m ext L.
  - destruct v; try discriminate; destruct m; exact E.
  - destruct v; try (destruct m; exact E).
    destruct m as [| m]; [lia |]. simpl in *.
    destruct (h !! l) as [[c props | elems] |] eqn:Lk; [| | discriminate];
      rewrite (lookup_app_l_Some _ _ _ _ Lk).
    + destruct (mapM _ _) as [members |] eqn:Mm; [| discriminate].
      injection E as <-. apply mapM_Some in Mm.
      erewrite mapM_Some_2; [reflexivity |].
      eapply Forall2_impl; [exact Mm |]. intros [k v] kx Ek. simpl in *.
      destruct (toJSON n h v) as [y |] eqn:Ey; [| discriminate].
      rewrite (IH h v y Ey m ext) by lia. exact Ek.
    + destruct (mapM _ _) as [items |] eqn:Mm; [| discriminate].
      injection E as <-. apply mapM_Some in Mm.
      erewrite mapM_Some_2; [reflexivity |].
      eapply Forall2_impl; [exact Mm |]. intros v y Ey.
      apply IH; [exact Ey | lia].
Qed.

Lemma assign_fresh (src acc : list (string * value)) :
  NoDup (keys acc ++ keys src) -> DV360Entity.assign acc src = acc ++ src.
Proof.
  unfold DV360Entity.assign. revert acc.
  induction src as [| [k v] src IH]; intros acc ND; simpl.
  - now rewrite app_nil_r.
  - simpl in ND. rewrite set_prop_fresh.
    + rewrite IH; [now rewrite <- app_assoc |].
      unfold keys. rewrite map_app. simpl. rewrite <- app_assoc. exact ND.
    + apply NoDup_app in ND as (_ & D & _). intros In. apply (D k In). left.
Qed.

Lemma mapM_delete_prop {B} (t : value -> option B) (f : string)
    (props : list (string * value)) :
  forall members,
    mapM (fun kv : string * value => pair kv.1 <$> t kv.2)
         (filter (fun kv : string * value => kv.2 <> VUndefined) props)
    = Some members ->
    mapM (fun kv : string * value => pair kv.1 <$> t kv.2)
         (filter (fun kv : string * value => kv.2 <> VUndefined) (delete_prop f props))
    = Some (delete_prop f members).
Proof.
  induction props as [| [k v] props IH]; intros members E.
  - injection E as <-. reflexivity.
  - rewrite filter_cons in E. simpl. destruct (decide ((k, v).2 <> VUndefined)) as [D | D].
    + simpl in E. destruct (t v) as [y |] eqn:Ty; [| discriminate]. simpl in E.
      destruct (mapM _ (filter _ props)) as [rest |] eqn:R; [| discriminate].
      injection E as <-. simpl. destruct (String.eqb k f).
      * now apply IH.
      * rewrite filter_cons, decide_True by exact D. simpl. rewrite Ty. simpl.
        now rewrite (IH rest eq_refl).
    + destruct (String.eqb k f); [now apply IH |].
      rewrite filter_cons, decide_False by exact D. now apply IH.
Qed.

(** X7. When the mask of the fetched original against the entity is not
    empty, [update] sends, after the requests of [get], a PATCH request to
    the url of the original with [?updateMask=] and the mask appended,
    with the whole entity as its body. *)
Theorem update_sends_patch (r : DV360Resource.t) (entity original : value)
    (w w1 w2 : world) (mask uri : string) (body : option json) :
  DV360Resource.get r entity w = (Returned original, w1) ->
  DV360Entity.getPatchMask (store w1) original entity = Some mask ->
  mask <> "" ->
  DV360Resource.buildSingleEntityUri_ r original w1 = (Returned uri, w2) ->
  JSON_stringify (store w2) entity = Some body ->
  (0 < page_limit)%nat ->
  exists o w' rest,
    DV360Resource.update r entity w = (o, w')
    /\ trace w'
       = trace w1
         ++ Fetch {| req_method := PATCH;
                     req_url := ApiUtil.buildApiUrl_ (uri +:+ "?updateMask=" +:+ mask);
                     req_payload := body |} :: rest.
Proof.
  intros G Mk Ne B Js Pl.
  pose proof (grows_same_trace _ _ (only_buildSingleEntityUri_ silent r original _ _ _ B))
    as T2.
  apply String.eqb_neq in Ne.
  unfold DV360Resource.update, bind at 1. rewrite G.
  unfold bind at 1, get_heap. rewrite Mk. unfold bind at 1, lift, ret. rewrite Ne.
  unfold DV360Resource.buildPatchUri_.
  unfold bind at 1. unfold bind at 1, get_heap. rewrite Mk.
  unfold bind at 1, lift, ret. unfold bind at 1. rewrite B.
  unfold ApiUtil.executeApiPatchRequest.
  unfold bind at 1, get_heap. rewrite Js. unfold bind at 1, lift, ret.
  unfold ApiUtil.executeGenericRequest_.
  destruct page_limit as [| pages]; [lia |].
  match goal with
  | |- exists o w' rest, ?run = _ /\ _ => destruct run as [o w'] eqn:E
  end.
  apply requestLoop_first in E as [rest T].
  - exists o, w', rest. split; [reflexivity |]. now rewrite T, T2.
  - intros acc result. apply only_convertObjectToEntity.
Qed.

(** X8. For a resource that knows its primary identifier field, the
    first request of [create] is a POST to the create url of the resource
    whose body is the entity as it prints, in the order of its members
    (whose names are ordinary), without the primary identifier.  The entity
    itself is left as it was. *)
Theorem create_posts_copy_without_id (r : DV360Resource.t) (f : string) (l : loc)
    (c : jsclass) (props : list (string * value)) (members : list (string * json))
    (w : world) :
  let copy := Obj CObject (delete_prop f props) in
  let url := ApiUtil.buildApiUrl_
               (DV360Resource.buildCreateUri_ r (store w ++ [copy]) (VRef l)) in
  DV360Resource.primaryIdField_ r = Some f ->
  store w !! l = Some (Obj c props) ->
  NoDup (keys props) ->
  JSON_stringify (store w) (VRef l) = Some (Some (JObj members)) ->
  ordinary_names (JObj members) = true ->
  (0 < page_limit)%nat ->
  exists o w' rest,
    DV360Resource.create r (VRef l) w = (o, w')
    /\ trace w'
       = trace w ++ Fetch {| req_method := POST; req_url := url;
                             req_payload := Some (JObj (delete_prop f members)) |}
                    :: rest
    /\ store w' !! l = Some (Obj c props).
Proof.
  intros copy url Pf L ND Js _ Pl.
  pose proof (lookup_lt_Some _ _ _ L) as Lt.
  unfold DV360Resource.create. rewrite Pf. cbn [prop_key default from_option id].
  unfold bind at 1, get_heap. unfold bind at 1, alloc.
  unfold bind at 1, modify_props. cbn [store trace].
  unfold own_entries at 1. rewrite L.
  rewrite assign_fresh by exact ND. cbn [app].
  rewrite list_lookup_middle by reflexivity.
  rewrite insert_app_r_alt by lia. rewrite Nat.sub_diag. cbn [insert list_insert].
  fold copy.
  unfold bind at 1, get_heap. cbn [store trace].
  unfold ApiUtil.executeApiPostRequest.
  unfold bind at 1, get_heap. cbn [store trace].
  assert (Sp : JSON_stringify (store w ++ [copy]) (VRef (length (store w)))
               = Some (Some (JObj (delete_prop f members)))).
  { unfold JSON_stringify in *. cbn [toJSON] in *. rewrite L in Js.
    rewrite list_lookup_middle by reflexivity. unfold copy.
    destruct (mapM _ (filter _ props)) as [ms |] eqn:Mm; [| discriminate].
    injection Js as <-.
    apply mapM_Some in Mm.
    assert (Mm' : mapM (fun kv : string * value =>
                          pair kv.1 <$> toJSON (length (store w ++ [copy]))
                                          (store w ++ [copy]) kv.2)
                       (filter (fun kv : string * value => kv.2 <> VUndefined) props)
                  = Some ms).
    { apply mapM_Some_2. eapply Forall2_impl; [exact Mm |].
      intros [k v] kx Ek. simpl in *.
      destruct (toJSON (length (store w)) (store w) v) as [y |] eqn:Ey; [| discriminate].
      rewrite (toJSON_grow _ _ _ _ Ey) by (rewrite length_app; lia). exact Ek. }
    fold copy. now rewrite (mapM_delete_prop _ f props ms Mm'). }
  rewrite Sp. unfold bind at 1, lift, ret.
  unfold ApiUtil.executeGenericRequest_.
  destruct page_limit as [| pages]; [lia |].
  match goal with
  | |- exists o w' rest, ?run = _ /\ _ => destruct run as [o w'] eqn:E
  end.
  pose proof E as E'.
  apply requestLoop_first in E as [rest T];
    [| intros acc result; apply only_convertObjectToEntity].
  apply (only_requestLoop anything) in E' as [[ext S] _];
    [| easy | intros acc result; apply only_convertObjectToEntity].
  exists o, w', rest. split; [reflexivity |]. split; [exact T |].
  cbn [store] in S. rewrite S, <- app_assoc. now apply lookup_app_l_Some.
Qed.

End Writes.

(** *** The bulk edit of targeting options *)

Section Payload.
Context `{Host}.








End Payload.


Section Frames.
Context `{Host}.

Lemma only_collect allowed r acc result : only allowed (collect r acc result).
Proof. unfold collect. only_auto. Qed.

(** X9. What the operations send and what they leave alone: [list] and
    [get] send GET requests only, [update] GET and PATCH requests only,
    [create] POST requests only; none of them writes to the sheet, and
    every object that existed before the call is as it was afterwards
    (they only allocate). *)
Theorem operations_keep_to_their_requests (r : DV360Resource.t) (v : value) :
  only (fetches GET) (DV360Resource.list r v)
  /\ only (fetches GET) (DV360Resource.get r v)
  /\ only reads_or_patches (DV360Resource.update r v)
  /\ only (fetches POST) (DV360Resource.create r v).
Proof.
  split; [| split; [apply only_get | split; [apply only_update |]]].
  - unfold DV360Resource.list.
    apply only_bind; [apply only_get_heap | intros h].
    apply only_bind.
    + apply only_requestLoop; [reflexivity |]. intros acc result.
      apply (only_collect _ r).
    + intros resultList. apply only_mapFx. intros x. apply only_convertObjectToEntity.
  - intros w o w' E. unfold DV360Resource.create in E.
    unfold bind at 1, get_heap in E. unfold bind at 1, alloc in E.
    unfold bind at 1, modify_props in E. cbn [store trace] in E.
    rewrite list_lookup_middle in E by reflexivity.
    rewrite insert_app_r_alt in E by lia. rewrite Nat.sub_diag in E.
    cbn [insert list_insert] in E.
    match type of E with
    | ?m ?w1 = _ => assert (G : grows (fetches POST) w1 w')
    end.
    { revert E. apply only_bind; [apply only_get_heap | intros h'].
      unfold ApiUtil.executeApiPostRequest.
      apply only_bind; [apply only_get_heap | intros h''].
      apply only_bind; [apply only_lift | intros body].
      apply only_requestLoop; [reflexivity |]. intros acc result.
      apply only_convertObjectToEntity. }
    eapply grows_trans; [| exact G]. apply grows_heap.
Qed.

End Frames.

(** *** Differences and targeting types *)

Section Differences.

Lemma isIn_empty (h : heap) (o : value) : Util.isIn h o [] = Some false.
Proof. reflexivity. Qed.

(** X10. [Util.difference] of a list with itself is empty, as long as its
    elements can be serialised, and its difference with the empty list is
    the list itself. *)
Theorem difference_laws (h : heap) (l : list value) :
  Forall (fun x => is_Some (JSON_stringify h x)) l ->
  Util.difference h l l = Some [] /\ Util.difference h l [] = Some l.
Proof.
  intros F. split.
  - assert (T : forall o, o ∈ l -> Util.isIn h o l = Some true).
    { intros o In.
      assert (D : is_Some (Util.isIn h o l)).
      { unfold Util.isIn. rewrite filter_opt_total; [eauto |].
        apply Forall_forall. intros m Im. rewrite Forall_forall in F.
        destruct (F m Im) as [a ->], (F o In) as [b ->]. eauto. }
      destruct D as [b D]. rewrite D. f_equal.
      apply (isIn_spec h _ _ _ D). exists o. split; [exact In | reflexivity]. }
    unfold Util.difference. rewrite filter_opt_total.
    + f_equal. destruct (filter _ l) as [| o rest] eqn:E; [reflexivity |].
      assert (In : o ∈ filter (fun x => negb <$> Util.isIn h x l = Some true) l)
        by (rewrite E; left).
      apply list_elem_of_filter in In as [Q In]. rewrite (T o In) in Q. discriminate.
    + apply Forall_forall. intros o In. rewrite (T o In). simpl. eauto.
  - unfold Util.difference. clear F. induction l as [| x l IH]; [reflexivity |].
    simpl in *. now rewrite IH.
Qed.

(** X11. [collectUniqueTypes] lists every targeting type of the options
    once: it returns for options that are not [null] or [undefined], its
    result has no duplicates and holds exactly the types that occur. *)
Theorem collectUniqueTypes_lists_each_type_once (h : heap) (options : list value) :
  Forall (fun o => Util.is_nullish o = false) options ->
  exists types,
    LineItemTargetingOptions.collectUniqueTypes h options = Some types
    /\ NoDup types
    /\ forall t, t ∈ types
                 <-> exists o, o ∈ options /\ get_prop h o "targetingType" = Some t.
Proof.
  intros F. unfold LineItemTargetingOptions.collectUniqueTypes.
  assert (P : is_Some (LineItemTargetingOptions.pluck h "targetingType" options)).
  { unfold LineItemTargetingOptions.pluck. apply mapM_is_Some.
    eapply Forall_impl; [exact F |]. intros o N. simpl.
    rewrite (get_prop_field h o _ N). eauto. }
  destruct P as [values P]. rewrite P. simpl.
  exists (LineItemTargetingOptions.uniq values). split; [reflexivity |].
  split; [apply NoDup_uniq |].
  intros t. rewrite elem_of_uniq. split.
  - intros In. now apply (pluck_elem_inv h _ _ _ _ P).
  - intros (o & In & G). destruct (pluck_elem h _ _ _ _ P In) as (v & G' & Iv).
    rewrite G in G'. now injection G' as <-.
Qed.

End Differences.

(** *** Uri templates *)

Section OnePlaceholder.

Lemma append_cons (a : ascii) (s t : string) : String a s +:+ t = String a (s +:+ t).
Proof. reflexivity. Qed.

Lemma append_assoc (a b c : string) : (a +:+ b) +:+ c = a +:+ b +:+ c.
Proof. induction a as [| x a IH]; [reflexivity |]. now rewrite !append_cons, IH. Qed.

Lemma lacks_cons (c a : ascii) (s : string) :
  lacks (String c EmptyString) (String a s)
  <-> a <> c /\ lacks (String c EmptyString) s.
Proof.
  unfold lacks. rewrite index_0_cons. simpl.
  destruct (ascii_dec c a) as [-> | N].
  - destruct s; split; try discriminate; intros [? _]; congruence.
  - destruct (String.index 0 (String c "") s); split; try discriminate.
    + intros [_ ?]; discriminate.
    + intros _. split; [congruence | reflexivity].
    + reflexivity.
Qed.

Lemma lacks_app (c : ascii) (a b : string) :
  lacks (String c EmptyString) (a +:+ b)
  <-> lacks (String c EmptyString) a /\ lacks (String c EmptyString) b.
Proof.
  induction a as [| x a IH].
  - change ("" +:+ b) with b. split; [intros L; split; [reflexivity | exact L] | tauto].
  - rewrite append_cons, !lacks_cons, IH. tauto.
Qed.

(** A pattern that starts with a character the text lacks does not occur
    in the text. *)
Lemma index_lacks (c : ascii) (p s : string) :
  lacks (String c EmptyString) s -> String.index 0 (String c p) s = None.
Proof.
  induction s as [| a s IH]; intros L; [reflexivity |].
  apply lacks_cons in L as [N L]. rewrite index_0_cons. simpl.
  destruct (ascii_dec c a) as [-> | _]; [congruence |]. now rewrite IH.
Qed.

Lemma index_skip (c : ascii) (p s1 s2 : string) :
  lacks (String c EmptyString) s1 ->
  String.index 0 (String c p) (s1 +:+ s2)
  = (fun n => (String.length s1 + n)%nat) <$> String.index 0 (String c p) s2.
Proof.
  induction s1 as [| a s1 IH]; intros L.
  - change ("" +:+ s2) with s2. now destruct (String.index 0 (String c p) s2).
  - apply lacks_cons in L as [N L]. rewrite append_cons, index_0_cons. simpl.
    destruct (ascii_dec c a) as [-> | _]; [congruence |]. rewrite IH by exact L.
    now destruct (String.index 0 (String c p) s2).
Qed.

Lemma prefix_app (p s : string) : String.prefix p (p +:+ s) = true.
Proof.
  induction p as [| a p IH]; [now destruct s |].
  rewrite append_cons. simpl. destruct (ascii_dec a a); [exact IH | congruence].
Qed.

Lemma prefix_cons (a b : ascii) (s t : string) :
  String.prefix (String a s) (String b t) = true <-> a = b /\ String.prefix s t = true.
Proof.
  change (String.prefix (String a s) (String b t))
    with (if ascii_dec a b then String.prefix s t else false).
  destruct (ascii_dec a b) as [-> | N]; [tauto |].
  split; [discriminate | intros [? _]; contradiction].
Qed.

Lemma prefix_cons_eq (a b : ascii) (s t : string) :
  String.prefix (String a s) (String b t)
  = if ascii_dec a b then String.prefix s t else false.
Proof. reflexivity. Qed.

Lemma prefix_has_closing (n after : string) :
  lacks "}" after -> String.prefix (n +:+ "}") after = false.
Proof.
  revert after. induction n as [| c n IH]; intros [| d after] La;
    try reflexivity.
  - change ("" +:+ "}") with "}". apply lacks_cons in La as [N _].
    rewrite prefix_cons_eq. destruct (ascii_dec "}" d); [congruence | reflexivity].
  - rewrite append_cons. apply lacks_cons in La as [_ La]. rewrite prefix_cons_eq.
    destruct (ascii_dec c d); [now apply IH | reflexivity].
Qed.

Lemma prefix_closing (n name after : string) :
  lacks "}" name -> lacks "}" after ->
  String.prefix (n +:+ "}") (name +:+ "}" +:+ after) = true -> n = name.
Proof.
  revert name. induction n as [| a n IH]; intros [| b name] Ln La P.
  - reflexivity.
  - change ("" +:+ "}") with "}" in P. rewrite append_cons in P.
    apply prefix_cons in P as [<- _]. apply lacks_cons in Ln as [N _]. congruence.
  - change ("" +:+ "}" +:+ after) with (String "}" after) in P.
    rewrite append_cons in P. apply prefix_cons in P as [-> P].
    now rewrite prefix_has_closing in P.
  - rewrite !append_cons in P. apply prefix_cons in P as [-> P].
    apply lacks_cons in Ln as [_ Ln]. f_equal. now apply IH.
Qed.

Lemma placeholder_cons (name : string) :
  placeholder name = String "$" ("{" +:+ name +:+ "}").
Proof. reflexivity. Qed.

Lemma placeholder_found (before name after : string) :
  lacks "$" before ->
  String.index 0 (placeholder name) (before +:+ placeholder name +:+ after)
  = Some (String.length before).
Proof.
  intros L. rewrite (placeholder_cons name) at 1. rewrite index_skip by exact L.
  rewrite <- placeholder_cons.
  assert (Z : String.index 0 (placeholder name) (placeholder name +:+ after) = Some 0%nat).
  { rewrite placeholder_cons at 2. rewrite (append_cons "$"), index_0_cons.
    rewrite <- (append_cons "$"), <- placeholder_cons. now rewrite prefix_app. }
  rewrite Z. simpl. f_equal. lia.
Qed.

Lemma placeholder_other (before name after n : string) :
  lacks "$" before -> lacks "$" name -> lacks "$" after ->
  lacks "}" name -> lacks "}" after -> n <> name ->
  String.index 0 (placeholder n) (before +:+ placeholder name +:+ after) = None.
Proof.
  intros Lb Ln La Cn Ca N. rewrite (placeholder_cons n), index_skip by exact Lb.
  rewrite (placeholder_cons name), (append_cons "$"), index_0_cons.
  destruct (String.prefix _ _) eqn:P.
  - exfalso. apply prefix_cons in P as [_ P].
    rewrite !append_cons in P. change ("" +:+ ?x) with x in P.
    apply prefix_cons in P as [_ P]. rewrite !append_assoc in P.
    now apply N, (prefix_closing n name after).
  - rewrite index_lacks; [reflexivity |].
    rewrite append_cons. change ("" +:+ ?x) with x.
    apply lacks_cons. split; [discriminate |].
    rewrite append_assoc. apply lacks_app. split; [exact Ln |].
    rewrite append_cons. change ("" +:+ ?x) with x.
    apply lacks_cons. split; [discriminate | exact La].
Qed.

Lemma assoc_split (name : string) (v0 : value) (entries : list (string * value)) :
  NoDup (keys entries) -> assoc_get name entries = Some v0 ->
  exists earlier later,
    entries = earlier ++ ((name, v0) :: later)
    /\ (name ∉ keys earlier) /\ (name ∉ keys later).
Proof.
  induction entries as [| [k v] entries IH]; intros ND A; [discriminate |].
  simpl in *. apply NoDup_cons in ND as [Nk ND].
  destruct (String.eqb k name) eqn:E.
  - apply String.eqb_eq in E. subst k. injection A as ->.
    exists [], entries. split; [reflexivity |]. split; [apply not_elem_of_nil | exact Nk].
  - destruct (IH ND A) as (earlier & later & -> & N1 & N2).
    exists ((k, v) :: earlier), later. split; [reflexivity |]. split; [| exact N2].
    simpl. apply not_elem_of_cons. split; [| exact N1].
    apply String.eqb_neq in E. congruence.
Qed.

Lemma one_placeholder_resolved (h : heap) (params v0 : value)
    (before name after : string) :
  Util.is_nullish params = false ->
  NoDup (keys (own_entries h params)) ->
  assoc_get name (own_entries h params) = Some v0 ->
  lacks "$" before -> lacks "$" name -> lacks "$" after ->
  lacks "}" name -> lacks "}" after ->
  lacks "$" (ToString h v0) ->
  ApiUtil.replaceInputValues h (before +:+ placeholder name +:+ after) params
  = before +:+ ToString h v0 +:+ after.
Proof.
  intros NN ND A Lb Ln La Cn Ca Lv.
  destruct (assoc_split _ _ _ ND A) as (earlier & later & E & N1 & N2).
  unfold ApiUtil.replaceInputValues. rewrite NN, E, fold_left_app.
  rewrite (fold_replace_absent h earlier).
  - simpl. fold (placeholder name). rewrite replace_first.
    + apply fold_replace_absent. intros n v In.
      apply index_lacks. apply lacks_app. split; [exact Lb |].
      apply lacks_app. now split.
    + now apply placeholder_found.
    + exact Lv.
  - intros n v In. apply placeholder_other; try assumption.
    intros ->. apply N1. apply list_elem_of_fmap. now exists (name, v).
Qed.

(** X12. A template with one placeholder is resolved whatever else the
    parameters hold: when [before] and [after] have no [$], [name] has
    neither [$] nor a closing brace, [after] has no closing brace, and the
    value of [name] is a primitive that prints in full and without [$],
    the result is the template with the value in the place of the
    placeholder. *)
Theorem replaceInputValues_one_placeholder (h : heap) (params v0 : value)
    (before name after : string) :
  Util.is_nullish params = false ->
  NoDup (keys (own_entries h params)) ->
  assoc_get name (own_entries h params) = Some v0 ->
  lacks "$" before -> lacks "$" name -> lacks "$" after ->
  lacks "}" name -> lacks "}" after ->
  plain_value v0 ->
  lacks "$" (ToString h v0) ->
  ApiUtil.replaceInputValues h (before +:+ placeholder name +:+ after) params
  = before +:+ ToString h v0 +:+ after.
Proof.
  intros NN ND A Lb Ln La Cn Ca _ Lv. now apply one_placeholder_resolved.
Qed.

End OnePlaceholder.

Section AdvertiserUri.
Context `{Host}.

(** X13. [Advertisers] is constructed without a primary identifier
    field, so the uri of a single advertiser ends in [/undefined] whatever
    the [advertiserId] of the entity is (the entity has a [partnerId]
    without [$] and no property named [undefined]): that is the uri [get],
    [update] and [delete] of an advertiser use. *)
Theorem advertiser_uri_ends_in_undefined (l : loc) (c : jsclass)
    (props : list (string * value)) (p : string) (w : world) :
  store w !! l = Some (Obj c props) ->
  NoDup (keys props) ->
  assoc_get "partnerId" props = Some (VStr p) ->
  assoc_get "undefined" props = None ->
  lacks "$" p ->
  exists w',
    DV360Resource.buildSingleEntityUri_ DV360Resource.Advertisers (VRef l) w
    = (Returned ("advertisers?partnerId=" +:+ p +:+ "/undefined"), w')
    /\ trace w' = trace w.
Proof.
  intros L ND Pp Pu Lp.
  exists {| store := store w ++ [Obj CObject props]; trace := trace w |}.
  split; [| reflexivity].
  unfold DV360Resource.buildSingleEntityUri_, DV360Resource.getPrimaryId.
  unfold bind at 1, get_heap. unfold get_prop at 1. rewrite L.
  cbn [DV360Resource.primaryIdField_ DV360Resource.Advertisers prop_key default
       from_option id].
  rewrite Pu. cbn [default from_option id lift].
  unfold bind at 1, ret. unfold bind at 1, alloc.
  unfold own_entries at 1. rewrite L, (assign_fresh props []) by exact ND.
  cbn [app store trace]. unfold bind at 1, get_heap, ret. cbn [store trace].
  f_equal. f_equal.
  change (DV360Resource.baseUri_ DV360Resource.Advertisers +:+ "/"
          +:+ ToString (store w) VUndefined)
    with ("advertisers?partnerId=" +:+ placeholder "partnerId" +:+ "/undefined").
  assert (O : own_entries (store w ++ [Obj CObject props]) (VRef (length (store w)))
              = props).
  { unfold own_entries. now rewrite list_lookup_middle. }
  rewrite (one_placeholder_resolved _ _ (VStr p)); try reflexivity.
  - now rewrite O.
  - now rewrite O.
  - exact Lp.
Qed.

End AdvertiserUri.

(** *** Dotted field paths *)

Section SetValue.
Import UtilWrites.

Lemma assoc_get_set_prop_same {A} (name : string) (v : A) (props : list (string * A)) :
  assoc_get name props = Some v -> set_prop name v props = props.
Proof.
  induction props as [| [k x] props IH]; [discriminate |]. simpl.
  destruct (String.eqb k name) eqn:E.
  - intros [= ->]. reflexivity.
  - intros A0. now rewrite IH.
Qed.

Lemma assign_prop_Obj (name : string) (v : value) (l : loc) (c : jsclass)
    (props : list (string * value)) (w : world) :
  store w !! l = Some (Obj c props) ->
  UtilWrites.assign_prop (VRef l) name v w
  = (Returned tt,
     {| store := <[l := Obj c (set_prop name v props)]> (store w); trace := trace w |}).
Proof. intros L. unfold UtilWrites.assign_prop, modify_props. now rewrite L. Qed.

(** A path set on an object whose first segment is undefined (or
    otherwise falsy): the nested objects are made, the value is stored
    and read back, and no other object changes. *)
Lemma set_fresh_path (fuel : nat) :
  forall (l : loc) (c : jsclass) (props : list (string * value)) (fieldName : string)
         (v : value) (w : world),
    (String.length fieldName <= fuel)%nat ->
    store w !! l = Some (Obj c props) ->
    (String.index 0 "." fieldName <> None ->
     LineItemTargetingOptions.falsy
       (Util.field (store w) (VRef l) (first_segment fieldName)) = true) ->
    exists w' props',
      setValueByDottedFieldName_rec fuel (VRef l) fieldName v w = (Returned tt, w')
      /\ Util.getValueByDottedFieldName (store w') (VRef l) fieldName = v
      /\ trace w' = trace w
      /\ (length (store w) <= length (store w'))%nat
      /\ store w' !! l = Some (Obj c props')
      /\ (forall name, name <> first_segment fieldName ->
            assoc_get name props' = assoc_get name props)
      /\ (forall l', l' <> l -> (l' < length (store w))%nat ->
            store w' !! l' = store w !! l').
Proof.
  induction fuel as [| fuel IH]; intros l c props fieldName v w Lf L Fa;
    unfold first_segment in *.
  - destruct fieldName; [| simpl in Lf; lia].
    change (setValueByDottedFieldName_rec 0 (VRef l) "" v)
      with (assign_prop (VRef l) "" v).
    rewrite (assign_prop_Obj _ _ _ _ _ _ L).
    pose proof (lookup_lt_Some _ _ _ L) as Lt.
    eexists _, _. split; [reflexivity |]. cbn [store trace].
    rewrite length_insert, list_lookup_insert_eq by exact Lt.
    repeat split; try reflexivity; try lia.
    + rewrite getValueByDottedFieldName_plain by reflexivity. simpl.
      unfold Util.field, get_prop.
      rewrite list_lookup_insert_eq by exact Lt. cbn [default from_option id].
      now rewrite assoc_get_set_prop_eq.
    + intros name N. now apply assoc_get_set_prop_ne.
    + intros l' N _. now apply list_lookup_insert_ne.
  - pose proof (lookup_lt_Some _ _ _ L) as Lt. cbn [setValueByDottedFieldName_rec].
    destruct (String.index 0 "." fieldName) as [i |] eqn:I.
    + specialize (Fa ltac:(discriminate)).
      set (first := String.substring 0 i fieldName) in *.
      set (rest := Util.substring_from (i + 1) fieldName).
      unfold bind at 1, get_heap. unfold get_prop at 1. rewrite L.
      unfold Util.field, get_prop in Fa. rewrite L in Fa. cbn [default from_option id] in Fa.
      cbn [lift]. unfold bind at 1, ret. rewrite Fa.
      unfold bind at 1, alloc. unfold bind at 1. cbn [store trace].
      rewrite (assign_prop_Obj _ _ l c props)
        by (cbn [store]; now apply lookup_app_l_Some).
      cbn [store trace].
      set (sub := length (store w)).
      set (h1 := <[l := Obj c (set_prop first (VRef sub) props)]>
                   (store w ++ [Obj CObject []])).
      assert (Ls : h1 !! sub = Some (Obj CObject [])).
      { subst h1. rewrite list_lookup_insert_ne by (subst sub; lia).
        now apply list_lookup_middle. }
      destruct (IH sub CObject [] rest v {| store := h1; trace := trace w |})
        as (w' & props' & R & G & T & Le & Lk & _ & Fr).
      { subst rest. rewrite length_substring_from.
        apply index_dot_lt in I. lia. }
      { exact Ls. }
      { intros _. unfold Util.field, get_prop. cbn [store]. rewrite Ls.
        now destruct (String.index 0 "." rest). }
      cbn [store trace] in *.
      assert (Ll : store w' !! l = Some (Obj c (set_prop first (VRef sub) props))).
      { rewrite Fr.
        - subst h1. apply list_lookup_insert_eq. rewrite length_app. simpl. lia.
        - subst sub. lia.
        - subst h1. rewrite length_insert, length_app. simpl. lia. }
      exists w', (set_prop first (VRef sub) props).
      split; [exact R |]. split; [| split; [exact T | split; [| split; [exact Ll | split]]]].
      * rewrite (getValueByDottedFieldName_dotted _ _ _ _ I). simpl.
        unfold Util.field at 1, get_prop. rewrite Ll. simpl.
        rewrite assoc_get_set_prop_eq. simpl. exact G.
      * subst h1. rewrite length_insert, length_app in Le. simpl in Le. lia.
      * intros name N. now apply assoc_get_set_prop_ne.
      * intros l' N Lt'. rewrite Fr.
        -- subst h1. rewrite list_lookup_insert_ne by congruence.
           now apply lookup_app_l.
        -- subst sub. lia.
        -- subst h1. rewrite length_insert, length_app. simpl. lia.
    + rewrite (assign_prop_Obj _ _ _ _ _ _ L).
      eexists _, _. split; [reflexivity |]. cbn [store trace].
      rewrite length_insert, list_lookup_insert_eq by exact Lt.
      repeat split; try reflexivity; try lia.
      * rewrite getValueByDottedFieldName_plain by exact I. simpl.
        unfold Util.field, get_prop.
        rewrite list_lookup_insert_eq by exact Lt. cbn [default from_option id].
        now rewrite assoc_get_set_prop_eq.
      * intros name N. now apply assoc_get_set_prop_ne.
      * intros l' N _. now apply list_lookup_insert_ne.
Qed.

(** X14. Setting a value under a dotted path and reading the path back:
    on a plain object whose first segment is missing (or holds [null], 0,
    an empty string or [false]), [setValueByDottedFieldName] makes the
    nested objects and returns, [getValueByDottedFieldName] then reads the
    value back, and nothing else changes: the other fields of the object
    and all other objects are as before.  The path names no inherited
    member. *)
Theorem setValue_then_getValue (l : loc) (props : list (string * value))
    (fieldName : string) (v : value) (w : world) :
  store w !! l = Some (Obj CObject props) ->
  own_path fieldName ->
  (String.index 0 "." fieldName <> None ->
   LineItemTargetingOptions.falsy
     (Util.field (store w) (VRef l) (first_segment fieldName)) = true) ->
  exists w' props',
    setValueByDottedFieldName (VRef l) fieldName v w = (Returned tt, w')
    /\ Util.getValueByDottedFieldName (store w') (VRef l) fieldName = v
    /\ trace w' = trace w
    /\ store w' !! l = Some (Obj CObject props')
    /\ (forall name, name <> first_segment fieldName ->
          assoc_get name props' = assoc_get name props)
    /\ (forall l', l' <> l -> (l' < length (store w))%nat ->
          store w' !! l' = store w !! l').
Proof.
  intros L _ Fa.
  destruct (set_fresh_path (String.length fieldName) l CObject props fieldName v w
              (Nat.le_refl _) L Fa)
    as (w' & props' & R & G & T & _ & Lk & Pr & Fr).
  exists w', props'. now repeat split.
Qed.

Lemma set_on_primitive (fuel : nat) (prim : value) (fieldName : string) (v : value)
    (w : world) :
  Util.is_nullish prim = false -> (forall l, prim <> VRef l) ->
  (String.length fieldName <= fuel)%nat ->
  exists w',
    setValueByDottedFieldName_rec fuel prim fieldName v w = (Thrown TypeError, w')
    /\ trace w' = trace w
    /\ exists ext, store w' = store w ++ ext.
Proof.
  intros NN NR Lf.
  assert (W : forall name x, assign_prop prim name x w = (Thrown TypeError, w)).
  { intros name x. destruct prim; try reflexivity; try discriminate.
    now destruct (NR l). }
  destruct fuel as [| fuel]; cbn [setValueByDottedFieldName_rec];
    destruct (String.index 0 "." fieldName) as [i |] eqn:I.
  - apply index_dot_lt in I. lia.
  - exists w. rewrite W. repeat split. exists []. now rewrite app_nil_r.
  - unfold bind at 1, get_heap.
    assert (G : exists x, get_prop (store w) prim (String.substring 0 i fieldName)
                          = Some x).
    { destruct prim; simpl; eauto; try discriminate.
      - destruct (String.eqb _ "length"); eauto.
      - now destruct (NR l). }
    destruct G as [x ->]. cbn [lift]. unfold bind at 1, ret.
    destruct (LineItemTargetingOptions.falsy x).
    + unfold bind at 1, alloc. unfold bind at 1.
      destruct prim; try discriminate; try (now destruct (NR l));
        (eexists; split; [reflexivity |]; split; [reflexivity |]; now eexists).
    + unfold bind at 1, ret. unfold bind at 1. rewrite W.
      exists w. repeat split. exists []. now rewrite app_nil_r.
  - exists w. rewrite W. repeat split. exists []. now rewrite app_nil_r.
Qed.

(** X15. A path that runs through a field holding a number other than
    0, [true] or a string that is not empty cannot be set: the write to
    the primitive raises TypeError (the code is strict), and every object
    is left as it was.  The path names no inherited member. *)
Theorem setValue_through_primitive (l : loc) (c : jsclass)
    (props : list (string * value)) (fieldName : string) (v existing : value)
    (w : world) :
  store w !! l = Some (Obj c props) ->
  own_path fieldName ->
  String.index 0 "." fieldName <> None ->
  assoc_get (first_segment fieldName) props = Some existing ->
  truthy_primitive existing ->
  exists w',
    setValueByDottedFieldName (VRef l) fieldName v w = (Thrown TypeError, w')
    /\ trace w' = trace w
    /\ forall l', (l' < length (store w))%nat -> store w' !! l' = store w !! l'.
Proof.
  intros L _ D A [Tr NR]. unfold first_segment in A.
  unfold setValueByDottedFieldName.
  destruct (String.index 0 "." fieldName) as [i |] eqn:I; [| contradiction].
  pose proof (index_dot_lt _ _ I) as Li.
  destruct (String.length fieldName) as [| fuel] eqn:Len; [lia |].
  cbn [setValueByDottedFieldName_rec]. rewrite I.
  unfold bind at 1, get_heap. unfold get_prop at 1. rewrite L, A.
  cbn [default from_option id lift]. unfold bind at 1, ret. rewrite Tr.
  unfold bind at 1, ret. unfold bind at 1.
  rewrite (assign_prop_Obj _ _ _ _ _ _ L), (assoc_get_set_prop_same _ _ _ A).
  rewrite list_insert_id by exact L.
  destruct (set_on_primitive fuel existing
              (Util.substring_from (i + 1) fieldName) v
              {| store := store w; trace := trace w |})
    as (w' & R & T & ext & S).
  - destruct existing; try reflexivity; discriminate.
  - exact NR.
  - rewrite length_substring_from. lia.
  - exists w'. split; [exact R |]. split; [exact T |].
    intros l' Lt. rewrite S. now apply lookup_app_l.
Qed.

End SetValue.

(** *** [Util.extend] *)

Section Extend.
Import UtilExtend.

Lemma isArray_insert (h : heap) (l : loc) (o o' : object) (v : value) :
  h !! l = Some o ->
  match o, o' with
  | Obj _ _, Obj _ _ | Arr _, Arr _ => True
  | _, _ => False
  end ->
  isArray (<[l := o']> h) v = isArray h v.
Proof.
  intros L K. unfold isArray. destruct v as [| | | | | l']; try reflexivity.
  destruct (decide (l = l')) as [<- | N].
  - rewrite list_lookup_insert_eq by (eapply lookup_lt_Some; eauto). rewrite L.
    destruct o, o'; tauto.
  - now rewrite list_lookup_insert_ne.
Qed.

Lemma forEach_app {A} (f : A -> M unit) (l1 l2 : list A) (w : world) :
  forEach f (l1 ++ l2) w = bind (forEach f l1) (fun _ => forEach f l2) w.
Proof.
  revert w. induction l1 as [| x l1 IH]; intros w; [reflexivity |].
  simpl. unfold bind. destruct (f x w) as [[[] | e |] w1]; try reflexivity.
  rewrite IH. reflexivity.
Qed.

Lemma assoc_get_absent {A} (k : string) (props : list (string * A)) :
  k ∉ keys props -> assoc_get k props = None.
Proof.
  induction props as [| [k' x] props IH]; intros N; [reflexivity |].
  simpl in *. destruct (String.eqb k' k) eqn:E.
  - apply String.eqb_eq in E. subst. exfalso. apply N. left.
  - apply IH. intros I. apply N. now right.
Qed.

(** The keys of [es] handled one after the other, none of them meeting
    an array with an array: the properties are assigned. *)
Lemma extend_keys_assign (lo le : loc) (c c' : jsclass) (pe : list (string * value)) :
  lo <> le -> "hasOwnProperty" ∉ keys pe ->
  forall (es po : list (string * value)) (w : world),
    store w !! lo = Some (Obj c po) -> store w !! le = Some (Obj c' pe) ->
    (forall k v, (k, v) ∈ es -> assoc_get k pe = Some v) ->
    NoDup (keys es) ->
    (forall k v, (k, v) ∈ es ->
       isArray (store w) v
       && isArray (store w) (default VUndefined (assoc_get k po)) = false) ->
    forEach (extend_key (VRef lo) (VRef le)) (keys es) w
    = (Returned tt,
       {| store := <[lo := Obj c (DV360Entity.assign po es)]> (store w);
          trace := trace w |}).
Proof.
  intros Nl Nh es. induction es as [| [k v] es IH]; intros po w Lo Le In ND Ar.
  - simpl. rewrite list_insert_id by exact Lo. now destruct w.
  - simpl in ND. apply NoDup_cons in ND as [Nk ND].
    cbn [keys map fst forEach]. unfold bind at 1, extend_key at 1.
    unfold bind at 1, get_heap. unfold hasOwnProperty_of_own_key, own_entries at 1.
    rewrite Le.
    pose proof (assoc_get_absent _ _ Nh) as Ah.
    rewrite Ah. cbn [default from_option id lift]. unfold bind at 1, ret.
    unfold bind at 1. unfold get_prop at 1. rewrite Le, (In k v) by left.
    cbn [default from_option id lift]. unfold bind at 1.
    unfold get_prop at 1. rewrite Lo. cbn [lift]. unfold ret. cbv beta iota zeta.
    rewrite (Ar k v) by left.
    rewrite (assign_prop_Obj _ _ _ _ _ _ Lo).
    pose proof (lookup_lt_Some _ _ _ Lo) as Lt.
    rewrite (IH (set_prop k v po)).
    + cbn [store trace]. now rewrite list_insert_insert_eq.
    + cbn [store]. now apply list_lookup_insert_eq.
    + cbn [store]. now rewrite list_lookup_insert_ne.
    + intros k' v' Im. apply In. now right.
    + exact ND.
    + intros k' v' Im. cbn [store].
      rewrite !(isArray_insert _ _ _ _ _ Lo) by exact I.
      rewrite assoc_get_set_prop_ne; [apply Ar; now right |].
      intros ->. apply Nk. apply list_elem_of_fmap. now exists (k, v').
Qed.

Lemma assoc_get_NoDup {A} (k : string) (v : A) (props : list (string * A)) :
  NoDup (keys props) -> (k, v) ∈ props -> assoc_get k props = Some v.
Proof.
  induction props as [| [k' x] props IH]; intros ND In;
    [now apply not_elem_of_nil in In |].
  simpl in *. apply NoDup_cons in ND as [Nk ND].
  apply elem_of_cons in In as [[= -> ->] | In].
  - now rewrite String.eqb_refl.
  - destruct (String.eqb k' k) eqn:E; [| now apply IH].
    apply String.eqb_eq in E. subst k'. exfalso. apply Nk.
    apply list_elem_of_fmap. now exists (k, v).
Qed.

(** X16. [Util.extend] returns the extension when there is no original
    ([null] or [undefined]).  Otherwise, for two different objects, when
    no array of the extension meets an array of the original, it assigns
    the properties of the extension to the original in place, as
    [Object.assign] would, and returns the original; nothing else changes.
    The names of the extension are ordinary and none is [hasOwnProperty]. *)
Theorem extend_assigns (lo le : loc) (c c' : jsclass) (po pe : list (string * value))
    (w : world) :
  (forall extension,
     extend VNull extension w = (Returned extension, w)
     /\ extend VUndefined extension w = (Returned extension, w))
  /\ (store w !! lo = Some (Obj c po) -> store w !! le = Some (Obj c' pe) ->
      lo <> le -> NoDup (keys pe) -> "hasOwnProperty" ∉ keys pe ->
      forallb ordinary_name (keys pe) = true ->
      (forall k v, (k, v) ∈ pe ->
         isArray (store w) v
         && isArray (store w) (default VUndefined (assoc_get k po)) = false) ->
      extend (VRef lo) (VRef le) w
      = (Returned (VRef lo),
         {| store := <[lo := Obj c (DV360Entity.assign po pe)]> (store w);
            trace := trace w |})).
Proof.
  split; [intros extension; split; reflexivity |].
  intros Lo Le Nl ND Nh _ Ar. unfold extend. cbn [Util.is_nullish].
  unfold bind at 1, get_heap. unfold own_entries. rewrite Le.
  unfold bind at 1.
  rewrite (extend_keys_assign lo le c c' pe Nl Nh pe po w Lo Le); try assumption.
  - reflexivity.
  - intros k v In. now apply assoc_get_NoDup.
Qed.

(** X17. Where an array of the extension meets an array of the original,
    under the key [k], [Util.extend] appends the elements of the first to
    the second in place: the original keeps its array, which grows; the
    other properties are assigned as usual (none of them putting an array
    on an array). *)
Theorem extend_appends_arrays (lo le la lb : loc) (c c' : jsclass)
    (po pe1 pe2 : list (string * value)) (k : string) (ea eb : list value) (w : world) :
  let pe := pe1 ++ (k, VRef lb) :: pe2 in
  store w !! lo = Some (Obj c po) -> store w !! le = Some (Obj c' pe) ->
  lo <> le -> NoDup (keys pe) -> "hasOwnProperty" ∉ keys pe ->
  forallb ordinary_name (keys pe) = true ->
  assoc_get k po = Some (VRef la) ->
  store w !! la = Some (Arr ea) -> store w !! lb = Some (Arr eb) ->
  (forall k' v, (k', v) ∈ pe1 ++ pe2 ->
     isArray (store w) v
     && isArray (store w) (default VUndefined (assoc_get k' po)) = false) ->
  extend (VRef lo) (VRef le) w
  = (Returned (VRef lo),
     {| store := <[lo := Obj c (DV360Entity.assign po (pe1 ++ pe2))]>
                   (<[la := Arr (ea ++ eb)]> (store w));
        trace := trace w |}).
Proof.
  intros pe Lo Le Nl ND Nh _ Ak La Lb Ar.
  assert (Nla : la <> lo) by (intros ->; congruence).
  assert (Nle : la <> le) by (intros ->; congruence).
  assert (Nlb : lb <> lo) by (intros ->; congruence).
  pose proof (lookup_lt_Some _ _ _ Lo) as Lto.
  pose proof (lookup_lt_Some _ _ _ La) as Lta.
  assert (Kp : keys pe = keys pe1 ++ k :: keys pe2)
    by (unfold pe, keys; now rewrite map_app).
  rewrite Kp in ND. apply NoDup_app in ND as (ND1 & Dj & ND2).
  apply NoDup_cons in ND2 as [Nk2 ND2].
  assert (Nk1 : k ∉ keys pe1) by (intros I; apply (Dj k I); left).
  assert (Ap : forall k' v, (k', v) ∈ pe -> assoc_get k' pe = Some v).
  { intros k' v In. apply assoc_get_NoDup; [| exact In].
    rewrite Kp. apply NoDup_app. split; [exact ND1 |]. split; [exact Dj |].
    now apply NoDup_cons. }
  unfold extend. cbn [Util.is_nullish].
  unfold bind at 1, get_heap. unfold own_entries. rewrite Le, Kp.
  unfold bind at 1. rewrite forEach_app. unfold bind at 1.
  rewrite (extend_keys_assign lo le c c' pe Nl Nh pe1 po w Lo Le); try assumption.
  2:{ intros k' v In. apply Ap. unfold pe. apply elem_of_app. now left. }
  2:{ intros k' v In. apply Ar. apply elem_of_app. now left. }
  set (po1 := DV360Entity.assign po pe1).
  set (h1 := <[lo := Obj c po1]> (store w)).
  assert (Lo1 : h1 !! lo = Some (Obj c po1)) by now apply list_lookup_insert_eq.
  assert (Le1 : h1 !! le = Some (Obj c' pe)) by (unfold h1; now rewrite list_lookup_insert_ne).
  assert (La1 : h1 !! la = Some (Arr ea)) by (unfold h1; now rewrite list_lookup_insert_ne).
  assert (Lb1 : h1 !! lb = Some (Arr eb)) by (unfold h1; now rewrite list_lookup_insert_ne).
  assert (Keep : forall es k', k' ∉ keys es ->
                   assoc_get k' (DV360Entity.assign po es) = assoc_get k' po).
  { intros es. unfold DV360Entity.assign. generalize po.
    induction es as [| [k1 v1] es IH]; intros p k' N; [reflexivity |].
    simpl. rewrite IH by (intros I; apply N; now right).
    apply assoc_get_set_prop_ne. intros ->. apply N. left. }
  assert (Ak1 : assoc_get k po1 = Some (VRef la)) by (unfold po1; now rewrite Keep).
  pose proof (assoc_get_absent _ _ Nh) as Ah.
  cbn [forEach]. unfold bind at 1, extend_key at 1.
  unfold bind at 1, get_heap. cbn [store trace].
  unfold hasOwnProperty_of_own_key, own_entries at 1. rewrite Le1, Ah.
  cbn [default from_option id lift]. unfold bind at 1, ret.
  unfold bind at 1. unfold get_prop at 1.
  rewrite Le1, (Ap k (VRef lb)) by (unfold pe; apply elem_of_app; right; left).
  cbn [default from_option id lift]. unfold bind at 1.
  unfold get_prop at 1. rewrite Lo1, Ak1. cbn [default from_option id lift].
  unfold ret. cbv beta iota zeta.
  unfold isArray. rewrite La1, Lb1. cbn [andb].
  unfold bind at 1, DV360Resource.spread. rewrite Lb1. cbn [lift].
  unfold ret. cbv beta iota zeta. unfold push. cbn [store trace]. rewrite La1.
  set (h2 := <[la := Arr (ea ++ eb)]> h1).
  assert (Lo2 : h2 !! lo = Some (Obj c po1)) by (unfold h2; now rewrite list_lookup_insert_ne).
  assert (Le2 : h2 !! le = Some (Obj c' pe)) by (unfold h2; now rewrite list_lookup_insert_ne).
  rewrite (extend_keys_assign lo le c c' pe Nl Nh pe2 po1
             {| store := h2; trace := trace w |} Lo2 Le2); try assumption.
  - cbn [store trace]. unfold po1, DV360Entity.assign. rewrite fold_left_app.
    f_equal. f_equal. unfold h2, h1.
    rewrite (list_insert_insert_ne _ la lo) by congruence.
    now rewrite list_insert_insert_eq.
  - intros k' v In. apply Ap. unfold pe. apply elem_of_app. right. now right.
  - intros k' v In. cbn [store]. unfold h2.
    rewrite !(isArray_insert _ _ _ _ _ La1) by exact I. unfold h1.
    rewrite !(isArray_insert _ _ _ _ _ Lo) by exact I.
    unfold po1. rewrite Keep.
    + apply Ar. apply elem_of_app. now right.
    + intros I1. apply (Dj k' I1). right. apply list_elem_of_fmap. now exists (k', v).
Qed.

End Extend.

(** *** Query strings *)

Section UrlQueries.
Import UrlQuery.

Lemma append_nil_r (s : string) : s +:+ "" = s.
Proof. induction s as [| c s IH]; [reflexivity |]. now rewrite append_cons, IH. Qed.

Lemma index_char_found (c : ascii) (s1 s2 : string) :
  lacks (String c "") s1 ->
  String.index 0 (String c "") (s1 +:+ String c s2) = Some (String.length s1).
Proof.
  intros L. rewrite index_skip by exact L. rewrite index_0_cons.
  rewrite prefix_cons_eq. destruct (ascii_dec c c); [| congruence].
  assert (P : String.prefix "" s2 = true) by (now destruct s2).
  rewrite P. simpl. f_equal. lia.
Qed.

Lemma substring_from_length (a b : string) :
  Util.substring_from (String.length a) (a +:+ b) = b.
Proof.
  replace (String.length a) with (String.length a + 0)%nat by lia.
  rewrite substring_from_app. apply substring_from_0.
Qed.

Lemma substring_from_after (a b : string) (c : ascii) :
  Util.substring_from (String.length a + 1) (a +:+ String c b) = b.
Proof. exact (substring_from_skip a (String c "") b). Qed.

Lemma substring_from_all (s : string) : Util.substring_from (String.length s) s = "".
Proof.
  pose proof (substring_from_length s "") as E. now rewrite append_nil_r in E.
Qed.

Lemma index_refl (s : string) : String.index 0 s s = Some 0%nat.
Proof.
  destruct s as [| c s]; [reflexivity |]. rewrite index_0_cons.
  rewrite <- (append_nil_r (String c s)) at 2. now rewrite prefix_app.
Qed.

Lemma replace_empty (s : string) : ApiUtil.replace s "" "" = s.
Proof.
  unfold ApiUtil.replace.
  assert (I : String.index 0 "" s = Some 0%nat) by (now destruct s).
  assert (B : String.substring 0 0 s = "") by (now destruct s).
  rewrite I, B. simpl. change ("" +:+ ?x) with x. apply substring_from_0.
Qed.

Lemma replace_suffix (q f : string) (c : ascii) :
  lacks (String c "") q ->
  ApiUtil.replace (q +:+ String c f) (String c f) "" = q.
Proof.
  intros L. unfold ApiUtil.replace.
  assert (I : String.index 0 (String c f) (q +:+ String c f)
              = Some (String.length q)).
  { rewrite index_skip by exact L. rewrite index_refl. simpl. f_equal. lia. }
  rewrite I. rewrite substring_prefix.
  rewrite substring_from_app, substring_from_all.
  change (ApiUtil.GetSubstitution _ _ _ "") with "". now rewrite !append_nil_r.
Qed.

Lemma replace_whole (s replacement : string) :
  lacks "$" replacement -> ApiUtil.replace s s replacement = replacement.
Proof.
  intros L. unfold ApiUtil.replace. rewrite index_refl.
  rewrite GetSubstitution_plain by exact L.
  change (String.substring 0 0 s) with (String.substring 0 0 s).
  assert (B : String.substring 0 0 s = "") by (now destruct s).
  rewrite B. change ("" +:+ ?x) with x.
  change (0 + String.length s)%nat with (String.length s).
  rewrite substring_from_all. apply append_nil_r.
Qed.

Lemma matches_skipped (key : string) (s : string) :
  forall b skip, (String.length s <= skip)%nat -> matches key b skip s = [].
Proof.
  induction s as [| c s IH]; intros b skip L; [reflexivity |].
  simpl in L. destruct skip as [| n]; [lia |]. simpl. apply IH. lia.
Qed.

Lemma prefix_amp (key : string) (c : ascii) (rest : string) :
  String.prefix ("&" +:+ key +:+ "=") (String c rest)
  = Ascii.eqb c "&" && String.prefix (key +:+ "=") rest.
Proof.
  rewrite (append_cons "&"). change ("" +:+ ?x) with x. rewrite prefix_cons_eq.
  destruct (ascii_dec "&" c) as [<- | N]; [reflexivity |].
  destruct (Ascii.eqb c "&") eqn:E; [| reflexivity].
  apply Ascii.eqb_eq in E. congruence.
Qed.

Lemma matches_none_later (key : string) (s : string) :
  String.index 0 ("&" +:+ key +:+ "=") s = None -> matches key false 0 s = [].
Proof.
  induction s as [| c s IH]; intros I; [reflexivity |].
  rewrite index_0_cons in I.
  destruct (String.prefix ("&" +:+ key +:+ "=") (String c s)) eqn:P; [discriminate |].
  rewrite prefix_amp in P. cbn [matches andb]. rewrite P. apply IH.
  destruct (String.index 0 _ s); [discriminate | reflexivity].
Qed.

Lemma matches_none (key : string) (s : string) :
  String.prefix (key +:+ "=") s = false ->
  String.index 0 ("&" +:+ key +:+ "=") s = None ->
  matches key true 0 s = [].
Proof.
  intros P I. destruct s as [| c s]; [reflexivity |].
  rewrite index_0_cons in I.
  destruct (String.prefix ("&" +:+ key +:+ "=") (String c s)) eqn:Pa; [discriminate |].
  rewrite prefix_amp in Pa. cbn [matches]. rewrite P, Pa. cbn [andb].
  apply matches_none_later.
  destruct (String.index 0 _ s); [discriminate | reflexivity].
Qed.

Lemma plain_lacks (key : string) (c : ascii) :
  plain_key key = true -> is_word c = false -> lacks (String c "") key.
Proof.
  unfold plain_key. intros P W. induction key as [| a key IH]; [reflexivity |].
  simpl in P. apply andb_true_iff in P as [Wa P].
  apply lacks_cons. split; [congruence | now apply IH].
Qed.

Lemma upto_amp_lacks (s : string) : lacks "&" s -> upto_amp s = s.
Proof.
  induction s as [| c s IH]; intros L; [reflexivity |].
  apply lacks_cons in L as [N L]. simpl.
  destruct (Ascii.eqb c "&") eqn:E; [apply Ascii.eqb_eq in E; congruence |].
  now rewrite IH.
Qed.

Lemma length_append' (a b : string) :
  String.length (a +:+ b) = (String.length a + String.length b)%nat.
Proof. induction a as [| c a IH]; [reflexivity |]. rewrite append_cons. simpl. now rewrite IH. Qed.

(** The one match in a query string that is [key=old]. *)
Lemma matches_sole (key old : string) :
  lacks "&" old ->
  matches key true 0 (key +:+ "=" +:+ old) = [key +:+ "=" +:+ old].
Proof.
  intros L.
  assert (P : String.prefix (key +:+ "=") (key +:+ "=" +:+ old) = true)
    by (rewrite <- append_assoc; apply prefix_app).
  assert (S : Util.substring_from (String.length key + 1) (key +:+ "=" +:+ old) = old)
    by (apply (substring_from_after key old "=")).
  destruct (key +:+ "=" +:+ old) as [| c rest] eqn:Q.
  { apply (f_equal String.length) in Q. rewrite length_append' in Q. simpl in Q. lia. }
  cbn [matches andb]. rewrite P, S, upto_amp_lacks by exact L.
  f_equal; [exact Q |]. apply matches_skipped.
  rewrite Q. simpl. lia.
Qed.

(** The url [base?key=old] with its one parameter: the first occurrence
    of the old value in [key=old] is replaced. *)
Lemma modify_sole (base key old value : string) :
  plain_key key = true ->
  lacks "?" base -> lacks "?" old -> lacks "#" old -> lacks "&" old ->
  lacks "$" (ApiUtil.replace (key +:+ "=" +:+ old) old value) ->
  modifyUrlQueryString (base +:+ "?" +:+ key +:+ "=" +:+ old) key value
  = base +:+ "?" +:+ ApiUtil.replace (key +:+ "=" +:+ old) old value.
Proof.
  intros Pk Lb Lq Lh La Lr. unfold modifyUrlQueryString.
  set (q := key +:+ "=" +:+ old).
  change (base +:+ "?" +:+ q) with (base +:+ String "?" q).
  rewrite index_char_found by exact Lb.
  rewrite substring_prefix, substring_from_after.
  assert (Qq : lacks "?" q).
  { unfold q. apply lacks_app. split; [now apply plain_lacks |].
    rewrite (append_cons "="). apply lacks_cons. split; [discriminate | exact Lq]. }
  assert (Qh : lacks "#" q).
  { unfold q. apply lacks_app. split; [now apply plain_lacks |].
    rewrite (append_cons "="). apply lacks_cons. split; [discriminate | exact Lh]. }
  unfold lacks in Qq, Qh. rewrite Qq, Qh, replace_empty.
  unfold q at 1. rewrite matches_sole by exact La. fold q.
  assert (Ie : String.index 0 "=" q = Some (String.length key)).
  { unfold q. change ("=" +:+ old) with (String "=" old).
    apply index_char_found. now apply plain_lacks. }
  rewrite Ie.
  assert (Sk : Util.substring_from (String.length key + 1) q = old)
    by apply (substring_from_after key old "=").
  rewrite Sk. change (key +:+ String "=" old) with q.
  cbn [fold_left]. rewrite replace_whole by exact Lr. now rewrite append_nil_r.
Qed.

(** X18. For a key of letters, digits and underscores: a url without
    [?] gets [?key=value]; a url whose query string does not hold the
    key gets [key=value] appended to the query string, after [&] when
    there are other parameters and before the fragment. *)
Theorem modifyUrlQueryString_appends (base query fragment key value : string) :
  plain_key key = true ->
  lacks "?" base -> lacks "?" query -> lacks "#" query ->
  (fragment = "" \/ exists f, fragment = String "#" f /\ lacks "?" f) ->
  String.prefix (key +:+ "=") query = false ->
  String.index 0 ("&" +:+ key +:+ "=") query = None ->
  modifyUrlQueryString base key value = base +:+ "?" +:+ key +:+ "=" +:+ value
  /\ modifyUrlQueryString (base +:+ "?" +:+ query +:+ fragment) key value
     = base +:+ "?" +:+ query
       +:+ (if (0 <? String.length query)%nat then "&" else "")
       +:+ key +:+ "=" +:+ value +:+ fragment.
Proof.
  intros _ Lb Lq Lh Fr P I. split.
  - unfold modifyUrlQueryString. unfold lacks in Lb. now rewrite Lb.
  - unfold modifyUrlQueryString.
    change (base +:+ "?" +:+ query +:+ fragment)
      with (base +:+ String "?" (query +:+ fragment)).
    rewrite index_char_found by exact Lb.
    rewrite substring_prefix, substring_from_after.
    assert (Q : String.index 0 "?" (query +:+ fragment) = None).
    { apply lacks_app. split; [exact Lq |].
      destruct Fr as [-> | (f & -> & Lf)]; [reflexivity |].
      apply lacks_cons. split; [discriminate | exact Lf]. }
    rewrite Q.
    assert (F : ApiUtil.replace (query +:+ fragment)
                  match String.index 0 "#" (query +:+ fragment) with
                  | Some k => Util.substring_from k (query +:+ fragment)
                  | None => ""
                  end "" = query
                /\ match String.index 0 "#" (query +:+ fragment) with
                   | Some k => Util.substring_from k (query +:+ fragment)
                   | None => ""
                   end = fragment).
    { destruct Fr as [-> | (f & -> & Lf)].
      - rewrite append_nil_r. unfold lacks in Lh. rewrite Lh.
        split; [apply replace_empty | reflexivity].
      - rewrite index_char_found by exact Lh. rewrite substring_from_length.
        split; [now apply replace_suffix | reflexivity]. }
    destruct F as [-> ->]. rewrite matches_none by assumption.
    now rewrite !append_assoc.
Qed.

(** X19. On a url whose query string is the one parameter [key=old], the
    new value takes the place of the old one, provided the old value does
    not occur earlier in the text [key=old] than where the value starts
    (the values have no [$], the old one no [?], [#] or [&]). *)
Theorem modifyUrlQueryString_replaces (base key old value : string) :
  plain_key key = true ->
  lacks "?" base -> lacks "?" old -> lacks "#" old -> lacks "&" old ->
  lacks "$" old -> lacks "$" value ->
  String.index 0 old (key +:+ "=" +:+ old) = Some (String.length key + 1)%nat ->
  modifyUrlQueryString (base +:+ "?" +:+ key +:+ "=" +:+ old) key value
  = base +:+ "?" +:+ key +:+ "=" +:+ value.
Proof.
  intros Pk Lb Lq Lh La Lo Lv.
  assert (Lk : lacks "$" (key +:+ "="))
    by (apply lacks_app; split; [now apply plain_lacks | reflexivity]).
  - intros I.
    assert (R : ApiUtil.replace (key +:+ "=" +:+ old) old value
                = key +:+ "=" +:+ value).
    { pose proof (replace_first (key +:+ "=") old "" value) as E.
      rewrite !append_nil_r, !append_assoc in E. apply E; [| exact Lv].
      rewrite I. f_equal. rewrite length_append'. reflexivity. }
    rewrite modify_sole; try assumption; rewrite R; [reflexivity |].
    rewrite <- append_assoc. apply lacks_app. now split.
Qed.

(** X20. The exchange of the value is by text, so an empty value is not
    replaced where it stands: on [base?key=] the new value lands in front
    of the key. *)
Theorem modifyUrlQueryString_empty_value (base key value : string) :
  plain_key key = true ->
  lacks "?" base -> lacks "$" value ->
  modifyUrlQueryString (base +:+ "?" +:+ key +:+ "=") key value
  = base +:+ "?" +:+ value +:+ key +:+ "=".
Proof.
  intros Pk Lb Lv.
  assert (Lk : lacks "$" (key +:+ "="))
    by (apply lacks_app; split; [now apply plain_lacks | reflexivity]).
  - assert (R : ApiUtil.replace (key +:+ "=" +:+ "") "" value
                = value +:+ key +:+ "=").
    { rewrite append_nil_r. unfold ApiUtil.replace.
      assert (I0 : String.index 0 "" (key +:+ "=") = Some 0%nat)
        by (now destruct (key +:+ "=")).
      assert (B : String.substring 0 0 (key +:+ "=") = "")
        by (now destruct (key +:+ "=")).
      rewrite I0, B, GetSubstitution_plain by exact Lv.
      change (0 + String.length "")%nat with 0%nat. now rewrite substring_from_0. }
    pose proof (modify_sole base key "" value Pk Lb eq_refl eq_refl eq_refl) as E.
    rewrite !append_nil_r in *. rewrite E; rewrite R; [reflexivity |].
    apply lacks_app. now split.
Qed.

End UrlQueries.

(** *** Templates with several placeholders *)

Section Templates.

Lemma prefix_upto_closing (n name rest : string) :
  lacks "}" n -> lacks "}" name ->
  String.prefix (n +:+ "}") (name +:+ "}" +:+ rest) = true -> n = name.
Proof.
  revert name. induction n as [| a n IH]; intros [| c name] Ln Lm P.
  - reflexivity.
  - rewrite append_cons in P. change ("" +:+ "}") with "}" in P.
    apply prefix_cons in P as [<- _]. apply lacks_cons in Lm as [Ne _]. congruence.
  - rewrite append_cons in P. change ("" +:+ "}" +:+ rest) with (String "}" rest) in P.
    apply prefix_cons in P as [-> _]. apply lacks_cons in Ln as [Ne _]. congruence.
  - rewrite !append_cons in P. apply prefix_cons in P as [-> P].
    apply lacks_cons in Ln as [_ Ln]. apply lacks_cons in Lm as [_ Lm].
    f_equal. now apply IH.
Qed.

Lemma render_app (ps qs : list piece) : render (ps ++ qs) = render ps +:+ render qs.
Proof.
  induction ps as [| p ps IH]; [reflexivity |].
  cbn [app render fold_right]. fold (render (ps ++ qs)). fold (render ps).
  now rewrite IH, append_assoc.
Qed.

Lemma render_lacks_closed (ps : list piece) :
  well_formed ps -> Forall (fun p => forall n, p <> Hole n) ps -> lacks "$" (render ps).
Proof.
  induction ps as [| p ps IH]; intros W N; [reflexivity |].
  apply Forall_cons in W as [Wp W]. apply Forall_cons in N as [Np N].
  cbn [render fold_right]. fold (render ps). apply lacks_app. split; [| now apply IH].
  destruct p as [s | n]; [exact Wp | now destruct (Np n)].
Qed.

Lemma length_render_cons (p : piece) (ps : list piece) :
  String.length (render (p :: ps))
  = (String.length (render_piece p) + String.length (render ps))%nat.
Proof. cbn [render fold_right]. fold (render ps). apply length_append'. Qed.

Lemma placeholder_not_prefix (name n rest : string) :
  lacks "}" name -> lacks "}" n -> n <> name ->
  String.prefix (placeholder name) (placeholder n +:+ rest) = false.
Proof.
  intros Ln Lm Ne. destruct (String.prefix _ _) eqn:P; [| reflexivity].
  exfalso. apply Ne. symmetry.
  rewrite !placeholder_cons, append_cons in P. apply prefix_cons in P as [_ P].
  rewrite !(append_cons "{") in P. apply prefix_cons in P as [_ P].
  change ("" +:+ ?x) with x in P. rewrite append_assoc in P.
  now apply (prefix_upto_closing name n rest).
Qed.

(** Before its first hole of [name], a well-formed template does not hold
    the placeholder of [name]. *)
Lemma index_no_hole (name : string) (ps : list piece) (rest : string) :
  lacks "}" name -> well_formed ps -> Forall (fun p => p <> Hole name) ps ->
  String.index 0 (placeholder name) (render ps +:+ rest)
  = (fun i => (String.length (render ps) + i)%nat)
      <$> String.index 0 (placeholder name) rest.
Proof.
  intros Ln W N. induction ps as [| p ps IH].
  - change (render [] +:+ rest) with rest. now destruct (String.index _ _ rest).
  - apply Forall_cons in W as [Wp W]. apply Forall_cons in N as [Np N].
    specialize (IH W N). rewrite length_render_cons.
    cbn [render fold_right]. fold (render ps). rewrite append_assoc.
    destruct p as [s | n]; cbn [render_piece].
    + rewrite placeholder_cons, index_skip by exact Wp.
      rewrite <- placeholder_cons, IH.
      destruct (String.index 0 (placeholder name) rest); cbn; [f_equal; lia | reflexivity].
    + destruct Wp as [Wd Wc].
      assert (Ne : n <> name) by congruence.
      pose proof (placeholder_not_prefix name n (render ps +:+ rest) Ln Wc Ne) as P.
      rewrite (placeholder_cons n), append_cons in P |- *.
      rewrite index_0_cons, P.
      rewrite (placeholder_cons name), index_skip.
      * rewrite <- (placeholder_cons name), IH.
        rewrite length_append'.
        destruct (String.index 0 (placeholder name) rest); cbn; [| reflexivity].
        change (String.length ("{" +:+ n +:+ "}")) with (S (String.length (n +:+ "}"))).
        f_equal. lia.
      * rewrite (append_cons "{"). apply lacks_cons. split; [discriminate |].
        change ("" +:+ ?x) with x. apply lacks_app. split; [exact Wd | reflexivity].
Qed.

Lemma index_at_start (p s : string) :
  p <> "" -> String.index 0 p (p +:+ s) = Some 0%nat.
Proof.
  destruct p as [| c p]; [congruence | intros _].
  rewrite append_cons, index_0_cons, <- append_cons. now rewrite prefix_app.
Qed.

Lemma first_hole (name : string) (ps : list piece) :
  (exists pre post,
     ps = pre ++ Hole name :: post /\ Forall (fun p => p <> Hole name) pre
     /\ forall v, fill_first name v ps = pre ++ Text v :: post)
  \/ (Forall (fun p => p <> Hole name) ps /\ forall v, fill_first name v ps = ps).
Proof.
  induction ps as [| p ps IH].
  - right. split; [constructor | reflexivity].
  - destruct p as [s | n].
    + destruct IH as [(pre & post & -> & N & F) | [N F]].
      * left. exists (Text s :: pre), post. split; [reflexivity |].
        split; [constructor; [discriminate | exact N] |].
        intros v. cbn. now rewrite F.
      * right. split; [constructor; [discriminate | exact N] |].
        intros v. cbn. now rewrite F.
    + destruct (String.eqb n name) eqn:E.
      * apply String.eqb_eq in E as ->. left. exists [], ps.
        split; [reflexivity |]. split; [constructor |].
        intros v. cbn. now rewrite String.eqb_refl.
      * pose proof E as E'. apply String.eqb_neq in E'.
        destruct IH as [(pre & post & -> & N & F) | [N F]].
        -- left. exists (Hole n :: pre), post. split; [reflexivity |].
           split; [constructor; [congruence | exact N] |].
           intros v. cbn. now rewrite E, F.
        -- right. split; [constructor; [congruence | exact N] |].
           intros v. cbn. now rewrite E, F.
Qed.

(** One replacement on a well-formed template fills the first hole of
    the name. *)
Lemma replace_render (name v : string) (ps : list piece) :
  lacks "}" name -> well_formed ps -> lacks "$" v ->
  ApiUtil.replace (render ps) (placeholder name) v = render (fill_first name v ps).
Proof.
  intros Ln W Lv.
  destruct (first_hole name ps) as [(pre & post & -> & N & F) | [N F]].
  - rewrite F, !render_app. cbn [render fold_right render_piece].
    fold (render post).
    apply replace_first; [| exact Lv].
    apply Forall_app in W as [W _].
    rewrite index_no_hole by assumption.
    rewrite index_at_start by (rewrite placeholder_cons; discriminate).
    cbn. f_equal. lia.
  - rewrite F. apply replace_absent.
    pose proof (index_no_hole name ps "" Ln W N) as I.
    rewrite append_nil_r in I. rewrite I. reflexivity.
Qed.

Lemma fill_first_well_formed (name v : string) (ps : list piece) :
  lacks "$" v -> well_formed ps -> well_formed (fill_first name v ps).
Proof.
  intros Lv W. induction ps as [| p ps IH]; [constructor |].
  apply Forall_cons in W as [Wp W]. destruct p as [s | n]; cbn.
  - constructor; [exact Wp | now apply IH].
  - destruct (String.eqb n name).
    + constructor; [exact Lv | exact W].
    + constructor; [exact Wp | now apply IH].
Qed.

Lemma fold_replace_render (h : heap) (entries : list (string * value)) :
  Forall (fun entry : string * value =>
            lacks "}" entry.1 /\ lacks "$" (ToString h entry.2)) entries ->
  forall ps, well_formed ps ->
    fold_left (fun output (entry : string * value) =>
                 ApiUtil.replace output ("${" +:+ entry.1 +:+ "}") (ToString h entry.2))
              entries (render ps)
    = render (fill h entries ps).
Proof.
  induction 1 as [| [n v] entries [Ln Lv] _ IH]; intros ps W; [reflexivity |].
  cbn [fold_left fill fst snd]. fold (placeholder n).
  rewrite replace_render by assumption.
  apply IH. now apply fill_first_well_formed.
Qed.

Lemma delete_prop_absent {A} (name : string) (entries : list (string * A)) :
  name ∉ keys entries -> delete_prop name entries = entries.
Proof.
  induction entries as [| [k x] entries IH]; intros N; [reflexivity |].
  cbn in *. apply not_elem_of_cons in N as [Ne N].
  destruct (String.eqb k name) eqn:E.
  - apply String.eqb_eq in E. congruence.
  - now rewrite IH.
Qed.

Lemma keys_delete_prop {A} (name k : string) (entries : list (string * A)) :
  k ∈ keys (delete_prop name entries) -> k ∈ keys entries.
Proof.
  induction entries as [| [k' x] entries IH]; [easy |]. cbn.
  destruct (String.eqb k' name); cbn; rewrite ?elem_of_cons; intuition.
Qed.

(** The entry taken first can as well be taken into the map. *)
Lemma resolve_cons (h : heap) (n : string) (v : value) (ps : list piece) :
  forall entries, n ∉ keys entries ->
    resolve h ((n, v) :: entries) ps = resolve h entries (fill_first n (ToString h v) ps).
Proof.
  induction ps as [| p ps IH]; intros entries N; [reflexivity |].
  destruct p as [s | m].
  - cbn. now rewrite IH.
  - cbn [resolve fill_first assoc_get delete_prop].
    rewrite (String.eqb_sym n m).
    destruct (String.eqb m n) eqn:E.
    + apply String.eqb_eq in E as ->. cbn [resolve].
      now rewrite delete_prop_absent.
    + cbn [resolve]. destruct (assoc_get m entries) as [u |].
      * rewrite IH; [reflexivity |].
        intros I. apply N. eapply keys_delete_prop, I.
      * now rewrite IH.
Qed.

Lemma fill_resolve (h : heap) (entries : list (string * value)) :
  NoDup (keys entries) -> forall ps, fill h entries ps = resolve h entries ps.
Proof.
  induction entries as [| [n v] entries IH]; intros ND ps.
  - cbn. induction ps as [| [s | m] ps IHp]; cbn; [reflexivity | |]; now rewrite <- IHp.
  - cbn in ND. apply NoDup_cons in ND as [N ND].
    cbn [fill fold_left fst snd]. fold (fill h entries (fill_first n (ToString h v) ps)).
    rewrite IH by exact ND. symmetry. now apply resolve_cons.
Qed.

(** C7 (as amended).  On a template of literal texts and placeholders,
    [ApiUtil.replaceInputValues] goes through the entries of the map in
    order, each entry filling the first placeholder of its name with its
    value.  Read from left to right, every placeholder whose name is in
    the map gives way to the value once, at its first occurrence; the
    further occurrences of the name and the placeholders whose names are
    not in the map stay as they are, and no error is raised.  The texts
    and the values have no [$], the names no closing brace, the values
    are primitives that print in full; for [null] or [undefined] in the
    place of the map the template is returned as it is. *)
Theorem replaceInputValues_first_occurrence_only
    (h : heap) (params : value) (pieces : list piece) :
  (Util.is_nullish params = true ->
   ApiUtil.replaceInputValues h (render pieces) params = render pieces)
  /\ (Util.is_nullish params = false ->
      well_formed pieces ->
      Forall (fun entry : string * value =>
                lacks "}" entry.1 /\ plain_value entry.2
                /\ lacks "$" (ToString h entry.2))
             (own_entries h params) ->
      ApiUtil.replaceInputValues h (render pieces) params
      = render (fill h (own_entries h params) pieces)
      /\ (NoDup (keys (own_entries h params)) ->
          fill h (own_entries h params) pieces
          = resolve h (own_entries h params) pieces)).
Proof.
  split.
  - intros NN. unfold ApiUtil.replaceInputValues. now rewrite NN.
  - intros NN W F. split; [| intros ND; now apply fill_resolve].
    unfold ApiUtil.replaceInputValues. rewrite NN.
    apply fold_replace_render; [| exact W].
    eapply Forall_impl; [exact F |]. intros [n v] (Ln & _ & Lv). now split.
Qed.

End Templates.

(** A template with two placeholders, one of them twice, and a map with a
    name the template does not hold. *)
Lemma replaceInputValues_first_occurrence_only_witness :
  let h := [Obj CObject [("lineItemId", VNum 7); ("partnerId", VStr "9");
                         ("advertiserId", VStr "123")]] in
  ApiUtil.replaceInputValues h
    "advertisers/${advertiserId}/lineItems/${lineItemId}?filter=${advertiserId}${x}"
    (VRef 0%nat)
  = "advertisers/123/lineItems/7?filter=${advertiserId}${x}".
Proof.
  intros h.
  destruct (replaceInputValues_first_occurrence_only h (VRef 0%nat)
              [Text "advertisers/"; Hole "advertiserId"; Text "/lineItems/";
               Hole "lineItemId"; Text "?filter="; Hole "advertiserId"; Hole "x"])
    as [_ P].
  destruct P as [E R].
  - reflexivity.
  - repeat constructor.
  - repeat constructor.
  - rewrite R in E; [exact E |]. apply (bool_decide_unpack _). vm_compute. exact I.
Defined.

(** ** The theorems above on concrete runs *)

Lemma get_returns_fetched_entity_witness :
  exists l props w',
    @DV360Resource.get steady_host DV360Resource.Campaigns (VRef 0%nat) one_campaign
    = (Returned (VRef l), w')
    /\ store w' !! l = Some (Obj CCampaign props)
    /\ JSON_stringify (store w') (VRef l)
       = Some (Some (JObj (entity_members CCampaign
                             [("campaignId", JStr "1"); ("displayName", JStr "a")]))).
Proof.
  edestruct (@get_returns_fetched_entity steady_host DV360Resource.Campaigns CCampaign
               (VRef 0%nat) one_campaign)
    as (l & props & w' & G & _ & _ & L & J & _).
  - reflexivity.
  - vm_compute. lia.
  - vm_compute. reflexivity.
  - reflexivity.
  - reflexivity.
  - reflexivity.
  - reflexivity.
  - left. reflexivity.
  - exists l, props, w'. split; [exact G |]. split; [exact L | exact J].
Defined.

Lemma request_fails_unless_200_witness :
  @ApiUtil.executeGenericRequest_ created_host value "advertisers/1/campaigns" POST
    (Some (Scenario.campaign "1" "a")) (fun _ result => ret result) VNull Scenario.empty
  = (Thrown (Error (PlainText "Created")),
     {| store := [];
        trace := [Fetch {| req_method := POST;
                           req_url := ApiUtil.buildApiUrl_ "advertisers/1/campaigns";
                           req_payload := Some (Scenario.campaign "1" "a") |}] |}).
Proof.
  apply (@request_fails_unless_200 created_host value "advertisers/1/campaigns" POST
           (Some (Scenario.campaign "1" "a")) (fun _ result => ret result) VNull
           Scenario.empty).
  - vm_compute. lia.
  - vm_compute. discriminate.
Defined.


Lemma list_collects_all_pages_witness :
  exists entities w',
    @DV360Resource.list paging_host DV360Resource.Campaigns VNull Scenario.empty
    = (Returned entities, w')
    /\ Forall2 (fun entity fields =>
                  JSON_stringify (store w') entity
                  = Some (Some (JObj (entity_members CCampaign fields))))
         entities
         [[("campaignId", JStr "1"); ("displayName", JStr "a")];
          [("campaignId", JStr "2"); ("displayName", JStr "b")];
          [("campaignId", JStr "3"); ("displayName", JStr "c")]]
    /\ length (trace w') = 2%nat.
Proof.
  edestruct (@list_collects_all_pages paging_host DV360Resource.Campaigns CCampaign
               VNull Scenario.empty
               [[[("campaignId", JStr "1"); ("displayName", JStr "a")]];
                [[("campaignId", JStr "2"); ("displayName", JStr "b")];
                 [("campaignId", JStr "3"); ("displayName", JStr "c")]]])
    as (entities & w' & L & F & (urls & Lu & T) & _).
  - reflexivity.
  - eapply (@serves_more paging_host _ _ _ first_page _ "p2");
      [reflexivity | reflexivity | reflexivity | reflexivity |].
    eapply (@serves_last paging_host _ _ _ second_page);
      [reflexivity | reflexivity | left; reflexivity | reflexivity].
  - vm_compute. lia.
  - repeat constructor.
  - repeat constructor.
  - exists entities, w'. split; [exact L |]. split.
    + eapply Forall2_impl; [exact F |].
      intros entity fields (l & props & _ & _ & _ & J). exact J.
    + rewrite T. cbn [Scenario.empty trace app]. rewrite length_map. exact Lu.
Defined.

Lemma list_of_empty_body_witness :
  @DV360Resource.list empty_body_host DV360Resource.Campaigns VNull Scenario.empty
  = (Returned [],
     {| store := [Obj CObject []];
        trace := [Fetch (get_request
                           (ApiUtil.buildApiUrl_ "advertisers/${advertiserId}/campaigns"))] |}).
Proof.
  apply (@list_of_empty_body empty_body_host DV360Resource.Campaigns VNull
           Scenario.empty).
  - vm_compute. lia.
  - reflexivity.
Defined.

Lemma list_needs_its_field_witness :
  exists w',
    @DV360Resource.list steady_host DV360Resource.Campaigns VNull Scenario.empty
    = (Thrown TypeError, w')
    /\ length (trace w') = 1%nat.
Proof.
  edestruct (@list_needs_its_field steady_host DV360Resource.Campaigns VNull
               Scenario.empty
               [("campaignId", JStr "1"); ("displayName", JStr "a")])
    as (w' & L & T).
  - vm_compute. lia.
  - reflexivity.
  - reflexivity.
  - discriminate.
  - reflexivity.
  - exists w'. split; [exact L |]. now rewrite T.
Defined.

Lemma update_sends_patch_witness :
  exists o w' before rest,
    @DV360Resource.update steady_host DV360Resource.Campaigns (VRef 0%nat)
      renamed_campaign
    = (o, w')
    /\ trace w'
       = before
         ++ Fetch {| req_method := PATCH;
                     req_url := ApiUtil.buildApiUrl_
                                  ("advertisers/${advertiserId}/campaigns/1"
                                   +:+ "?updateMask=" +:+ "displayName");
                     req_payload := Some (Scenario.campaign "1" "b") |} :: rest.
Proof.
  set (got := @DV360Resource.get steady_host DV360Resource.Campaigns (VRef 0%nat)
                renamed_campaign).
  edestruct (@update_sends_patch steady_host DV360Resource.Campaigns (VRef 0%nat)
               (VRef 4%nat) renamed_campaign got.2)
    as (o & w' & rest & U & T).
  - vm_compute. reflexivity.
  - vm_compute. reflexivity.
  - discriminate.
  - vm_compute. reflexivity.
  - vm_compute. reflexivity.
  - vm_compute. lia.
  - exists o, w', (trace got.2), rest. split; [exact U | exact T].
Defined.

Lemma create_posts_copy_without_id_witness :
  exists o w' rest,
    @DV360Resource.create steady_host DV360Resource.Campaigns (VRef 0%nat) one_campaign
    = (o, w')
    /\ trace w'
       = Fetch {| req_method := POST;
                  req_url := ApiUtil.buildApiUrl_ "advertisers/${advertiserId}/campaigns";
                  req_payload := Some (JObj [("displayName", JStr "a")]) |} :: rest
    /\ store w' !! 0%nat = store one_campaign !! 0%nat.
Proof.
  edestruct (@create_posts_copy_without_id steady_host DV360Resource.Campaigns
               "campaignId" 0%nat CObject
               [("campaignId", VStr "1"); ("displayName", VStr "a")]
               [("campaignId", JStr "1"); ("displayName", JStr "a")] one_campaign)
    as (o & w' & rest & C & T & L).
  - reflexivity.
  - reflexivity.
  - apply (bool_decide_unpack _). vm_compute. exact I.
  - reflexivity.
  - reflexivity.
  - vm_compute. lia.
  - exists o, w', rest. split; [exact C |]. split; [exact T | exact L].
Defined.

Lemma difference_laws_witness :
  Util.difference three_options [VRef 0%nat; VRef 1%nat] [VRef 0%nat; VRef 1%nat]
  = Some []
  /\ Util.difference three_options [VRef 0%nat; VRef 1%nat] []
     = Some [VRef 0%nat; VRef 1%nat].
Proof.
  apply (difference_laws three_options [VRef 0%nat; VRef 1%nat]).
  repeat constructor; vm_compute; eauto.
Defined.

Lemma collectUniqueTypes_lists_each_type_once_witness :
  exists types,
    LineItemTargetingOptions.collectUniqueTypes three_options
      [VRef 0%nat; VRef 1%nat; VRef 0%nat]
    = Some types
    /\ NoDup types.
Proof.
  destruct (collectUniqueTypes_lists_each_type_once three_options
              [VRef 0%nat; VRef 1%nat; VRef 0%nat])
    as (types & C & ND & _).
  - repeat constructor.
  - exists types. split; [exact C | exact ND].
Defined.

Lemma replaceInputValues_one_placeholder_witness :
  ApiUtil.replaceInputValues (store one_lineItem)
    ("advertisers/" +:+ placeholder "advertiserId" +:+ "/campaigns") (VRef 1%nat)
  = "advertisers/" +:+ "1" +:+ "/campaigns".
Proof.
  apply (replaceInputValues_one_placeholder (store one_lineItem) (VRef 1%nat) (VStr "1")
           "advertisers/" "advertiserId" "/campaigns"); try reflexivity.
  apply (bool_decide_unpack _). vm_compute. exact I.
Defined.

Lemma advertiser_uri_ends_in_undefined_witness :
  exists w',
    DV360Resource.buildSingleEntityUri_ DV360Resource.Advertisers (VRef 1%nat)
      one_advertiser
    = (Returned ("advertisers?partnerId=" +:+ "5" +:+ "/undefined"), w')
    /\ trace w' = [].
Proof.
  apply (advertiser_uri_ends_in_undefined 1%nat CAdvertiser
           [("fieldList_", VRef 0%nat); ("advertiserId", VStr "7");
            ("partnerId", VStr "5"); ("displayName", VStr "a")] "5" one_advertiser);
    try reflexivity.
  apply (bool_decide_unpack _). vm_compute. exact I.
Defined.

Lemma setValue_then_getValue_witness :
  exists w',
    UtilWrites.setValueByDottedFieldName (VRef 0%nat) "budget.amount" (VNum 5)
      empty_payload
    = (Returned tt, w')
    /\ Util.getValueByDottedFieldName (store w') (VRef 0%nat) "budget.amount" = VNum 5.
Proof.
  destruct (setValue_then_getValue 0%nat [] "budget.amount" (VNum 5) empty_payload)
    as (w' & props' & S & G & _).
  - reflexivity.
  - repeat (constructor; [reflexivity |]). constructor.
  - reflexivity.
  - exists w'. split; [exact S | exact G].
Defined.

Lemma setValue_through_primitive_witness :
  exists w',
    UtilWrites.setValueByDottedFieldName (VRef 0%nat) "budget.amount" (VNum 7)
      priced_payload
    = (Thrown TypeError, w')
    /\ store w' !! 0%nat = Some (Obj CObject [("budget", VNum 5)]).
Proof.
  destruct (setValue_through_primitive 0%nat CObject [("budget", VNum 5)]
              "budget.amount" (VNum 7) (VNum 5) priced_payload)
    as (w' & S & _ & F).
  - reflexivity.
  - repeat (constructor; [reflexivity |]). constructor.
  - discriminate.
  - reflexivity.
  - split; [reflexivity | discriminate].
  - exists w'. split; [exact S |]. apply (F 0%nat). vm_compute. lia.
Defined.

Lemma extend_assigns_witness :
  UtilExtend.extend (VRef 0%nat) (VRef 1%nat)
    {| store := [Obj CObject [("contentType", VStr "application/json")];
                 Obj CObject [("method", VStr "post"); ("contentType", VStr "text/csv")]];
       trace := [] |}
  = (Returned (VRef 0%nat),
     {| store := [Obj CObject [("contentType", VStr "text/csv"); ("method", VStr "post")];
                  Obj CObject [("method", VStr "post"); ("contentType", VStr "text/csv")]];
        trace := [] |}).
Proof.
  apply (proj2 (extend_assigns 0%nat 1%nat CObject CObject
                  [("contentType", VStr "application/json")]
                  [("method", VStr "post"); ("contentType", VStr "text/csv")]
                  {| store := [Obj CObject [("contentType", VStr "application/json")];
                               Obj CObject [("method", VStr "post");
                                            ("contentType", VStr "text/csv")]];
                     trace := [] |})).
  - reflexivity.
  - reflexivity.
  - discriminate.
  - apply (bool_decide_unpack _). vm_compute. exact I.
  - apply (bool_decide_unpack _). vm_compute. exact I.
  - reflexivity.
  - intros k v In. apply list_elem_of_In in In.
    destruct In as [[= <- <-] | [[= <- <-] | []]]; reflexivity.
Defined.

Lemma extend_appends_arrays_witness :
  UtilExtend.extend (VRef 0%nat) (VRef 1%nat) request_options
  = (Returned (VRef 0%nat),
     {| store := [Obj CObject [("contentType", VStr "application/json");
                               ("scopes", VRef 2%nat); ("method", VStr "post")];
                  Obj CObject [("method", VStr "post"); ("scopes", VRef 3%nat)];
                  Arr [VStr "display-video"; VStr "spreadsheets"];
                  Arr [VStr "spreadsheets"]];
        trace := [] |}).
Proof.
  apply (extend_appends_arrays 0%nat 1%nat 2%nat 3%nat CObject CObject
           [("contentType", VStr "application/json"); ("scopes", VRef 2%nat)]
           [("method", VStr "post")] [] "scopes"
           [VStr "display-video"] [VStr "spreadsheets"] request_options).
  - reflexivity.
  - reflexivity.
  - discriminate.
  - apply (bool_decide_unpack _). vm_compute. exact I.
  - apply (bool_decide_unpack _). vm_compute. exact I.
  - reflexivity.
  - reflexivity.
  - reflexivity.
  - reflexivity.
  - intros k v In. apply list_elem_of_In in In.
    destruct In as [[= <- <-] | []]; reflexivity.
Defined.

Lemma modifyUrlQueryString_appends_witness :
  UrlQuery.modifyUrlQueryString "campaigns" "pageToken" "p2" = "campaigns?pageToken=p2"
  /\ UrlQuery.modifyUrlQueryString "campaigns?filter=x#top" "pageToken" "p2"
     = "campaigns?filter=x&pageToken=p2#top".
Proof.
  apply (modifyUrlQueryString_appends "campaigns" "filter=x" "#top" "pageToken" "p2");
    try reflexivity.
  right. exists "top". split; reflexivity.
Defined.

Lemma modifyUrlQueryString_replaces_witness :
  UrlQuery.modifyUrlQueryString "campaigns?pageToken=p2" "pageToken" "p3"
  = "campaigns?pageToken=p3".
Proof.
  apply (modifyUrlQueryString_replaces "campaigns" "pageToken" "p2" "p3");
    reflexivity.
Defined.

Lemma modifyUrlQueryString_empty_value_witness :
  UrlQuery.modifyUrlQueryString "campaigns?filter=" "filter" "x"
  = "campaigns?xfilter=".
Proof.
  apply (modifyUrlQueryString_empty_value "campaigns" "filter" "x"); reflexivity.
Defined.
